(** * PredictWell web front end: session layer, navigation mount, risk badge

    A shallow embedding of the browser-side JavaScript of the repository:

    - [src/web/auth.js]            the [AUTH] helper with [navHTML] / [mountNav]
    - [src/unnamed/part_001]       the two header snippets ([PW_AUTH] with
                                   [headerHTML] / [mountHeader]), once as an
                                   inline script and once as a script file
    - [src/unnamed/part_000]       the risk form handler and its badge

    The code runs against browser built-ins ([localStorage], [JSON], [btoa],
    the HTML fragment parser, number/string conversions).  Those are not code
    of the repository: they are collected in the [Platform] class and every
    definition of the embedding is parametric in it.  Whatever a statement
    needs to know about a built-in is written as a hypothesis of that
    statement. *)

From Stdlib Require Import ZArith QArith Lqa Ascii String List Bool Lia.
From stdpp Require Import base option list gmap strings.

Set Warnings "-register-all".
Local Open Scope string_scope.
Local Open Scope list_scope.

(* ===================================================================== *)
(** * JavaScript values *)
(* ===================================================================== *)

(** A JavaScript number is NaN, an infinity, or a finite double.  Every
    finite double is a rational, and the only operations the code applies
    to numbers are comparisons with 6 and 15, which are exact on rationals;
    so finite numbers are taken in [Q]. *)
Inductive number : Type :=
  | NaN
  | PosInf
  | NegInf
  | Fin (q : Q).

(** The values the code handles: what [JSON.parse] can return, plus
    [undefined] (a missing property).  Strings are sequences of 8-bit
    code units. *)
Inductive value : Type :=
  | VUndefined
  | VNull
  | VBool (b : bool)
  | VNum (n : number)
  | VStr (s : string)
  | VArr (xs : list value)
  | VObj (fields : list (string * value)).

(** Exceptions the modelled code can meet. *)
Inductive exn : Type :=
  | SyntaxError            (* JSON.parse on malformed text *)
  | InvalidCharacterError  (* btoa on a code unit above 255 *)
  | TypeError.             (* property access on null / undefined, conversion
                              of an object without a usable toString *)

(** The outcome of evaluating a piece of code: a value, or a throw. *)
Inductive completion (A : Type) : Type :=
  | Normal (a : A)
  | Throw (e : exn).
Arguments Normal {A} a.
Arguments Throw {A} e.

#[global] Instance completion_ret : MRet completion := fun A a => Normal a.
#[global] Instance completion_bind : MBind completion :=
  fun A B f m => match m with Normal a => f a | Throw e => Throw e end.

(** [try { body } catch { handler }] *)
Definition try_catch {A} (body handler : completion A) : completion A :=
  match body with
  | Normal a => Normal a
  | Throw _ => handler
  end.

(** The double quote character, and a helper that turns every apostrophe of
    a literal into a double quote, so that markup and JSON text can be
    written legibly.  It is applied to constant text only. *)
Definition dquote : ascii := "034"%char.
Definition apostrophe : ascii := "039"%char.

Fixpoint qq (s : string) : string :=
  match s with
  | EmptyString => EmptyString
  | String c r => String (if Ascii.eqb c apostrophe then dquote else c) (qq r)
  end.

(* ===================================================================== *)
(** * The document tree *)
(* ===================================================================== *)

(** What a click listener registered by the code does.  The only closure the
    code registers is [() => { this.logout(); location.href = target; }]. *)
Inductive listener : Type :=
  | LogoutThenGoto (target : string).

(** DOM nodes: text, or an element with its local name, attributes, click
    listeners and children.  The elements are HTML elements: the pages of
    the repository hold no SVG or MathML subtree, and the tree has no place
    for a namespace. *)
Inductive node : Type :=
  | Text (data : string)
  | Elem (tag : string) (attrs : list (string * string))
         (clicks : list listener) (children : list node).

(** What selector matching and the fragment parser see of an element: its
    local name and attributes. *)
Definition shape : Type := string * list (string * string).

Definition shape_of (n : node) : shape :=
  match n with
  | Elem t a _ _ => (t, a)
  | Text _ => ("", [])
  end.

Definition children_of (n : node) : list node :=
  match n with
  | Elem _ _ _ ch => ch
  | Text _ => []
  end.

(* ===================================================================== *)
(** * Browser built-ins *)
(* ===================================================================== *)

Class Platform : Type := {
  (** [JSON.parse(text)]; throws [SyntaxError] on malformed text. *)
  JSON_parse : string -> completion value;
  (** [JSON.stringify(v)]; [None] stands for the result [undefined]. *)
  JSON_stringify : value -> option string;
  (** [btoa(s)]; throws [InvalidCharacterError]. *)
  btoa : string -> completion string;
  (** [Number.prototype.toString], as used by string interpolation. *)
  NumberToString : number -> string;
  (** The conversion of a string to a number that [Number(s)] applies. *)
  StringToNumber : string -> number;
  (** The HTML fragment parser behind [innerHTML] and [insertAdjacentHTML]:
      context element and markup to the parsed nodes. *)
  parse_fragment : shape -> string -> list node
}.

(* ===================================================================== *)
(** * Conversions and operators of the language *)
(* ===================================================================== *)

(** [a <= b] and [a < b] on numbers; every comparison with NaN is false. *)
Definition num_le (a b : number) : bool :=
  match a, b with
  | NaN, _ | _, NaN => false
  | NegInf, _ => true
  | _, PosInf => true
  | PosInf, _ => false
  | _, NegInf => false
  | Fin p, Fin q => Qle_bool p q
  end.

Definition num_lt (a b : number) : bool :=
  match a, b with
  | NaN, _ | _, NaN => false
  | PosInf, _ => false
  | _, NegInf => false
  | NegInf, _ => true
  | _, PosInf => true
  | Fin p, Fin q => negb (Qle_bool q p)
  end.

(** Number literals of the source. *)
Definition num (z : Z) : number := Fin (inject_Z z).

(** [ToBoolean]: the truthiness that [!!v], [||] and [if] use. *)
Definition ToBoolean (v : value) : bool :=
  match v with
  | VUndefined | VNull => false
  | VBool b => b
  | VNum NaN => false
  | VNum (Fin q) => negb (Qeq_bool q 0)
  | VNum _ => true
  | VStr s => negb (String.eqb s "")
  | VArr _ | VObj _ => true
  end.

(** [a || b] *)
Definition js_or (a b : value) : value := if ToBoolean a then a else b.

(** [a ?? b] *)
Definition js_nullish (a b : value) : value :=
  match a with
  | VUndefined | VNull => b
  | _ => a
  end.

(** Own property of an object by name; [undefined] when there is none. *)
Fixpoint lookup_field (k : string) (fs : list (string * value)) : value :=
  match fs with
  | [] => VUndefined
  | (k', v) :: r => if String.eqb k k' then v else lookup_field k r
  end.

(** [v.k] for the property names the code reads ([email], [risk_score]),
    which no primitive wrapper or array prototype defines. *)
Definition get_prop (v : value) (k : string) : completion value :=
  match v with
  | VUndefined | VNull => Throw TypeError
  | VObj fs => Normal (lookup_field k fs)
  | _ => Normal VUndefined
  end.

(** [v?.k] *)
Definition get_prop_opt (v : value) (k : string) : value :=
  match v with
  | VUndefined | VNull => VUndefined
  | VObj fs => lookup_field k fs
  | _ => VUndefined
  end.

(** [Array.prototype.join] on already converted elements. *)
Fixpoint join (sep : string) (l : list string) : string :=
  match l with
  | [] => ""
  | [x] => x
  | x :: r => x +:+ sep +:+ join sep r
  end.

(** [Object.prototype.hasOwnProperty] for an object that [JSON.parse]
    built: the properties of its text are its own data properties. *)
Definition own_property (k : string) (fs : list (string * value)) : bool :=
  existsb (fun kv => String.eqb k (fst kv)) fs.

Section Conversions.
Context `{Platform}.

(** [ToString], as applied by template literals, by [String(v)] and by
    [JSON.parse] to its argument.

    An object is first converted to a primitive, by its [toString] method.
    For an array that is [Array.prototype.toString], which joins the
    conversions of the elements.  For any other object it is
    [Object.prototype.toString], unless the object has an own [toString]
    property: a property that came from JSON text is data and not callable,
    [valueOf] returns the object itself, so no method yields a primitive
    and the conversion throws [TypeError]. *)
Fixpoint ToString (v : value) : completion string :=
  match v with
  | VUndefined => Normal "undefined"
  | VNull => Normal "null"
  | VBool true => Normal "true"
  | VBool false => Normal "false"
  | VNum n => Normal (NumberToString n)
  | VStr s => Normal s
  | VArr xs =>
      match
        (fix elements (l : list value) : completion (list string) :=
           match l with
           | [] => Normal []
           | x :: r =>
               match match x with
                     | VUndefined | VNull => Normal ""
                     | _ => ToString x
                     end
               with
               | Throw e => Throw e
               | Normal s =>
                   match elements r with
                   | Throw e => Throw e
                   | Normal ss => Normal (s :: ss)
                   end
               end
           end) xs
      with
      | Throw e => Throw e
      | Normal ss => Normal (join "," ss)
      end
  | VObj fs =>
      if own_property "toString" fs then Throw TypeError
      else Normal "[object Object]"
  end.

(** [Number(v)].  An object is converted to a primitive first, by
    [valueOf] (which returns the object itself) and then by [toString], as
    above. *)
Definition ToNumber (v : value) : completion number :=
  match v with
  | VUndefined => Normal NaN
  | VNull => Normal (num 0)
  | VBool true => Normal (num 1)
  | VBool false => Normal (num 0)
  | VNum n => Normal n
  | VStr s => Normal (StringToNumber s)
  | VArr _ | VObj _ => s ← ToString v; Normal (StringToNumber s)
  end.
End Conversions.

(* ===================================================================== *)
(** * Credential store and session accessor *)
(* ===================================================================== *)

(** [localStorage]: string keys to string values. *)
Abbreviation Storage := (gmap string string).

(** [localStorage.getItem(k)]: the stored string, or [null]. *)
Definition getItem (st : Storage) (k : string) : value :=
  match st !! k with
  | Some s => VStr s
  | None => VNull
  end.

(** [localStorage.setItem(k, s)] and [localStorage.removeItem(k)].  The
    store is taken to have room for what the code writes: the quota error
    of [setItem] is outside this model. *)
Definition setItem (st : Storage) (k s : string) : Storage := <[k := s]> st.
Definition removeItem (st : Storage) (k : string) : Storage := delete k st.

(** The accessor object is the same text in [src/web/auth.js] (lines 16-23)
    and in both snippets of [src/unnamed/part_001] (lines 2-9 and 63-70). *)
Module Session.
Section Session.
Context `{Platform}.

Definition keyUser : string := "pw_user".
Definition keyToken : string := "pw_token".

(** [get user(){ try{ return JSON.parse(localStorage.getItem(this.keyUser)||'null'); }catch{ return null; } }] *)
Definition user (st : Storage) : completion value :=
  try_catch
    (text ← ToString (js_or (getItem st keyUser) (VStr "null"));
     JSON_parse text)
    (Normal VNull).

(** [get token(){ return localStorage.getItem(this.keyToken); }] *)
Definition token (st : Storage) : completion value :=
  Normal (getItem st keyToken).

(** [isAuthed(){ return !!this.user && !!this.token; }] *)
Definition isAuthed (st : Storage) : completion bool :=
  u ← user st;
  if ToBoolean u then t ← token st; Normal (ToBoolean t)
  else Normal false.

(** [login(u){ localStorage.setItem(this.keyUser, JSON.stringify(u));
               localStorage.setItem(this.keyToken, btoa(`${u.email}:${Date.now()}`)); }]

    [now] is the value of [Date.now()].  The first write has happened
    when the computation of the marker throws, so the store is returned
    next to the completion. *)
Definition login (st : Storage) (u : value) (now : number)
  : Storage * completion unit :=
  let st1 := setItem st keyUser (default "undefined" (JSON_stringify u)) in
  match email ← get_prop u "email";
        text ← ToString email;
        btoa (text +:+ ":" +:+ NumberToString now) with
  | Throw e => (st1, Throw e)
  | Normal marker => (setItem st1 keyToken marker, Normal tt)
  end.

(** [logout(){ localStorage.removeItem(this.keyUser); localStorage.removeItem(this.keyToken); }] *)
Definition logout (st : Storage) : Storage :=
  removeItem (removeItem st keyUser) keyToken.

(** [const email = this.user?.email || 'Account';] followed by its
    interpolation into the markup. *)
Definition account_label (st : Storage) : completion string :=
  u ← user st;
  ToString (js_or (get_prop_opt u "email") (VStr "Account")).
End Session.
End Session.

(* ===================================================================== *)
(** * Navigation renderer *)
(* ===================================================================== *)

(** [navHTML] of [src/web/auth.js], lines 25-44. *)
Module AuthJs.
Section Render.
Context `{Platform}.

Definition nav_authed_head : string := qq "
      <nav class='pw-nav' id='pw-nav'>
        <a href='index.html'>Home</a>
        <a href='/portal/patient/login.html'>Patient Portal</a>
        <a href='/portal/doctor/login.html'>Doctor Portal</a>
        <a href='javascript:void(0)' id='pw-account'>".

Definition nav_authed_tail : string := qq "</a>
        <a href='javascript:void(0)' id='pw-logout'>Logout</a>
      </nav>".

Definition nav_guest : string := qq "
      <nav class='pw-nav' id='pw-nav'>
        <a href='index.html'>Home</a>
        <a href='/portal/patient/login.html'>Patient Portal</a>
        <a href='/portal/doctor/login.html'>Doctor Portal</a>
      </nav>".

Definition navHTML (st : Storage) : completion string :=
  authed ← Session.isAuthed st;
  if authed : bool then
    email ← Session.account_label st;
    Normal (nav_authed_head +:+ email +:+ nav_authed_tail)
  else Normal nav_guest.
End Render.
End AuthJs.

(** [headerHTML] of the script file in [src/unnamed/part_001], lines 71-92. *)
Module HeaderJs.
Section Render.
Context `{Platform}.

Definition header_authed_head : string := qq "
          <nav class='nav'>
            <a href='index.html'>Home</a>
            <a href='eldercare-patient.html'>Patient Portal</a>
            <span class='sep'></span>
            <a href='javascript:void(0)' id='pw-account'>".

Definition header_authed_tail : string := qq "</a>
            <a href='javascript:void(0)' id='pw-logout'>Logout</a>
          </nav>".

Definition header_guest : string := qq "
          <nav class='nav'>
            <a href='index.html'>Home</a>
            <a href='eldercare-patient.html'>Patient Portal</a>
            <span class='sep'></span>
            <a href='login.html'>Login</a>
            <a href='register.html'>Register</a>
          </nav>".

Definition headerHTML (st : Storage) : completion string :=
  authed ← Session.isAuthed st;
  if authed : bool then
    email ← Session.account_label st;
    Normal (header_authed_head +:+ email +:+ header_authed_tail)
  else Normal header_guest.
End Render.
End HeaderJs.

(** [headerHTML] of the inline script in [src/unnamed/part_001], lines 10-31:
    the same markup, indented by two columns less. *)
Module HeaderInline.
Section Render.
Context `{Platform}.

Definition header_authed_head : string := qq "
        <nav class='nav'>
          <a href='index.html'>Home</a>
          <a href='eldercare-patient.html'>Patient Portal</a>
          <span class='sep'></span>
          <a href='javascript:void(0)' id='pw-account'>".

Definition header_authed_tail : string := qq "</a>
          <a href='javascript:void(0)' id='pw-logout'>Logout</a>
        </nav>".

Definition header_guest : string := qq "
        <nav class='nav'>
          <a href='index.html'>Home</a>
          <a href='eldercare-patient.html'>Patient Portal</a>
          <span class='sep'></span>
          <a href='login.html'>Login</a>
          <a href='register.html'>Register</a>
        </nav>".

Definition headerHTML (st : Storage) : completion string :=
  authed ← Session.isAuthed st;
  if authed : bool then
    email ← Session.account_label st;
    Normal (header_authed_head +:+ email +:+ header_authed_tail)
  else Normal header_guest.
End Render.
End HeaderInline.

(* ===================================================================== *)
(** * Selectors and tree operations of the DOM *)
(* ===================================================================== *)

(** First attribute of that name. *)
Fixpoint attr (k : string) (attrs : list (string * string)) : option string :=
  match attrs with
  | [] => None
  | (k', v) :: r => if String.eqb k k' then Some v else attr k r
  end.

Definition is_space (c : ascii) : bool :=
  match c with
  | " "%char | "009"%char | "010"%char | "012"%char | "013"%char => true
  | _ => false
  end.

(** The tokens of a [class] attribute: maximal runs without white space. *)
Fixpoint words_from (cur : string) (s : string) : list string :=
  match s with
  | EmptyString => if String.eqb cur "" then [] else [cur]
  | String c r =>
      if is_space c
      then (if String.eqb cur "" then words_from "" r
            else cur :: words_from "" r)
      else words_from (cur +:+ String c EmptyString) r
  end.

Definition class_list (attrs : list (string * string)) : list string :=
  match attr "class" attrs with
  | Some s => words_from "" s
  | None => []
  end.

(** A compound selector such as [header.header] or [#pw-nav]. *)
Record compound : Type := {
  sel_tag : option string;
  sel_id : option string;
  sel_classes : list string
}.

(** A compound selector preceded by descendant combinators:
    [A B C] is [{| target := C; above := [B; A] |}]. *)
Record selector : Type := {
  target : compound;
  above : list compound
}.

Definition matches_compound (c : compound) (e : shape) : bool :=
  match sel_tag c with Some t => String.eqb t (fst e) | None => true end
  && match sel_id c with
     | Some i => match attr "id" (snd e) with
                 | Some j => String.eqb i j
                 | None => false
                 end
     | None => true
     end
  && forallb (fun k => existsb (String.eqb k) (class_list (snd e)))
             (sel_classes c).

(** The compounds [req] (nearest first) are matched by some chain of
    ancestors, in that order; [ancs] lists the ancestors nearest first. *)
Fixpoint chain_matches (req : list compound) (ancs : list shape) : bool :=
  match req with
  | [] => true
  | c :: req' =>
      (fix go (l : list shape) : bool :=
         match l with
         | [] => false
         | a :: l' => (matches_compound c a && chain_matches req' l') || go l'
         end) ancs
  end.

Definition matches (s : selector) (ancs : list shape) (e : shape) : bool :=
  matches_compound (target s) e && chain_matches (above s) ancs.

(** A node is addressed by the child indices that lead to it from the root. *)
Abbreviation path := (list nat).

(** First hit of [f] in a list of siblings, scanned from index [i]; the
    path found is prefixed with the index of the sibling. *)
Fixpoint first_some {A} (f : A -> option path) (i : nat) (l : list A)
    : option path :=
  match l with
  | [] => None
  | c :: r =>
      match f c with
      | Some p => Some (i :: p)
      | None => first_some f (S i) r
      end
  end.

(** First element, in tree order, that satisfies [P] (given its ancestors,
    nearest first), in a node and its descendants. *)
Fixpoint first_in_node (P : list shape -> shape -> bool) (ancs : list shape)
    (n : node) : option path :=
  match n with
  | Text _ => None
  | Elem t a _ ch =>
      if P ancs (t, a) then Some []
      else first_some (first_in_node P ((t, a) :: ancs)) 0 ch
  end.

(** The same in a list of siblings that have the ancestors [ancs]. *)
Definition first_in_list (P : list shape -> shape -> bool) (ancs : list shape)
    (i : nat) (l : list node) : option path :=
  first_some (first_in_node P ancs) i l.

(** The node at a path, and the shapes of its ancestors (nearest first). *)
Fixpoint node_at (p : path) (n : node) : option node :=
  match p with
  | [] => Some n
  | i :: p' =>
      match n with
      | Elem _ _ _ ch => ch !! i ≫= node_at p'
      | Text _ => None
      end
  end.

Fixpoint ancestors_at (acc : list shape) (p : path) (n : node) : list shape :=
  match p with
  | [] => acc
  | i :: p' =>
      match n with
      | Elem t a _ ch =>
          match ch !! i with
          | Some c => ancestors_at ((t, a) :: acc) p' c
          | None => acc
          end
      | Text _ => acc
      end
  end.

(** Replace the node at a path. *)
Fixpoint update_at (p : path) (f : node -> node) (n : node) : node :=
  match p with
  | [] => f n
  | i :: p' =>
      match n with
      | Elem t a l ch => Elem t a l (alter (update_at p' f) i ch)
      | Text _ => n
      end
  end.

Definition with_children (f : list node -> list node) (n : node) : node :=
  match n with
  | Elem t a l ch => Elem t a l (f ch)
  | Text _ => n
  end.

Definition with_click (h : listener) (n : node) : node :=
  match n with
  | Elem t a l ch => Elem t a (l ++ [h]) ch
  | Text _ => n
  end.

(** [document.querySelector(s)], for the document rooted at [doc]. *)
Definition querySelector (s : selector) (doc : node) : option path :=
  first_in_node (matches s) [] doc.

(** [e.querySelector(s)] for the element [e] at path [host]: the first
    match among the descendants of [e]. *)
Definition element_querySelector (s : selector) (host : path) (doc : node)
  : option path :=
  match node_at host doc with
  | Some e =>
      (fun p => host ++ p) <$>
        first_in_list (matches s) (shape_of e :: ancestors_at [] host doc)
                      0 (children_of e)
  | None => None
  end.

(** [document.getElementById(i)] *)
Definition getElementById (i : string) (doc : node) : option path :=
  first_in_node (fun _ e => match attr "id" (snd e) with
                            | Some j => String.eqb i j
                            | None => false
                            end) [] doc.

(** [document.body]: the first [body] or [frameset] child of the [html]
    root element. *)
Fixpoint index_where (P : node -> bool) (i : nat) (l : list node) : option nat :=
  match l with
  | [] => None
  | c :: r => if P c then Some i else index_where P (S i) r
  end.

Definition is_body (n : node) : bool :=
  match n with
  | Elem t _ _ _ => String.eqb t "body" || String.eqb t "frameset"
  | Text _ => false
  end.

Definition document_body (doc : node) : option path :=
  match doc with
  | Elem t _ _ ch =>
      if String.eqb t "html" then (fun i => [i]) <$> index_where is_body 0 ch
      else None
  | Text _ => None
  end.

Section Mutation.
Context `{Platform}.

(** [e.insertAdjacentHTML('beforeend', html)] for the element at [host]. *)
Definition insertAdjacentHTML_beforeend (host : path) (html : string)
    (doc : node) : node :=
  update_at host
    (fun e => with_children (fun ch => ch ++ parse_fragment (shape_of e) html)
                            e) doc.

(** [e.innerHTML = html] for the element at [host]. *)
Definition set_innerHTML (host : path) (html : string) (doc : node) : node :=
  update_at host
    (fun e => with_children (fun _ => parse_fragment (shape_of e) html) e) doc.
End Mutation.

(** [e.addEventListener('click', h)] for the element at [p]. *)
Definition addEventListener (p : path) (h : listener) (doc : node) : node :=
  update_at p (with_click h) doc.

(** [e.prepend(n)] for the element at [p]. *)
Definition prepend (p : path) (n : node) (doc : node) : node :=
  update_at p (with_children (fun ch => n :: ch)) doc.

(** The selectors the code uses. *)
Definition by_class (c : string) : compound :=
  {| sel_tag := None; sel_id := None; sel_classes := [c] |}.
Definition by_id (i : string) : selector :=
  {| target := {| sel_tag := None; sel_id := Some i; sel_classes := [] |};
     above := [] |}.
Definition header_header : compound :=
  {| sel_tag := Some "header"; sel_id := None; sel_classes := ["header"] |}.

(** ['.header .header-inner'] *)
Definition sel_header_inner : selector :=
  {| target := by_class "header-inner"; above := [by_class "header"] |}.
(** ['header.header .header-inner'] *)
Definition sel_header_header_inner : selector :=
  {| target := by_class "header-inner"; above := [header_header] |}.
(** ['header.header'] *)
Definition sel_header : selector :=
  {| target := header_header; above := [] |}.

(* ===================================================================== *)
(** * Page mount controller *)
(* ===================================================================== *)

(** What a page load can observe and change: the credential store, the
    document, and the last value assigned to [location.href]. *)
Record world : Type := {
  storage : Storage;
  document : node;
  location_href : string
}.

Definition with_document (doc : node) (w : world) : world :=
  {| storage := storage w; document := doc; location_href := location_href w |}.

(** [document.createElement('header')] with [className = 'header']. *)
Definition new_header : node := Elem "header" [("class", "header")] [] [].

Section Mount.
Context `{Platform}.

(** Running a registered listener: [this.logout(); location.href = target]. *)
Definition run_listener (h : listener) (w : world) : world :=
  match h with
  | LogoutThenGoto target =>
      {| storage := Session.logout (storage w);
         document := document w;
         location_href := target |}
  end.

(** A click on the element at [p] runs its listeners in registration order. *)
Definition click (p : path) (w : world) : world :=
  match node_at p (document w) with
  | Some (Elem _ _ ls _) => fold_left (fun w' h => run_listener h w') ls w
  | _ => w
  end.

(** [if (lo) lo.addEventListener('click', () => { this.logout(); location.href = 'login.html'; })] *)
Definition wire_logout (lo : option path) (doc : node) : node :=
  match lo with
  | Some p => addEventListener p (LogoutThenGoto "login.html") doc
  | None => doc
  end.
End Mount.

(** [mountNav] of [src/web/auth.js], lines 46-64. *)
Module AuthJsMount.
Section Mount.
Context `{Platform}.

(** The three candidates for the host, first match wins (lines 49-52). *)
Definition find_host (doc : node) : option path :=
  match querySelector sel_header_inner doc with
  | Some p => Some p
  | None =>
      match querySelector sel_header_header_inner doc with
      | Some p => Some p
      | None => querySelector sel_header doc
      end
  end.

(** The markup is computed before [insertAdjacentHTML] is called, so a
    call that throws has changed nothing. *)
Definition mountNav (w : world) : completion world :=
  match find_host (document w) with
  | None => Normal w
  | Some host =>
      match element_querySelector (by_id "pw-nav") host (document w) with
      | Some _ => Normal w
      | None =>
          html ← AuthJs.navHTML (storage w);
          let doc1 := insertAdjacentHTML_beforeend host html (document w) in
          let lo := element_querySelector (by_id "pw-logout") host doc1 in
          Normal (with_document (wire_logout lo doc1) w)
      end
  end.
End Mount.
End AuthJsMount.

(** [mountHeader] of the script file in [src/unnamed/part_001],
    lines 93-103. *)
Module HeaderJsMount.
Section Mount.
Context `{Platform}.

(** Lines 94-99: the host, created and inserted when the page has none.
    On a page without body [document.body] is [null] and the call of
    [prepend] throws, with nothing inserted. *)
Definition ensure_host (doc : node) : completion (path * node) :=
  match querySelector sel_header doc with
  | Some p => Normal (p, doc)
  | None =>
      match document_body doc with
      | None => Throw TypeError
      | Some b => Normal (b ++ [0], prepend b new_header doc)
      end
  end.

(** The call as a sequence of effects: the world it leaves behind and how
    it ended.  A header inserted by line 98 stays in the document when
    [headerHTML] throws in line 100. *)
Definition mountHeader_steps (w : world) : world * completion unit :=
  match ensure_host (document w) with
  | Throw e => (w, Throw e)
  | Normal (host, doc0) =>
      match HeaderJs.headerHTML (storage w) with
      | Throw e => (with_document doc0 w, Throw e)
      | Normal html =>
          let doc1 := set_innerHTML host html doc0 in
          let lo := getElementById "pw-logout" doc1 in
          (with_document (wire_logout lo doc1) w, Normal tt)
      end
  end.

(** The world after a call that returns. *)
Definition mountHeader (w : world) : completion world :=
  match mountHeader_steps w with
  | (w', Normal _) => Normal w'
  | (_, Throw e) => Throw e
  end.
End Mount.
End HeaderJsMount.

(** [mountHeader] of the inline script in [src/unnamed/part_001],
    lines 32-39.  [body.prepend(...)] returns [undefined], so when no
    [header.header] exists the fresh element is inserted and [host] is not
    an element.  The markup is computed before the assignment to
    [innerHTML], so a call that throws has changed nothing. *)
Module HeaderInlineMount.
Section Mount.
Context `{Platform}.

Definition mountHeader (w : world) : completion world :=
  located ←
    match querySelector sel_header (document w) with
    | Some p => Normal (Some p, document w)
    | None =>
        match document_body (document w) with
        | None => Throw TypeError
        | Some b => Normal (None, prepend b new_header (document w))
        end
    end;
  let '(host, doc0) := located in
  match host with
  | Some p =>
      (* [host instanceof HTMLElement]: an element of the tree *)
      html ← HeaderInline.headerHTML (storage w);
      let doc1 := set_innerHTML p html doc0 in
      let lo := getElementById "pw-logout" doc1 in
      Normal (with_document (wire_logout lo doc1) w)
  | None =>
      (* [undefined] is no [HTMLElement] *)
      Normal (with_document doc0 w)
  end.
End Mount.
End HeaderInlineMount.

(* ===================================================================== *)
(** * Risk badge *)
(* ===================================================================== *)

(** The badge part of the risk form's submit handler,
    [src/unnamed/part_000], lines 70-88. *)
Module RiskForm.
Section Badge.
Context `{Platform}.

(** The badge element, as far as the handler touches it. *)
Record badge : Type := {
  classList : list string;
  textContent : string
}.

(** [classList.remove(...names)] and [classList.add(name)]. *)
Definition classList_remove (names cl : list string) : list string :=
  List.filter (fun c => negb (existsb (String.eqb c) names)) cl.
Definition classList_add (name : string) (cl : list string) : list string :=
  if existsb (String.eqb name) cl then cl else cl ++ [name].

(** [const score = Number(j?.risk_score ?? 0);] *)
Definition score_of (j : value) : completion number :=
  ToNumber (js_nullish (get_prop_opt j "risk_score") (VNum (num 0))).

(** Lines 75-84: label and class start as Low / low and are overwritten
    by the first band whose test succeeds. *)
Definition band (score : number) : string * string :=
  if num_le (num 6) score && num_le score (num 15)
  then ("Moderate", "moderate")
  else if num_lt (num 15) score
  then ("High", "high")
  else ("Low", "low").

(** The label of a response whose score converts. *)
Definition label_of (j : value) : completion string :=
  score ← score_of j; Normal (fst (band score)).

(** Lines 72-87 for the badge element: the badge they leave behind and how
    they ended.  The band classes are removed first; when the conversion
    of the score throws, text and band class are not set. *)
Definition show_badge (j : value) (b : badge) : badge * completion unit :=
  let cleared := classList_remove ["low"; "moderate"; "high"] (classList b) in
  match score_of j with
  | Throw e => ({| classList := cleared; textContent := textContent b |},
                Throw e)
  | Normal score =>
      let '(label, cls) := band score in
      ({| classList := classList_add cls cleared;
          textContent := "Risk Level: " +:+ label +:+ " (score "
                         +:+ NumberToString score +:+ ")" |},
       Normal tt)
  end.
End Badge.
End RiskForm.

(* ===================================================================== *)
(** * Script loading *)
(* ===================================================================== *)

(** [document.readyState] *)
Inductive readyState : Type :=
  | Loading
  | Interactive
  | Complete.

(** The object that [window.PW_AUTH] refers to: each of the three scripts
    assigns its own. *)
Inductive auth_object : Type :=
  | AuthOfAuthJs     (* has mountNav, no mountHeader *)
  | AuthOfHeaderJs   (* has mountHeader *)
  | AuthOfInline.    (* has mountHeader *)

(** The closures registered for [DOMContentLoaded]:
    [() => AUTH.mountNav()] and [() => AUTH.mountHeader()] call the object
    of their own script; the inline script's [()=> PW_AUTH.mountHeader()]
    looks [PW_AUTH] up when it runs. *)
Inductive callback : Type :=
  | CallMountNav
  | CallMountHeader
  | CallGlobalMountHeader.

(** A page while its scripts run. *)
Record page : Type := {
  ready_state : readyState;
  PW_AUTH : option auth_object;
  on_DOMContentLoaded : list callback;
  view : world
}.

Definition is_head (n : node) : bool :=
  match n with
  | Elem t _ _ _ => String.eqb t "head"
  | Text _ => false
  end.

(** [document.head]: the first [head] child of the [html] root element. *)
Definition document_head (doc : node) : option path :=
  match doc with
  | Elem t _ _ ch =>
      if String.eqb t "html" then (fun i => [i]) <$> index_where is_head 0 ch
      else None
  | Text _ => None
  end.

(** [e.appendChild(n)] for the element at [p]. *)
Definition appendChild (p : path) (n : node) (doc : node) : node :=
  update_at p (with_children (fun ch => ch ++ [n])) doc.

(** [const s = document.createElement('style'); s.textContent = css;] *)
Definition style_element (css : string) : node :=
  Elem "style" [] [] [Text css].

(** [document.head.appendChild(s)] on the document of a world; [None]
    when there is no head (the call throws). *)
Definition inject_style (css : string) (w : world) : option world :=
  match document_head (document w) with
  | Some h =>
      Some (with_document (appendChild h (style_element css) (document w)) w)
  | None => None
  end.

Section Scripts.
Context `{Platform}.

(** A mount operation that changes nothing before it throws, as a sequence
    of effects: the world it leaves behind and how it ended. *)
Definition steps_of (mount : world -> completion world) (w : world)
    : world * completion unit :=
  match mount w with
  | Normal w' => (w', Normal tt)
  | Throw e => (w, Throw e)
  end.

(** Running a registered closure; [PW_AUTH.mountHeader()] throws when
    [PW_AUTH] is missing or has no such method. *)
Definition call (c : callback) (global : option auth_object) (w : world)
    : world * completion unit :=
  match c with
  | CallMountNav => steps_of AuthJsMount.mountNav w
  | CallMountHeader => HeaderJsMount.mountHeader_steps w
  | CallGlobalMountHeader =>
      match global with
      | Some AuthOfHeaderJs => HeaderJsMount.mountHeader_steps w
      | Some AuthOfInline => steps_of HeaderInlineMount.mountHeader w
      | Some AuthOfAuthJs | None => (w, Throw TypeError)
      end
  end.

(** A listener that throws is reported and the dispatch goes on with the
    next one, in the world that the listener has left. *)
Definition dispatch (global : option auth_object) (w : world) (c : callback)
    : world :=
  fst (call c global w).

(** The end of parsing: [readyState] leaves [loading] and
    [DOMContentLoaded] is dispatched, once. *)
Definition DOMContentLoaded (p : page) : page :=
  match ready_state p with
  | Loading =>
      {| ready_state := Interactive;
         PW_AUTH := PW_AUTH p;
         on_DOMContentLoaded := on_DOMContentLoaded p;
         view := fold_left (dispatch (PW_AUTH p)) (on_DOMContentLoaded p)
                           (view p) |}
  | _ => p
  end.

(** The tail of both script files:
    [window.PW_AUTH = AUTH;
     if (document.readyState === 'loading') {
       document.addEventListener('DOMContentLoaded', () => AUTH.mount());
     } else { AUTH.mount(); }] *)
Definition expose_and_schedule (own : auth_object) (c : callback)
    (mount : world -> world * completion unit) (p : page) (w : world)
    : page * completion unit :=
  match ready_state p with
  | Loading =>
      ({| ready_state := Loading;
          PW_AUTH := Some own;
          on_DOMContentLoaded := on_DOMContentLoaded p ++ [c];
          view := w |}, Normal tt)
  | rs =>
      let '(w', r) := mount w in
      ({| ready_state := rs; PW_AUTH := Some own;
          on_DOMContentLoaded := on_DOMContentLoaded p; view := w' |}, r)
  end.
End Scripts.

(** The script [src/web/auth.js], lines 3-76. *)
Module AuthJsScript.
Section Script.
Context `{Platform}.

Definition CSS : string := "
    .pw-nav{ margin-left:auto; display:flex; gap:16px; align-items:center; }
    .pw-nav a{ color:#111; text-decoration:none; font-weight:600; }
    .pw-nav a:hover{ text-decoration:underline; }
    @media (max-width: 640px){ .pw-nav{ gap:10px; } }
  ".

Definition run (p : page) : page * completion unit :=
  match inject_style CSS (view p) with
  | None => (p, Throw TypeError)
  | Some w => expose_and_schedule AuthOfAuthJs CallMountNav
                (steps_of AuthJsMount.mountNav) p w
  end.
End Script.
End AuthJsScript.

(** The script file in [src/unnamed/part_001], lines 50-112. *)
Module HeaderJsScript.
Section Script.
Context `{Platform}.

Definition CSS : string := "
  .header{display:flex;justify-content:center;border-bottom:1px solid #eee;background:#fff}
  .header .nav{display:flex;gap:14px;padding:12px 16px;align-items:center}
  .header a{color:#111;text-decoration:none;font-weight:600}
  .header .sep{flex:1}
  ".

Definition run (p : page) : page * completion unit :=
  match inject_style CSS (view p) with
  | None => (p, Throw TypeError)
  | Some w => expose_and_schedule AuthOfHeaderJs CallMountHeader
                HeaderJsMount.mountHeader_steps p w
  end.
End Script.
End HeaderJsScript.

(** The inline script in [src/unnamed/part_001], lines 1-43: it assigns
    [window.PW_AUTH] and registers its listener whatever the ready state. *)
Module HeaderInlineScript.

Definition run (p : page) : page * completion unit :=
  ({| ready_state := ready_state p;
      PW_AUTH := Some AuthOfInline;
      on_DOMContentLoaded := on_DOMContentLoaded p ++ [CallGlobalMountHeader];
      view := view p |}, Normal tt).

End HeaderInlineScript.

(* ===================================================================== *)
(** * Risk form: request and response *)
(* ===================================================================== *)

(** The submit handler of the risk form, [src/unnamed/part_000],
    lines 28-92, around the badge. *)
Module RiskSubmit.

(** The text entries of the form, in document order. *)
Abbreviation form_data := (list (string * string)).

(** [fd.get(name)]: the first entry of that name, or [null]. *)
Definition fd_get (fd : form_data) (name : string) : value :=
  match attr name fd with
  | Some s => VStr s
  | None => VNull
  end.

(** The output area and the badge; [None] when the page has no such
    element. *)
Record risk_ui : Type := {
  riskOut : option string;
  riskBadge : option RiskForm.badge
}.

(** How the request ended: the parsed body, or the text of the rejection
    (of [fetch], or of [r.json()]). *)
Inductive response : Type :=
  | Resolved (j : value)
  | Rejected (reason : string).

(** [$("#riskOut").textContent = s]; throws when the element is missing. *)
Definition set_riskOut (s : string) (ui : risk_ui) : completion risk_ui :=
  match riskOut ui with
  | Some _ => Normal {| riskOut := Some s; riskBadge := riskBadge ui |}
  | None => Throw TypeError
  end.

Section Handler.
Context `{Platform}.
(** [JSON.stringify(j, null, 2)] and the text of a caught exception. *)
Variable JSON_pretty : value -> string.
Variable error_text : exn -> string.

(** Lines 35-55. *)
Definition payload (fd : form_data) : completion value :=
  let number name := ToNumber (fd_get fd name) in
  let text name := ToString (fd_get fd name) in
  age ← number "age";
  sex ← text "sex";
  heart_rate ← number "heart_rate";
  blood_pressure_sys ← number "blood_pressure_sys";
  respiration_rate ← number "respiration_rate";
  oxygen_saturation ← number "oxygen_saturation";
  gait_speed ← number "gait_speed";
  step_variability ← number "step_variability";
  hrv ← number "hrv";
  sleep_hours ← number "sleep_hours";
  recent_fall ← text "recent_fall";
  mobility_aid ← text "mobility_aid";
  cognitive_score ← number "cognitive_score";
  balance_test ← number "balance_test";
  medication_count ← number "medication_count";
  Normal
    (VObj [("age", VNum age);
           ("sex", VStr sex);
           ("heart_rate", VNum heart_rate);
           ("blood_pressure_sys", VNum blood_pressure_sys);
           ("respiration_rate", VNum respiration_rate);
           ("oxygen_saturation", VNum oxygen_saturation);
           ("gait_speed", VNum gait_speed);
           ("step_variability", VNum step_variability);
           ("hrv", VNum hrv);
           ("sleep_hours", VNum sleep_hours);
           ("recent_fall", VBool (String.eqb recent_fall "true"));
           ("mobility_aid", VStr mobility_aid);
           ("cognitive_score", VNum cognitive_score);
           ("balance_test", VNum balance_test);
           ("medication_count", VNum medication_count)]).

(** Line 57, before the request is sent. *)
Definition begin_submit (ui : risk_ui) : completion risk_ui :=
  set_riskOut "Computing…" ui.

(** Line 90, the [catch] branch: the page it leaves and how it ended. *)
Definition on_error (e_text : string) (ui : risk_ui)
    : risk_ui * completion unit :=
  match set_riskOut ("Error: " +:+ e_text) ui with
  | Normal ui' => (ui', Normal tt)
  | Throw e => (ui, Throw e)
  end.

(** Lines 59-91, once the request has ended: the page they leave and how
    they ended.  What the [try] block has done to the page stays when it
    throws. *)
Definition on_response (r : response) (ui : risk_ui)
    : risk_ui * completion unit :=
  match r with
  | Resolved j =>
      match set_riskOut (JSON_pretty j) ui with
      | Throw e => on_error (error_text e) ui
      | Normal ui1 =>
          match riskBadge ui1 with
          | None => (ui1, Normal tt)
          | Some b =>
              let '(b', r) := RiskForm.show_badge j b in
              let ui2 := {| riskOut := riskOut ui1; riskBadge := Some b' |} in
              match r with
              | Normal _ => (ui2, Normal tt)
              | Throw e => on_error (error_text e) ui2
              end
          end
      end
  | Rejected reason => on_error reason ui
  end.
End Handler.

End RiskSubmit.

(* ===================================================================== *)
(** * An executable instance of the built-ins *)
(* ===================================================================== *)

(** A small implementation of the [Platform] interface, used to evaluate
    the embedding on concrete stores and documents.  It covers a fragment
    of each built-in: JSON over [null], booleans, integers, strings, arrays
    and objects; base64 of 8-bit strings; integers and terminating decimal
    fractions; markup made of start tags with quoted attributes, end tags
    and text. *)
Module Ref.

Definition is_digit (c : ascii) : bool :=
  (48 <=? nat_of_ascii c)%nat && (nat_of_ascii c <=? 57)%nat.

Fixpoint span (p : ascii -> bool) (s : string) : string * string :=
  match s with
  | EmptyString => ("", "")
  | String c r =>
      if p c then let '(a, b) := span p r in (String c a, b)
      else ("", s)
  end.

Fixpoint skip_ws (s : string) : string :=
  match s with
  | String c r => if is_space c then skip_ws r else s
  | EmptyString => s
  end.

Definition tail (s : string) : string :=
  match s with
  | String _ r => r
  | EmptyString => s
  end.

(** ** Numbers *)

Fixpoint digits_value (acc : Z) (s : string) : Z :=
  match s with
  | EmptyString => acc
  | String c r => digits_value (10 * acc + Z.of_nat (nat_of_ascii c - 48)) r
  end.

Definition digit_string (z : Z) : string :=
  String (ascii_of_nat (48 + Z.to_nat z)) EmptyString.

Fixpoint nat_string (fuel : nat) (z : Z) : string :=
  match fuel with
  | O => ""
  | S f =>
      if (z <? 10)%Z then digit_string z
      else nat_string f (z / 10) +:+ digit_string (z mod 10)
  end.

Definition decimal (z : Z) : string :=
  if (z <? 0)%Z then "-" +:+ nat_string (S (Z.to_nat (Z.log2 (- z)))) (- z)
  else nat_string (S (Z.to_nat (Z.log2 z))) z.

Fixpoint fraction_digits (fuel : nat) (r d : Z) : string :=
  match fuel with
  | O => ""
  | S f =>
      if (r =? 0)%Z then ""
      else digit_string (10 * r / d) +:+ fraction_digits f ((10 * r) mod d) d
  end.

Definition number_to_string (n : number) : string :=
  match n with
  | NaN => "NaN"
  | PosInf => "Infinity"
  | NegInf => "-Infinity"
  | Fin q =>
      let d := Z.pos (Qden q) in
      let a := Z.abs (Qnum q) in
      let whole := (if (Qnum q <? 0)%Z then "-" else "") +:+ decimal (a / d) in
      if (a mod d =? 0)%Z then whole
      else whole +:+ "." +:+ fraction_digits 20 (a mod d) d
  end.

Definition string_to_number (s : string) : number :=
  let s := skip_ws s in
  let '(neg, s) := match s with
                   | String "-"%char r => (true, r)
                   | _ => (false, s)
                   end in
  let '(ds, rest) := span is_digit s in
  if String.eqb (skip_ws rest) "" then
    if String.eqb ds "" then (if neg then NaN else num 0)
    else num (if neg then - digits_value 0 ds else digits_value 0 ds)
  else NaN.

(** ** JSON *)

Definition escape_char (c : ascii) : string :=
  if Ascii.eqb c dquote then String "\"%char (String dquote EmptyString)
  else if Ascii.eqb c "\"%char then "\\"
  else if Ascii.eqb c "010"%char then "\n"
  else if Ascii.eqb c "013"%char then "\r"
  else if Ascii.eqb c "009"%char then "\t"
  else String c EmptyString.

Fixpoint escape (s : string) : string :=
  match s with
  | EmptyString => EmptyString
  | String c r => escape_char c +:+ escape r
  end.

Definition quoted (s : string) : string :=
  String dquote (escape s) +:+ String dquote EmptyString.

Fixpoint stringify (v : value) : string :=
  match v with
  | VUndefined | VNull => "null"
  | VBool true => "true"
  | VBool false => "false"
  | VNum (Fin q) =>
      if (Z.pos (Qden q) =? 1)%Z then decimal (Qnum q)
      else number_to_string (Fin q)
  | VNum _ => "null"
  | VStr s => quoted s
  | VArr xs => "[" +:+ join "," (List.map stringify xs) +:+ "]"
  | VObj fs =>
      "{" +:+ join ","
                ((fix members (l : list (string * value)) : list string :=
                    match l with
                    | [] => []
                    | (_, VUndefined) :: r => members r
                    | (k, x) :: r =>
                        (quoted k +:+ ":" +:+ stringify x) :: members r
                    end) fs)
      +:+ "}"
  end.

Definition json_stringify (v : value) : option string :=
  match v with
  | VUndefined => None
  | _ => Some (stringify v)
  end.

(** After the opening quote: the decoded text and what follows the closing
    quote. *)
Fixpoint string_body (s : string) : option (string * string) :=
  match s with
  | EmptyString => None
  | String c r =>
      if Ascii.eqb c dquote then Some ("", r)
      else if Ascii.eqb c "\"%char then
        match r with
        | String e r' =>
            let decoded :=
              if Ascii.eqb e "n"%char then Some "010"%char
              else if Ascii.eqb e "r"%char then Some "013"%char
              else if Ascii.eqb e "t"%char then Some "009"%char
              else if Ascii.eqb e dquote || Ascii.eqb e "\"%char
                      || Ascii.eqb e "/"%char then Some e
              else None in
            match decoded, string_body r' with
            | Some d, Some (body, rest) => Some (String d body, rest)
            | _, _ => None
            end
        | EmptyString => None
        end
      else if (nat_of_ascii c <? 32)%nat then None
      else match string_body r with
           | Some (body, rest) => Some (String c body, rest)
           | None => None
           end
  end.

Definition strip_prefix (p s : string) : option string :=
  if String.prefix p s then Some (String.substring (String.length p)
                                    (String.length s - String.length p) s)
  else None.

(** One JSON value, then the unread rest.  [fuel] bounds the nesting and
    the number of elements. *)
Fixpoint value_from (fuel : nat) (s : string) : option (value * string) :=
  match fuel with
  | O => None
  | S f =>
      let s := skip_ws s in
      match s with
      | EmptyString => None
      | String c r =>
          if Ascii.eqb c dquote then
            match string_body r with
            | Some (body, rest) => Some (VStr body, rest)
            | None => None
            end
          else if Ascii.eqb c "["%char then
            match skip_ws r with
            | String "]"%char rest => Some (VArr [], rest)
            | _ => match elements_from f r with
                   | Some (xs, rest) => Some (VArr xs, rest)
                   | None => None
                   end
            end
          else if Ascii.eqb c "{"%char then
            match skip_ws r with
            | String "}"%char rest => Some (VObj [], rest)
            | _ => match members_from f r with
                   | Some (fs, rest) => Some (VObj fs, rest)
                   | None => None
                   end
            end
          else if Ascii.eqb c "-"%char then
            let '(ds, rest) := span is_digit r in
            if String.eqb ds "" then None
            else Some (VNum (num (- digits_value 0 ds)), rest)
          else if is_digit c then
            let '(ds, rest) := span is_digit s in
            Some (VNum (num (digits_value 0 ds)), rest)
          else match strip_prefix "null" s with
               | Some rest => Some (VNull, rest)
               | None =>
                   match strip_prefix "true" s with
                   | Some rest => Some (VBool true, rest)
                   | None =>
                       match strip_prefix "false" s with
                       | Some rest => Some (VBool false, rest)
                       | None => None
                       end
                   end
               end
      end
  end
with elements_from (fuel : nat) (s : string) : option (list value * string) :=
  match fuel with
  | O => None
  | S f =>
      match value_from f s with
      | Some (v, rest) =>
          match skip_ws rest with
          | String ","%char rest' =>
              match elements_from f rest' with
              | Some (vs, rest'') => Some (v :: vs, rest'')
              | None => None
              end
          | String "]"%char rest' => Some ([v], rest')
          | _ => None
          end
      | None => None
      end
  end
with members_from (fuel : nat) (s : string)
    : option (list (string * value) * string) :=
  match fuel with
  | O => None
  | S f =>
      match skip_ws s with
      | String c r =>
          if Ascii.eqb c dquote then
            match string_body r with
            | Some (k, rest) =>
                match skip_ws rest with
                | String ":"%char rest1 =>
                    match value_from f rest1 with
                    | Some (v, rest2) =>
                        match skip_ws rest2 with
                        | String ","%char rest3 =>
                            match members_from f rest3 with
                            | Some (fs, rest4) => Some ((k, v) :: fs, rest4)
                            | None => None
                            end
                        | String "}"%char rest3 => Some ([(k, v)], rest3)
                        | _ => None
                        end
                    | None => None
                    end
                | _ => None
                end
            | None => None
            end
          else None
      | EmptyString => None
      end
  end.

Definition json_parse (s : string) : completion value :=
  match value_from (S (String.length s)) s with
  | Some (v, rest) =>
      if String.eqb (skip_ws rest) "" then Normal v else Throw SyntaxError
  | None => Throw SyntaxError
  end.

(** ** Base64 *)

Definition b64_alphabet : string :=
  "ABCDEFGHIJKLMNOPQRSTUVWXYZabcdefghijklmnopqrstuvwxyz0123456789+/".

Definition b64_char (n : nat) : ascii :=
  match String.get n b64_alphabet with
  | Some c => c
  | None => "="%char
  end.

Fixpoint base64 (s : string) : string :=
  match s with
  | EmptyString => EmptyString
  | String a EmptyString =>
      let x := nat_of_ascii a in
      String (b64_char (x / 4))
        (String (b64_char (x mod 4 * 16)) "==")
  | String a (String b EmptyString) =>
      let x := nat_of_ascii a in
      let y := nat_of_ascii b in
      String (b64_char (x / 4))
        (String (b64_char (x mod 4 * 16 + y / 16))
           (String (b64_char (y mod 16 * 4)) "="))
  | String a (String b (String c r)) =>
      let x := nat_of_ascii a in
      let y := nat_of_ascii b in
      let z := nat_of_ascii c in
      String (b64_char (x / 4))
        (String (b64_char (x mod 4 * 16 + y / 16))
           (String (b64_char (y mod 16 * 4 + z / 64))
              (String (b64_char (z mod 64)) (base64 r))))
  end.

(** ** Markup *)

Inductive token : Type :=
  | TOpen (tag : string) (attrs : list (string * string))
  | TClose (tag : string)
  | TChars (data : string).

Definition is_name_char (c : ascii) : bool :=
  negb (is_space c || Ascii.eqb c ">"%char || Ascii.eqb c "="%char
        || Ascii.eqb c "/"%char).

(** The attributes of a start tag, up to and including its [>]. *)
Fixpoint attributes (fuel : nat) (s : string)
    : list (string * string) * string :=
  match fuel with
  | O => ([], "")
  | S f =>
      match skip_ws s with
      | EmptyString => ([], "")
      | String c r =>
          if Ascii.eqb c ">"%char then ([], r)
          else if Ascii.eqb c "/"%char then attributes f r
          else
            let '(name, rest) := span is_name_char (String c r) in
            match rest with
            | String "="%char (String q rest1) =>
                if Ascii.eqb q dquote then
                  let '(v, rest2) := span (fun x => negb (Ascii.eqb x dquote))
                                          rest1 in
                  let '(more, rest3) := attributes f (tail rest2) in
                  ((name, v) :: more, rest3)
                else
                  let '(v, rest2) :=
                    span (fun x => negb (is_space x || Ascii.eqb x ">"%char))
                         (String q rest1) in
                  let '(more, rest3) := attributes f rest2 in
                  ((name, v) :: more, rest3)
            | _ =>
                let '(more, rest1) := attributes f rest in
                ((name, "") :: more, rest1)
            end
      end
  end.

Fixpoint tokens (fuel : nat) (s : string) : list token :=
  match fuel with
  | O => []
  | S f =>
      match s with
      | EmptyString => []
      | String "<"%char (String "/"%char r) =>
          let '(name, rest) := span (fun x => negb (Ascii.eqb x ">"%char)) r in
          TClose name :: tokens f (tail rest)
      | String "<"%char r =>
          let '(name, rest) := span is_name_char r in
          let '(ats, rest1) := attributes (String.length rest) rest in
          TOpen name ats :: tokens f rest1
      | _ =>
          let '(txt, rest) := span (fun x => negb (Ascii.eqb x "<"%char)) s in
          TChars txt :: tokens f rest
      end
  end.

(** The open elements, innermost first, each with the siblings that
    precede it (in reverse). *)
Definition frame : Type := string * list (string * string) * list node.

Fixpoint close_all (stack : list frame) (done : list node) : list node :=
  match stack with
  | [] => rev done
  | (t, a, before) :: r => close_all r (Elem t a [] (rev done) :: before)
  end.

Fixpoint build (toks : list token) (stack : list frame) (done : list node)
    : list node :=
  match toks with
  | [] => close_all stack done
  | TChars s :: r => build r stack (Text s :: done)
  | TOpen t a :: r => build r ((t, a, done) :: stack) []
  | TClose _ :: r =>
      match stack with
      | [] => build r [] done
      | (t, a, before) :: st => build r st (Elem t a [] (rev done) :: before)
      end
  end.

Definition fragment (context : shape) (html : string) : list node :=
  build (tokens (S (String.length html)) html) [] [].

#[local] Instance platform : Platform := {|
  JSON_parse := json_parse;
  JSON_stringify := json_stringify;
  btoa := fun s => Normal (base64 s);
  NumberToString := number_to_string;
  StringToNumber := string_to_number;
  parse_fragment := fragment
|}.

End Ref.


(* ===================================================================== *)
(** * Vocabulary of the statements *)
(* ===================================================================== *)

(** What the statements assume of the built-ins: the text [null] is the
    JSON of [null], the empty text is not JSON, and the base64 of a
    non-empty string is not empty. *)
Class PlatformLaws `{Platform} : Prop := {
  JSON_parse_null : JSON_parse "null" = Normal VNull;
  JSON_parse_empty : JSON_parse "" = Throw SyntaxError;
  btoa_nonempty : forall s t, btoa s = Normal t -> s <> "" -> t <> ""
}.

(** [needle] occurs in [hay]. *)
Definition Contains (needle hay : string) : Prop :=
  exists pre post, hay = pre +:+ needle +:+ post.

Fixpoint containsb (needle hay : string) : bool :=
  String.prefix needle hay
  || match hay with
     | EmptyString => false
     | String _ r => containsb needle r
     end.

(** The document without its listeners: tags, attributes, text, nesting. *)
Fixpoint erase_clicks (n : node) : node :=
  match n with
  | Text s => Text s
  | Elem t a _ ch => Elem t a [] (List.map erase_clicks ch)
  end.

(** Number of elements matching a compound selector in a node and its
    descendants, and in a list of siblings. *)
Fixpoint count_in_node (c : compound) (n : node) : nat :=
  match n with
  | Text _ => 0
  | Elem t a _ ch =>
      (if matches_compound c (t, a) then 1 else 0)
      + list_sum (List.map (count_in_node c) ch)
  end.

Definition count_in_list (c : compound) (l : list node) : nat :=
  list_sum (List.map (count_in_node c) l).

(** The navigation marker [#pw-nav] and the logout control [#pw-logout]. *)
Definition marker : compound := target (by_id "pw-nav").
Definition logout_control : compound := target (by_id "pw-logout").

(** The links and controls the renderer emits. *)
Definition home_link : string := qq "<a href='index.html'>Home</a>".
Definition account_open : string := qq "<a href='javascript:void(0)' id='pw-account'>".
Definition logout_link : string := qq "<a href='javascript:void(0)' id='pw-logout'>Logout</a>".

(** Stores, identities and pages on which the statements are evaluated. *)
Module Sample.

Definition alice : value :=
  VObj [("email", VStr "alice@example.org"); ("age", VNum (num 70))].

(** An identity whose email does not convert to text. *)
Definition unconvertible : value :=
  VObj [("email", VObj [("toString", VNum (num 1))])].

(** The store after a login of [alice]. *)
Definition signed_in : Storage :=
  {[ "pw_user" := qq "{'email':'alice@example.org','age':70}";
     "pw_token" := "YWxpY2VAZXhhbXBsZS5vcmc6MTcwMDAwMDAwMDAwMA==" ]}.

(** Only one of the two entries. *)
Definition only_user : Storage :=
  {[ "pw_user" := qq "{'email':'alice@example.org','age':70}" ]}.
Definition only_token : Storage :=
  {[ "pw_token" := "YWxpY2VAZXhhbXBsZS5vcmc6MTcwMDAwMDAwMDAwMA==" ]}.

(** Both entries, with an empty marker. *)
Definition empty_marker : Storage :=
  {[ "pw_user" := qq "{'email':'alice@example.org','age':70}";
     "pw_token" := "" ]}.

(** A damaged identity record. *)
Definition corrupt : Storage :=
  {[ "pw_user" := "{oops"; "pw_token" := "abc" ]}.

(** An identity whose email is a record with an own [toString]. *)
Definition object_email : Storage :=
  {[ "pw_user" := qq "{'email':{'toString':1}}"; "pw_token" := "abc" ]}.

(** An identity whose email is markup. *)
Definition markup_email : Storage :=
  {[ "pw_user" := qq "{'email':'<b class=\'header-inner\'></b>'}";
     "pw_token" := "abc" ]}.

Definition logo : node := Elem "img" [("class", "logo"); ("src", "logo.png")] [] [].

Definition page_of (body : list node) : node :=
  Elem "html" [] [] [Elem "head" [] [] []; Elem "body" [] [] body].

(** A page with the site header and its inner wrapper. *)
Definition site_page : node :=
  page_of [Elem "header" [("class", "header")] []
             [Elem "div" [("class", "header-inner glass")] [] [logo]];
           Elem "main" [] [] [Text "Welcome"]].

(** A page whose header has no inner wrapper. *)
Definition plain_header_page : node :=
  page_of [Elem "header" [("class", "header")] [] [logo];
           Elem "main" [] [] [Text "Welcome"]].

(** A page without any header. *)
Definition bare_page : node := page_of [Elem "main" [] [] [Text "Welcome"]].

Definition load (st : Storage) (doc : node) : world :=
  {| storage := st; document := doc; location_href := "index.html" |}.

(** The document that a page load leaves behind. *)
Definition after (mount : world -> completion world) (w : world) : node :=
  match mount w with
  | Normal w' => document w'
  | Throw _ => document w
  end.

(** A header page on which [mountHeader] ran while [alice] was signed in. *)
Definition header_mounted_page : node :=
  after (@HeaderJsMount.mountHeader Ref.platform)
        (load signed_in plain_header_page).

End Sample.



(** A computation that completes normally. *)
Definition completes {A : Type} (c : completion A) : Prop :=
  exists a, c = Normal a.


(** The claims about [isAuthed], in the words of the specification:
    present means that the store has an entry under the key. *)
Definition identity_present (st : Storage) : Prop :=
  is_Some (st !! Session.keyUser).
Definition marker_present (st : Storage) : Prop :=
  is_Some (st !! Session.keyToken).
Definition exactly_one_present (st : Storage) : Prop :=
  (identity_present st /\ ~ marker_present st)
  \/ (~ identity_present st /\ marker_present st).

Definition authenticated_iff_both_present `{Platform} (st : Storage) : Prop :=
  Session.isAuthed st = Normal true
  <-> identity_present st /\ marker_present st
      /\ exists v, Session.user st = Normal v /\ v <> VNull.

(** [x] is a suffix of [s]. *)
Fixpoint suffixb (x s : string) : bool :=
  String.eqb x s
  || match s with
     | EmptyString => false
     | String _ r => suffixb x r
     end.

(** The portal links of the two renderers. *)
Definition patient_link_nav : string :=
  qq "<a href='/portal/patient/login.html'>Patient Portal</a>".
Definition patient_link_header : string :=
  qq "<a href='eldercare-patient.html'>Patient Portal</a>".

(** The account label around an email, as it appears in the markup. *)
Definition account_link (label : string) : string :=
  account_open +:+ label +:+ "</a>".

(** What the markup for an authenticated visitor holds: home link, the
    renderer's patient-portal link, the account label, the logout control. *)
Definition authenticated_markup (patient_link label m : string) : Prop :=
  Contains home_link m /\ Contains patient_link m
  /\ Contains (account_link label) m /\ Contains logout_link m.




(** A response without a usable score: no [risk_score] property (also when
    the response is not an object at all), or [risk_score: null]. *)
Definition lacks_score (j : value) : Prop :=
  get_prop_opt j "risk_score" = VUndefined
  \/ get_prop_opt j "risk_score" = VNull.

(** A response that carries the score [n]. *)
Definition scored (n : number) : value := VObj [("risk_score", VNum n)].

(** A change of a node that keeps its kind, local name and attributes. *)
Definition keeps_shape (g : node -> node) : Prop :=
  forall e, match e with
            | Text _ => g e = e
            | Elem t a _ _ => exists l ch, g e = Elem t a l ch
            end.

(** The navigation element that [headerHTML] renders: [nav.nav]. *)
Definition header_nav : compound :=
  {| sel_tag := Some "nav"; sel_id := None; sel_classes := ["nav"] |}.

(** The markup that [mountNav] would inject parses to a fragment with
    exactly one [#pw-nav] element and without any [.header-inner] element. *)
Definition single_marker_fragment `{Platform} (w : world) : Prop :=
  forall host e html,
    AuthJsMount.find_host (document w) = Some host ->
    node_at host (document w) = Some e ->
    AuthJs.navHTML (storage w) = Normal html ->
    count_in_list marker (parse_fragment (shape_of e) html) = 1%nat
    /\ count_in_list (by_class "header-inner")
                     (parse_fragment (shape_of e) html) = 0%nat.

(** The two halves of the idempotence claim, in the words of the
    specification, for a mount operation that finds its host with [find]
    and renders a navigation element matching [nav]. *)
Definition returns_when_already_mounted (mount : world -> completion world)
    (find : node -> option path) (nav : compound) (w : world) : Prop :=
  forall host e,
    find (document w) = Some host ->
    node_at host (document w) = Some e ->
    (0 < count_in_list nav (children_of e))%nat ->
    mount w = Normal w.

Definition twice_leaves_one (mount : world -> completion world)
    (nav : compound) (w : world) : Prop :=
  forall w2,
    mount w ≫= mount = Normal w2 ->
    count_in_node nav (document w2) = 1%nat.


(** The claim about the host's content, in the words of the
    specification: the former children of the host come first and are
    what they were (up to listeners). *)
Definition append_only (mount : world -> completion world)
    (find : node -> option path) (nav : compound) (w : world) : Prop :=
  forall host e w',
    find (document w) = Some host ->
    node_at host (document w) = Some e ->
    count_in_list nav (children_of e) = 0%nat ->
    mount w = Normal w' ->
    exists e' rendered,
      node_at host (document w') = Some e'
      /\ List.map erase_clicks (children_of e')
         = List.map erase_clicks (children_of e) ++ rendered.

(** Two stores that differ at most in the two session entries. *)
Definition agree_outside_session (st1 st2 : Storage) : Prop :=
  forall k, k <> Session.keyUser -> k <> Session.keyToken ->
            st1 !! k = st2 !! k.

(** Two stores with the same two session entries. *)
Definition agree_on_session (st1 st2 : Storage) : Prop :=
  st1 !! Session.keyUser = st2 !! Session.keyUser
  /\ st1 !! Session.keyToken = st2 !! Session.keyToken.

(** Pages in the middle of loading, and loaded. *)
Module SamplePage.

Definition loading (w : world) : page :=
  {| ready_state := Loading; PW_AUTH := None;
     on_DOMContentLoaded := []; view := w |}.

Definition loaded (w : world) : page :=
  {| ready_state := Complete; PW_AUTH := None;
     on_DOMContentLoaded := []; view := w |}.

(** The header page once [auth.js] has added its style element. *)
Definition styled : world :=
  with_document
    (appendChild [0%nat] (style_element AuthJsScript.CSS)
       Sample.plain_header_page)
    (Sample.load Sample.signed_in Sample.plain_header_page).

End SamplePage.

(** The host that [mountNav] finds is not inside the head of the
    document. *)
Definition host_outside_head `{Platform} (doc : node) : Prop :=
  forall host k,
    AuthJsMount.find_host doc = Some host ->
    document_head doc = Some [k] ->
    exists i r, host = i :: r /\ i <> k.

(** The class names of the three bands, and the fields of the risk form by
    the conversion the handler applies to them. *)
Definition band_classes : list string := ["low"; "moderate"; "high"].

Definition is_band_class (c : string) : bool :=
  existsb (String.eqb c) band_classes.

Definition numeric_fields : list string :=
  ["age"; "heart_rate"; "blood_pressure_sys"; "respiration_rate";
   "oxygen_saturation"; "gait_speed"; "step_variability"; "hrv";
   "sleep_hours"; "cognitive_score"; "balance_test"; "medication_count"].

Definition text_fields : list string := ["sex"; "mobility_aid"].

(** A page with the output area and a badge left by an earlier page state. *)
Definition sample_risk_ui : RiskSubmit.risk_ui :=
  {| RiskSubmit.riskOut := Some "";
     RiskSubmit.riskBadge :=
       Some {| RiskForm.classList := ["badge"; "high"; "pill"];
               RiskForm.textContent := "" |} |}.

(** [JSON.stringify(j, null, 2)] and the text of an exception, as far as
    the samples need them. *)
Definition sample_pretty (j : value) : string :=
  match @JSON_stringify Ref.platform j with
  | Some s => s
  | None => "undefined"
  end.

Definition sample_error_text (e : exn) : string := "TypeError".

(* ===================================================================== *)
(** * Proofs: the reference built-ins satisfy the laws *)
(* ===================================================================== *)

Lemma base64_nonempty (s : string) : s <> "" -> Ref.base64 s <> "".
Proof.
  destruct s as [|a [|b [|c r]]]; simpl; congruence.
Qed.

#[local] Instance ref_laws : @PlatformLaws Ref.platform.
Proof.
  split.
  - reflexivity.
  - reflexivity.
  - intros s t Hb Hs. simpl in Hb. injection Hb as <-.
    now apply base64_nonempty.
Qed.

(* ===================================================================== *)
(** * Proofs: credential store and session accessor *)
(* ===================================================================== *)

Section SessionFacts.
Context `{PlatformLaws}.
Import Session.

Lemma keys_differ : keyUser <> keyToken.
Proof. discriminate. Qed.

Lemma getItem_setItem_eq (st : Storage) (k s : string) :
  getItem (setItem st k s) k = VStr s.
Proof. unfold getItem, setItem. now rewrite lookup_insert_eq. Qed.

Lemma getItem_setItem_ne (st : Storage) (k k' s : string) :
  k <> k' -> getItem (setItem st k s) k' = getItem st k'.
Proof. intros Hk. unfold getItem, setItem. now rewrite lookup_insert_ne. Qed.

Lemma getItem_logout_user (st : Storage) : getItem (logout st) keyUser = VNull.
Proof.
  unfold getItem, logout, removeItem.
  rewrite lookup_delete_ne by (symmetry; apply keys_differ).
  now rewrite lookup_delete_eq.
Qed.

Lemma getItem_logout_token (st : Storage) : getItem (logout st) keyToken = VNull.
Proof. unfold getItem, logout, removeItem. now rewrite lookup_delete_eq. Qed.

Lemma ToBoolean_VStr (s : string) : ToBoolean (VStr s) = true <-> s <> "".
Proof.
  simpl. destruct (String.eqb_spec s ""); simpl; split; congruence.
Qed.

(** The text handed to [JSON.parse]: the stored one, or ["null"] when the
    entry is missing or empty. *)
Lemma user_text (st : Storage) :
  ToString (js_or (getItem st keyUser) (VStr "null"))
  = Normal match st !! keyUser with
           | Some s => if String.eqb s "" then "null" else s
           | None => "null"
           end.
Proof.
  unfold getItem, js_or. destruct (st !! keyUser) as [s|]; [|reflexivity].
  simpl. now destruct (String.eqb s "").
Qed.

(** The getter always completes normally. *)
Lemma user_total (st : Storage) : exists v, user st = Normal v.
Proof.
  unfold user, try_catch. rewrite user_text. cbn.
  destruct (JSON_parse _) as [v|e]; eauto.
Qed.

Lemma isAuthed_total (st : Storage) : exists b, isAuthed st = Normal b.
Proof.
  unfold isAuthed, token. destruct (user_total st) as [v ->].
  cbn. destruct (ToBoolean v); eauto.
Qed.

Lemma user_absent (st : Storage) : st !! keyUser = None -> user st = Normal VNull.
Proof.
  intros Hu. unfold user. rewrite user_text, Hu. cbn.
  rewrite JSON_parse_null. reflexivity.
Qed.

Lemma user_stored (st : Storage) (s : string) (v : value) :
  st !! keyUser = Some s -> JSON_parse s = Normal v -> user st = Normal v.
Proof.
  intros Hu Hp. unfold user. rewrite user_text, Hu. cbn.
  destruct (String.eqb_spec s "") as [->|_].
  - rewrite JSON_parse_empty in Hp. discriminate.
  - now rewrite Hp.
Qed.

Lemma user_unparsable (st : Storage) (s : string) (e : exn) :
  st !! keyUser = Some s -> JSON_parse s = Throw e -> user st = Normal VNull.
Proof.
  intros Hu Hp. unfold user. rewrite user_text, Hu. cbn.
  destruct (String.eqb_spec s "") as [->|_].
  - now rewrite JSON_parse_null.
  - now rewrite Hp.
Qed.

(** [isAuthed] in terms of the two getters. *)
Lemma isAuthed_unfold (st : Storage) (v : value) :
  user st = Normal v ->
  isAuthed st = Normal (ToBoolean v && ToBoolean (getItem st keyToken)).
Proof.
  intros Hu. unfold isAuthed, token. rewrite Hu. cbn.
  now destruct (ToBoolean v).
Qed.

Lemma isAuthed_true_inv (st : Storage) :
  isAuthed st = Normal true ->
  exists s v m, st !! keyUser = Some s /\ JSON_parse s = Normal v
                /\ ToBoolean v = true /\ st !! keyToken = Some m /\ m <> "".
Proof.
  intros Ha. destruct (user_total st) as [v Hv].
  rewrite (isAuthed_unfold _ _ Hv) in Ha.
  injection Ha as Ha. apply andb_prop in Ha as [Hb Ht].
  destruct (st !! keyUser) as [s|] eqn:Hu.
  2:{ rewrite (user_absent _ Hu) in Hv. injection Hv as <-. discriminate. }
  destruct (JSON_parse s) as [v'|e] eqn:Hp.
  2:{ rewrite (user_unparsable _ _ _ Hu Hp) in Hv. injection Hv as <-.
      discriminate. }
  rewrite (user_stored _ _ _ Hu Hp) in Hv. injection Hv as <-.
  unfold getItem in Ht. destruct (st !! keyToken) as [m|] eqn:Hm; [|discriminate].
  exists s, v', m. repeat split; auto. now apply ToBoolean_VStr.
Qed.

Lemma isAuthed_true_intro (st : Storage) (s m : string) (v : value) :
  st !! keyUser = Some s -> JSON_parse s = Normal v -> ToBoolean v = true ->
  st !! keyToken = Some m -> m <> "" ->
  isAuthed st = Normal true.
Proof.
  intros Hu Hp Hb Hm Hne.
  rewrite (isAuthed_unfold _ _ (user_stored _ _ _ Hu Hp)), Hb.
  unfold getItem. rewrite Hm. cbn.
  apply ToBoolean_VStr in Hne. cbn in Hne. now rewrite Hne.
Qed.

Lemma isAuthed_no_marker (st : Storage) :
  st !! keyToken = None -> isAuthed st = Normal false.
Proof.
  intros Hm. destruct (user_total st) as [v Hv].
  rewrite (isAuthed_unfold _ _ Hv). unfold getItem. rewrite Hm.
  cbn. now rewrite andb_false_r.
Qed.

Lemma isAuthed_no_identity (st : Storage) :
  st !! keyUser = None -> isAuthed st = Normal false.
Proof.
  intros Hu. now rewrite (isAuthed_unfold _ _ (user_absent _ Hu)).
Qed.

Lemma marker_text_nonempty (a b : string) : a +:+ ":" +:+ b <> "".
Proof. destruct a; discriminate. Qed.

End SessionFacts.

(** What a completed [login] has written. *)
Lemma login_completed_store `{Platform} (st st' : Storage) (u : value)
    (now : number) :
  Session.login st u now = (st', Normal tt) ->
  exists m,
    st' = setItem (setItem st Session.keyUser
                     (default "undefined" (JSON_stringify u)))
                  Session.keyToken m
    /\ exists email text,
         get_prop u "email" = Normal email
         /\ ToString email = Normal text
         /\ btoa (text +:+ ":" +:+ NumberToString now) = Normal m.
Proof.
  unfold Session.login. intros Hl.
  destruct (get_prop u "email") as [email|] eqn:He; [|discriminate].
  cbn in Hl. destruct (ToString email) as [text|] eqn:Ht; [|discriminate].
  cbn in Hl. destruct (btoa _) as [m|] eqn:Hm; [|discriminate].
  injection Hl as <-. exists m. split; [reflexivity|]. eauto.
Qed.




(** C2, as worded: a store with both entries, whose identity parses to a
    record, and whose marker is the empty string, is not authenticated. *)
Lemma both_present_not_authenticated :
  ~ @authenticated_iff_both_present Ref.platform Sample.empty_marker.
Proof.
  unfold authenticated_iff_both_present. intros [_ Hback].
  assert (Ha : @Session.isAuthed Ref.platform Sample.empty_marker = Normal true).
  { apply Hback. repeat split.
    - vm_compute. eauto.
    - vm_compute. eauto.
    - eexists. split; [vm_compute; reflexivity | discriminate]. }
  vm_compute in Ha. discriminate.
Qed.

(** C2, amended.  [isAuthed] returns true exactly when the identity entry
    is present and parses to a truthy value and the marker entry is present
    and not the empty string; a store with exactly one of the two entries
    is not authenticated. *)
Theorem isAuthed_iff_truthy_identity_and_marker `{PlatformLaws} (st : Storage) :
  (Session.isAuthed st = Normal true
   <-> exists s v m,
         st !! Session.keyUser = Some s /\ JSON_parse s = Normal v
         /\ ToBoolean v = true
         /\ st !! Session.keyToken = Some m /\ m <> "")
  /\ (exactly_one_present st -> Session.isAuthed st = Normal false).
Proof.
  split.
  - split.
    + apply isAuthed_true_inv.
    + intros (s & v & m & Hu & Hp & Hb & Hm & Hne).
      now apply (isAuthed_true_intro st s m v).
  - unfold exactly_one_present, identity_present, marker_present.
    intros [[_ Hm] | [Hu _]].
    + apply isAuthed_no_marker.
      destruct (st !! Session.keyToken) eqn:E; [|reflexivity].
      exfalso. apply Hm. eauto.
    + apply isAuthed_no_identity.
      destruct (st !! Session.keyUser) eqn:E; [|reflexivity].
      exfalso. apply Hu. eauto.
Qed.

Lemma isAuthed_iff_truthy_identity_and_marker_witness :
  exactly_one_present Sample.only_user
  /\ @Session.isAuthed Ref.platform Sample.only_user = Normal false.
Proof.
  assert (Hone : exactly_one_present Sample.only_user).
  { left. split.
    - vm_compute. eauto.
    - intros [m Hm]. vm_compute in Hm. discriminate. }
  split; [exact Hone|].
  exact (proj2 (@isAuthed_iff_truthy_identity_and_marker Ref.platform ref_laws
                  Sample.only_user) Hone).
Defined.

(** C3.  The [user] getter and [isAuthed] complete normally on every
    store; and when the text stored under the identity key is not valid
    JSON ([JSON.parse] throws on it), the getter returns [null] and
    [isAuthed] returns false. *)
Theorem user_getter_fails_soft `{PlatformLaws} (st : Storage) :
  (exists v b, Session.user st = Normal v /\ Session.isAuthed st = Normal b)
  /\ (forall s e,
        st !! Session.keyUser = Some s -> JSON_parse s = Throw e ->
        Session.user st = Normal VNull /\ Session.isAuthed st = Normal false).
Proof.
  split.
  - destruct (user_total st) as [v Hv]. destruct (isAuthed_total st) as [b Hb].
    eauto.
  - intros s e Hu Hp.
    pose proof (user_unparsable st s e Hu Hp) as Hv. split; [exact Hv|].
    now rewrite (isAuthed_unfold _ _ Hv).
Qed.

Lemma user_getter_fails_soft_witness :
  @Session.user Ref.platform Sample.corrupt = Normal VNull
  /\ @Session.isAuthed Ref.platform Sample.corrupt = Normal false.
Proof.
  apply (proj2 (@user_getter_fails_soft Ref.platform ref_laws Sample.corrupt)
           "{oops" SyntaxError).
  - vm_compute. reflexivity.
  - vm_compute. reflexivity.
Defined.

(* ===================================================================== *)
(** * Proofs: navigation renderer *)
(* ===================================================================== *)

Lemma append_assoc (a b c : string) : (a +:+ b) +:+ c = a +:+ b +:+ c.
Proof.
  induction a as [|x a IH]; [reflexivity|].
  change (String x ((a +:+ b) +:+ c) = String x (a +:+ b +:+ c)).
  now rewrite IH.
Qed.

Lemma append_cons (x : ascii) (a b : string) :
  String x a +:+ b = String x (a +:+ b).
Proof. reflexivity. Qed.

Lemma prefix_true (p s : string) :
  String.prefix p s = true -> exists post, s = p +:+ post.
Proof.
  revert s. induction p as [|c p IH]; intros s Hp.
  - exists s. reflexivity.
  - destruct s as [|d s]; simpl in Hp; [discriminate|].
    destruct (Ascii.ascii_dec c d) as [->|]; [|discriminate].
    destruct (IH s Hp) as [post ->]. now exists post.
Qed.

Lemma prefix_append (p post : string) : String.prefix p (p +:+ post) = true.
Proof.
  induction p as [|c p IH]; simpl.
  - now destruct post.
  - destruct (Ascii.ascii_dec c c); [exact IH | congruence].
Qed.

Lemma containsb_nil (needle : string) :
  containsb needle "" = String.prefix needle "".
Proof. unfold containsb. apply orb_false_r. Qed.

Lemma containsb_cons (needle : string) (c : ascii) (hay : string) :
  containsb needle (String c hay)
  = String.prefix needle (String c hay) || containsb needle hay.
Proof. reflexivity. Qed.

Lemma containsb_true (needle hay : string) :
  containsb needle hay = true <-> Contains needle hay.
Proof.
  split.
  - induction hay as [|c hay IH]; intros Hc.
    + rewrite containsb_nil in Hc. apply prefix_true in Hc as [post Hpost].
      exists "", post. exact Hpost.
    + rewrite containsb_cons in Hc. apply orb_prop in Hc as [Hc|Hc].
      * apply prefix_true in Hc as [post Hpost]. exists "", post. exact Hpost.
      * destruct (IH Hc) as (pre & post & ->).
        exists (String c pre), post. reflexivity.
  - intros (pre & post & ->). induction pre as [|c pre IH].
    + change ("" +:+ needle +:+ post) with (needle +:+ post).
      destruct (needle +:+ post) eqn:E.
      * rewrite containsb_nil, <- E. apply prefix_append.
      * rewrite containsb_cons, <- E, prefix_append. reflexivity.
    + rewrite append_cons, containsb_cons, IH. apply orb_true_r.
Qed.


Lemma Contains_append_l (needle a b : string) :
  Contains needle a -> Contains needle (a +:+ b).
Proof.
  intros (pre & post & ->). exists pre, (post +:+ b).
  now rewrite !append_assoc.
Qed.

Lemma Contains_append_r (needle a b : string) :
  Contains needle b -> Contains needle (a +:+ b).
Proof.
  intros (pre & post & ->). exists (a +:+ pre), post.
  now rewrite !append_assoc.
Qed.

Lemma suffixb_true (x s : string) :
  suffixb x s = true -> exists pre, s = pre +:+ x.
Proof.
  induction s as [|c s IH]; simpl; intros Hs.
  - rewrite orb_false_r in Hs. apply String.eqb_eq in Hs as ->. now exists "".
  - apply orb_prop in Hs as [Hs|Hs].
    + apply String.eqb_eq in Hs as ->. now exists "".
    + destruct (IH Hs) as [pre ->]. now exists (String c pre).
Qed.

(** A label interpolated between a head that ends with the opening tag of
    the account link and a tail that starts with its closing tag. *)
Lemma account_link_in_markup (head tail label : string) :
  suffixb account_open head = true ->
  String.prefix "</a>" tail = true ->
  Contains (account_link label) (head +:+ label +:+ tail).
Proof.
  intros Hh Ht. apply suffixb_true in Hh as [pre ->].
  apply prefix_true in Ht as [post ->].
  exists pre, post. unfold account_link. now rewrite !append_assoc.
Qed.

Section RenderFacts.
Context `{Platform}.

(** The label is the email when that is a non-empty string, and the
    literal [Account] when the identity has no email. *)
Lemma account_label_email (st : Storage) (u : value) (e : string) :
  Session.user st = Normal u -> get_prop_opt u "email" = VStr e -> e <> "" ->
  Session.account_label st = Normal e.
Proof.
  intros Hu He Hne. unfold Session.account_label. rewrite Hu. cbn.
  rewrite He. unfold js_or.
  apply ToBoolean_VStr in Hne. now rewrite Hne.
Qed.







Lemma navHTML_authed (st : Storage) (label : string) :
  Session.isAuthed st = Normal true ->
  Session.account_label st = Normal label ->
  AuthJs.navHTML st
  = Normal (AuthJs.nav_authed_head +:+ label +:+ AuthJs.nav_authed_tail).
Proof. intros Ha Hl. unfold AuthJs.navHTML. rewrite Ha. cbn. now rewrite Hl. Qed.


Lemma headerHTML_authed (st : Storage) (label : string) :
  Session.isAuthed st = Normal true ->
  Session.account_label st = Normal label ->
  HeaderJs.headerHTML st
  = Normal (HeaderJs.header_authed_head +:+ label
            +:+ HeaderJs.header_authed_tail).
Proof.
  intros Ha Hl. unfold HeaderJs.headerHTML. rewrite Ha. cbn. now rewrite Hl.
Qed.




Lemma inline_headerHTML_throws (st : Storage) (e : exn) :
  Session.isAuthed st = Normal true ->
  Session.account_label st = Throw e ->
  HeaderInline.headerHTML st = Throw e.
Proof.
  intros Ha Hl. unfold HeaderInline.headerHTML. rewrite Ha. cbn.
  now rewrite Hl.
Qed.

(** The three renderers complete together: they share the session test
    and the label. *)
Lemma renderers_complete_together (st : Storage) :
  (completes (AuthJs.navHTML st)
   <-> completes (HeaderJs.headerHTML st))
  /\ (completes (HeaderJs.headerHTML st)
      <-> completes (HeaderInline.headerHTML st)).
Proof.
  unfold AuthJs.navHTML, HeaderJs.headerHTML, HeaderInline.headerHTML.
  destruct (isAuthed_total st) as [[|] ->]; cbn.
  - destruct (Session.account_label st); cbn; unfold completes;
      split; split; intros [m Hm]; try discriminate; eauto.
  - unfold completes. split; split; eauto.
Qed.

End RenderFacts.

(** Occurrence and absence of a constant text in constant markup, by
    evaluation of [containsb]. *)
Ltac by_search := apply containsb_true; vm_compute; reflexivity.




Lemma nav_authed_markup (label : string) :
  authenticated_markup patient_link_nav label
    (AuthJs.nav_authed_head +:+ label +:+ AuthJs.nav_authed_tail).
Proof.
  repeat split.
  - apply Contains_append_l. by_search.
  - apply Contains_append_l. by_search.
  - apply account_link_in_markup; vm_compute; reflexivity.
  - apply Contains_append_r, Contains_append_r. by_search.
Qed.

Lemma header_authed_markup (label : string) :
  authenticated_markup patient_link_header label
    (HeaderJs.header_authed_head +:+ label +:+ HeaderJs.header_authed_tail).
Proof.
  repeat split.
  - apply Contains_append_l. by_search.
  - apply Contains_append_l. by_search.
  - apply account_link_in_markup; vm_compute; reflexivity.
  - apply Contains_append_r, Contains_append_r. by_search.
Qed.




(* ===================================================================== *)
(** * Proofs: risk badge *)
(* ===================================================================== *)

Section BadgeFacts.
Context `{Platform}.
Import RiskForm.

Lemma score_of_number (j : value) (n : number) :
  get_prop_opt j "risk_score" = VNum n -> score_of j = Normal n.
Proof. intros Hj. unfold score_of. now rewrite Hj. Qed.

Lemma score_of_missing (j : value) :
  lacks_score j -> score_of j = Normal (num 0).
Proof. intros [Hj|Hj]; unfold score_of; now rewrite Hj. Qed.

(** A score that is a record with an own [toString] property does not
    convert. *)
Lemma score_of_throws (j : value) (fs : list (string * value)) :
  get_prop_opt j "risk_score" = VObj fs ->
  own_property "toString" fs = true ->
  score_of j = Throw TypeError.
Proof. intros Hj Ho. unfold score_of. rewrite Hj. cbn. now rewrite Ho. Qed.

Lemma band_low (n : number) :
  num_lt n (num 6) = true -> band n = ("Low", "low").
Proof.
  unfold band. destruct n as [| | |q]; cbn; try discriminate; try reflexivity.
  intros Hlt. apply negb_true_iff in Hlt. rewrite Hlt. cbn.
  assert (Hq : Qle_bool q (inject_Z 15) = true).
  { apply Qle_bool_iff.
    assert (~ (inject_Z 6 <= q)%Q) as Hn.
    { intros Hle. apply Qle_bool_iff in Hle. congruence. }
    apply Qnot_le_lt in Hn.
    apply Qlt_le_weak. eapply Qlt_trans; [exact Hn | reflexivity]. }
  now rewrite Hq.
Qed.

Lemma band_moderate (n : number) :
  num_le (num 6) n = true -> num_le n (num 15) = true ->
  band n = ("Moderate", "moderate").
Proof. intros H6 H15. unfold band. now rewrite H6, H15. Qed.

Lemma band_high (n : number) :
  num_lt (num 15) n = true -> band n = ("High", "high").
Proof.
  unfold band. destruct n as [| | |q]; cbn; try discriminate; try reflexivity.
  intros Hlt. rewrite Hlt. apply negb_true_iff in Hlt. rewrite Hlt.
  now rewrite andb_false_r.
Qed.

Lemma band_nan : band NaN = ("Low", "low").
Proof. reflexivity. Qed.

Lemma label_of_score (j : value) (n : number) :
  score_of j = Normal n -> label_of j = Normal (fst (band n)).
Proof. intros Hs. unfold label_of. now rewrite Hs. Qed.

(** ** The class list *)

Lemma band_class_is_band (n : number) : is_band_class (snd (band n)) = true.
Proof.
  unfold band.
  destruct (num_le (num 6) n && num_le n (num 15)); [reflexivity|].
  destruct (num_lt (num 15) n); reflexivity.
Qed.

Lemma classList_remove_spec (names cl : list string) (c : string) :
  In c (classList_remove names cl)
  <-> In c cl /\ existsb (String.eqb c) names = false.
Proof.
  unfold classList_remove. rewrite filter_In, negb_true_iff. reflexivity.
Qed.

Lemma classList_remove_again (names cl : list string) :
  classList_remove names (classList_remove names cl) = classList_remove names cl.
Proof.
  unfold classList_remove. induction cl as [|c cl IH]; [reflexivity|].
  cbn. destruct (existsb (String.eqb c) names) eqn:Hc; cbn; [exact IH|].
  rewrite Hc. cbn. now rewrite IH.
Qed.

Lemma existsb_eqb_In (c : string) (l : list string) :
  existsb (String.eqb c) l = true <-> In c l.
Proof.
  rewrite existsb_exists. split.
  - intros (x & Hx & He). apply String.eqb_eq in He. now subst.
  - intros Hc. exists c. split; [exact Hc | apply String.eqb_refl].
Qed.

(** The class of a band is never among the cleared classes, so that
    [classList.add] appends it. *)
Lemma classList_add_band (n : number) (cl : list string) :
  classList_add (snd (band n)) (classList_remove band_classes cl)
  = classList_remove band_classes cl ++ [snd (band n)].
Proof.
  pose proof (band_class_is_band n) as Hb.
  unfold classList_add.
  destruct (existsb (String.eqb (snd (band n))) _) eqn:He; [|reflexivity].
  apply existsb_eqb_In, classList_remove_spec in He.
  destruct He as [_ He]. unfold is_band_class in Hb. congruence.
Qed.

Lemma classList_remove_app (names l k : list string) :
  classList_remove names (l ++ k)
  = classList_remove names l ++ classList_remove names k.
Proof. unfold classList_remove. apply List.filter_app. Qed.

Lemma classList_remove_band (n : number) :
  classList_remove band_classes [snd (band n)] = [].
Proof.
  pose proof (band_class_is_band n) as Hb. unfold is_band_class in Hb.
  unfold classList_remove. cbn [List.filter]. now rewrite Hb.
Qed.

(** ** The two ways the badge block ends *)

Lemma show_badge_scored (j : value) (n : number) (b : badge) :
  score_of j = Normal n ->
  show_badge j b
  = ({| classList := classList_remove band_classes (classList b)
                     ++ [snd (band n)];
        textContent := "Risk Level: " +:+ fst (band n) +:+ " (score "
                       +:+ NumberToString n +:+ ")" |},
     Normal tt).
Proof.
  intros Hs. unfold show_badge. rewrite Hs.
  rewrite <- (classList_add_band n (classList b)).
  now destruct (band n).
Qed.

Lemma show_badge_throws (j : value) (e : exn) (b : badge) :
  score_of j = Throw e ->
  show_badge j b
  = ({| classList := classList_remove band_classes (classList b);
        textContent := textContent b |},
     Throw e).
Proof. intros Hs. unfold show_badge. now rewrite Hs. Qed.

End BadgeFacts.

(** C8.  A numeric [risk_score] is the score the badge shows and
    classifies: the badge block completes, and the label in the text of the
    badge is Low when the score is below 6, Moderate from 6 to 15
    inclusive, High above 15; so 5 is Low, 6 and 15 are Moderate, 16 is
    High. *)
Theorem badge_bands `{Platform} (j : value) (n : number) :
  get_prop_opt j "risk_score" = VNum n ->
  RiskForm.score_of j = Normal n
  /\ (exists label,
        RiskForm.label_of j = Normal label
        /\ forall b, exists b',
             RiskForm.show_badge j b = (b', Normal tt)
             /\ RiskForm.textContent b'
                = "Risk Level: " +:+ label +:+ " (score "
                  +:+ NumberToString n +:+ ")")
  /\ (num_lt n (num 6) = true -> RiskForm.label_of j = Normal "Low")
  /\ (num_le (num 6) n = true -> num_le n (num 15) = true ->
      RiskForm.label_of j = Normal "Moderate")
  /\ (num_lt (num 15) n = true -> RiskForm.label_of j = Normal "High")
  /\ (RiskForm.label_of (scored (num 5)) = Normal "Low"
      /\ RiskForm.label_of (scored (num 6)) = Normal "Moderate"
      /\ RiskForm.label_of (scored (num 15)) = Normal "Moderate"
      /\ RiskForm.label_of (scored (num 16)) = Normal "High").
Proof.
  intros Hj. pose proof (score_of_number j n Hj) as Hs.
  split; [exact Hs|]. split.
  { exists (fst (RiskForm.band n)). split; [now apply label_of_score|].
    intros b. eexists. split; [apply (show_badge_scored j n b Hs)|].
    reflexivity. }
  rewrite (label_of_score j n Hs).
  split; [|split; [|split]].
  - intros Hlt. now rewrite band_low.
  - intros H6 H15. now rewrite band_moderate.
  - intros Hgt. now rewrite band_high.
  - repeat split.
Qed.

Lemma badge_bands_witness :
  @RiskForm.label_of Ref.platform
    (VObj [("status", VStr "ok"); ("risk_score", VNum (Fin (31 # 2)))])
  = Normal "High".
Proof.
  assert (Hj : get_prop_opt
                 (VObj [("status", VStr "ok");
                        ("risk_score", VNum (Fin (31 # 2)))]) "risk_score"
               = VNum (Fin (31 # 2))) by reflexivity.
  destruct (@badge_bands Ref.platform _ _ Hj) as (_ & _ & _ & _ & Hhigh & _).
  apply Hhigh. reflexivity.
Defined.

(** C10.  When the response has no [risk_score] (or a [null] one) the
    score is taken as 0, and when the score converts to NaN both band tests
    fail; in both cases the badge block completes, the text of the badge
    names the level Low and the badge gets the class [low] in place of any
    band class it had.  A score that does not convert at all leaves no
    error in the badge either: its text is what it was, and its band class
    is gone. *)
Theorem missing_or_malformed_score_is_low `{Platform} (j : value)
    (b : RiskForm.badge) :
  (lacks_score j ->
   RiskForm.score_of j = Normal (num 0)
   /\ RiskForm.label_of j = Normal "Low"
   /\ RiskForm.show_badge j b
      = ({| RiskForm.classList :=
              RiskForm.classList_remove band_classes (RiskForm.classList b)
              ++ ["low"];
            RiskForm.textContent :=
              "Risk Level: Low (score " +:+ NumberToString (num 0) +:+ ")" |},
         Normal tt))
  /\ (RiskForm.score_of j = Normal NaN ->
      num_le (num 6) NaN && num_le NaN (num 15) = false
      /\ num_lt (num 15) NaN = false
      /\ RiskForm.label_of j = Normal "Low"
      /\ RiskForm.show_badge j b
         = ({| RiskForm.classList :=
                 RiskForm.classList_remove band_classes (RiskForm.classList b)
                 ++ ["low"];
               RiskForm.textContent :=
                 "Risk Level: Low (score " +:+ NumberToString NaN +:+ ")" |},
            Normal tt))
  /\ (forall e,
        RiskForm.score_of j = Throw e ->
        RiskForm.show_badge j b
        = ({| RiskForm.classList :=
                RiskForm.classList_remove band_classes (RiskForm.classList b);
              RiskForm.textContent := RiskForm.textContent b |},
           Throw e)).
Proof.
  split; [|split].
  - intros Hl. pose proof (score_of_missing j Hl) as Hs.
    split; [exact Hs|]. split; [now rewrite (label_of_score j _ Hs)|].
    now rewrite (show_badge_scored j _ b Hs).
  - intros Hs. split; [reflexivity|]. split; [reflexivity|].
    split; [now rewrite (label_of_score j _ Hs)|].
    now rewrite (show_badge_scored j _ b Hs).
  - intros e Hs. now apply show_badge_throws.
Qed.

Lemma missing_or_malformed_score_is_low_witness :
  @RiskForm.label_of Ref.platform (VObj [("status", VStr "ok")]) = Normal "Low"
  /\ @RiskForm.label_of Ref.platform (VObj [("risk_score", VStr "n/a")])
     = Normal "Low"
  /\ snd (@RiskForm.show_badge Ref.platform
            (VObj [("risk_score", VObj [("toString", VNum (num 1))])])
            {| RiskForm.classList := ["badge"; "high"];
               RiskForm.textContent := "Risk Level: High (score 16)" |})
     = Throw TypeError.
Proof.
  set (b := {| RiskForm.classList := ["badge"; "high"];
               RiskForm.textContent := "Risk Level: High (score 16)" |}).
  split; [|split].
  - destruct (@missing_or_malformed_score_is_low Ref.platform
                (VObj [("status", VStr "ok")]) b) as (Hmissing & _ & _).
    apply Hmissing. left. reflexivity.
  - destruct (@missing_or_malformed_score_is_low Ref.platform
                (VObj [("risk_score", VStr "n/a")]) b) as (_ & Hnan & _).
    apply Hnan. vm_compute. reflexivity.
  - destruct (@missing_or_malformed_score_is_low Ref.platform
                (VObj [("risk_score", VObj [("toString", VNum (num 1))])]) b)
      as (_ & _ & Hthrow).
    rewrite (Hthrow TypeError); [reflexivity|]. vm_compute. reflexivity.
Defined.

(* ===================================================================== *)
(** * Proofs: searching and updating the document tree *)
(* ===================================================================== *)

(** Induction on nodes that reaches the children. *)
Lemma node_induction (Q : node -> Prop) :
  (forall s, Q (Text s)) ->
  (forall t a l ch, Forall Q ch -> Q (Elem t a l ch)) ->
  forall n, Q n.
Proof.
  intros HT HE. fix IH 1. intros [s|t a l ch]; [apply HT|].
  apply HE. induction ch as [|c ch IHch]; constructor; [apply IH | exact IHch].
Qed.

Section FirstSome.
Context {A : Type} (f : A -> option path).

Lemma first_some_None (i : nat) (l : list A) :
  first_some f i l = None <-> forall k c, l !! k = Some c -> f c = None.
Proof.
  revert i. induction l as [|x l IH]; intros i; cbn.
  - split; [intros _ k c Hk; destruct k; discriminate | reflexivity].
  - destruct (f x) as [p|] eqn:Hx.
    + split; [discriminate|]. intros Hall.
      specialize (Hall 0%nat x eq_refl). congruence.
    + rewrite IH. split.
      * intros Hall [|k] c Hk; [injection Hk as <-; exact Hx | eapply Hall, Hk].
      * intros Hall k c Hk. apply (Hall (S k) c Hk).
Qed.

Lemma first_some_Some (i : nat) (l : list A) (q : path) :
  first_some f i l = Some q <->
  exists k c p, q = (i + k)%nat :: p /\ l !! k = Some c /\ f c = Some p
                /\ forall k' c', (k' < k)%nat -> l !! k' = Some c' -> f c' = None.
Proof.
  revert i. induction l as [|x l IH]; intros i; cbn.
  - split; [discriminate|]. intros (k & c & p & _ & Hk & _).
    destruct k; discriminate.
  - destruct (f x) as [p|] eqn:Hx.
    + split.
      * intros [= <-]. exists 0%nat, x, p. rewrite Nat.add_0_r.
        repeat split; auto. intros k' c' Hlt. lia.
      * intros (k & c & p' & -> & Hk & Hc & Hbefore).
        destruct k as [|k].
        -- injection Hk as <-. rewrite Nat.add_0_r. congruence.
        -- specialize (Hbefore 0%nat x ltac:(lia) eq_refl). congruence.
    + rewrite IH. split.
      * intros (k & c & p & -> & Hk & Hc & Hbefore).
        exists (S k), c, p. repeat split; auto.
        -- f_equal. lia.
        -- intros [|k'] c' Hlt Hk'; [injection Hk' as <-; exact Hx|].
           apply (Hbefore k' c'); [lia | exact Hk'].
      * intros (k & c & p & -> & Hk & Hc & Hbefore).
        destruct k as [|k]; [injection Hk as <-; congruence|].
        exists k, c, p. repeat split; auto.
        -- f_equal. lia.
        -- intros k' c' Hlt Hk'. apply (Hbefore (S k') c'); [lia | exact Hk'].
Qed.

Lemma first_some_app (i : nat) (l1 l2 : list A) :
  first_some f i (l1 ++ l2)
  = match first_some f i l1 with
    | Some p => Some p
    | None => first_some f (i + length l1) l2
    end.
Proof.
  revert i. induction l1 as [|x l1 IH]; intros i; cbn.
  - now rewrite Nat.add_0_r.
  - destruct (f x); [reflexivity|]. rewrite IH.
    destruct (first_some f (S i) l1); [reflexivity|].
    f_equal. cbn. lia.
Qed.

Lemma first_some_is_Some (i j : nat) (l : list A) :
  is_Some (first_some f i l) -> is_Some (first_some f j l).
Proof.
  revert i j. induction l as [|x l IH]; intros i j; cbn; [exact id|].
  destruct (f x); [eauto | apply IH].
Qed.

End FirstSome.

Lemma first_some_ext {A B : Type} (f : A -> option path) (g : B -> option path)
    (h : A -> B) (i : nat) (l : list A) :
  (forall c, c ∈ l -> g (h c) = f c) ->
  first_some g i (List.map h l) = first_some f i l.
Proof.
  revert i. induction l as [|x l IH]; intros i Hfg; cbn; [reflexivity|].
  rewrite Hfg by (left). destruct (f x); [reflexivity|].
  apply IH. intros c Hc. apply Hfg. now right.
Qed.

(** ** What does not depend on listeners *)

Lemma erase_clicks_shape (n : node) : shape_of (erase_clicks n) = shape_of n.
Proof. now destruct n. Qed.

Lemma erase_clicks_children (n : node) :
  children_of (erase_clicks n) = List.map erase_clicks (children_of n).
Proof. now destruct n. Qed.

Lemma first_in_node_erase (P : list shape -> shape -> bool) (n : node) :
  forall ancs, first_in_node P ancs (erase_clicks n) = first_in_node P ancs n.
Proof.
  induction n as [s|t a l ch IH] using node_induction; intros ancs;
    [reflexivity|].
  cbn. destruct (P ancs (t, a)); [reflexivity|].
  apply first_some_ext. intros c Hc.
  rewrite Forall_forall in IH. now apply IH.
Qed.

Lemma first_in_list_erase (P : list shape -> shape -> bool) (ancs : list shape)
    (i : nat) (l : list node) :
  first_in_list P ancs i (List.map erase_clicks l) = first_in_list P ancs i l.
Proof.
  unfold first_in_list. apply first_some_ext.
  intros c _. apply first_in_node_erase.
Qed.

Lemma count_in_node_erase (c : compound) (n : node) :
  count_in_node c (erase_clicks n) = count_in_node c n.
Proof.
  induction n as [s|t a l ch IH] using node_induction; [reflexivity|].
  cbn. f_equal. f_equal. rewrite List.map_map.
  apply List.map_ext_in. intros x Hx.
  rewrite Forall_forall in IH. apply IH. now apply list_elem_of_In.
Qed.

Lemma count_in_list_erase (c : compound) (l : list node) :
  count_in_list c (List.map erase_clicks l) = count_in_list c l.
Proof.
  unfold count_in_list. f_equal. rewrite List.map_map.
  apply List.map_ext. intros x. apply count_in_node_erase.
Qed.

Lemma node_at_erase (p : path) (n : node) :
  node_at p (erase_clicks n) = erase_clicks <$> node_at p n.
Proof.
  revert n. induction p as [|i p IH]; intros n; [reflexivity|].
  destruct n as [s|t a l ch]; [reflexivity|]. cbn.
  rewrite list_lookup_fmap. destruct (ch !! i) as [c|]; cbn; [apply IH | reflexivity].
Qed.

Lemma ancestors_at_erase (p : path) (n : node) (acc : list shape) :
  ancestors_at acc p (erase_clicks n) = ancestors_at acc p n.
Proof.
  revert n acc. induction p as [|i p IH]; intros n acc; [reflexivity|].
  destruct n as [s|t a l ch]; [reflexivity|]. cbn.
  rewrite list_lookup_fmap. destruct (ch !! i) as [c|]; cbn; [apply IH | reflexivity].
Qed.

Lemma querySelector_erase (s : selector) (doc : node) :
  querySelector s (erase_clicks doc) = querySelector s doc.
Proof. apply first_in_node_erase. Qed.

Lemma getElementById_erase (i : string) (doc : node) :
  getElementById i (erase_clicks doc) = getElementById i doc.
Proof. apply first_in_node_erase. Qed.

Lemma element_querySelector_erase (s : selector) (host : path) (doc : node) :
  element_querySelector s host (erase_clicks doc)
  = element_querySelector s host doc.
Proof.
  unfold element_querySelector. rewrite node_at_erase, ancestors_at_erase.
  destruct (node_at host doc) as [e|]; [|reflexivity]. cbn.
  rewrite erase_clicks_shape, erase_clicks_children.
  now rewrite first_in_list_erase.
Qed.

(** ** Updating at a path *)

Lemma keeps_shape_with_children (F : node -> list node -> list node) :
  keeps_shape (fun e => with_children (F e) e).
Proof. intros [s|t a l ch]; cbn; eauto. Qed.

Lemma keeps_shape_with_click (h : listener) : keeps_shape (with_click h).
Proof. intros [s|t a l ch]; cbn; eauto. Qed.

Lemma keeps_shape_shape_of (g : node -> node) (e : node) :
  keeps_shape g -> shape_of (g e) = shape_of e.
Proof.
  intros Hg. specialize (Hg e). destruct e as [s|t a l ch].
  - now rewrite Hg.
  - destruct Hg as (l' & ch' & ->). reflexivity.
Qed.

Lemma node_at_update_at (p : path) (g : node -> node) (doc e : node) :
  node_at p doc = Some e -> node_at p (update_at p g doc) = Some (g e).
Proof.
  revert doc. induction p as [|i p IH]; intros doc Hn.
  - cbn in *. congruence.
  - destruct doc as [s|t a l ch]; [discriminate|]. cbn in *.
    rewrite list_lookup_alter_eq. destruct (ch !! i) as [c|]; [|discriminate].
    cbn in *. now apply IH.
Qed.

Lemma ancestors_at_update_at (p : path) (g : node -> node) (doc : node)
    (acc : list shape) :
  ancestors_at acc p (update_at p g doc) = ancestors_at acc p doc.
Proof.
  revert doc acc. induction p as [|i p IH]; intros doc acc; [reflexivity|].
  destruct doc as [s|t a l ch]; [reflexivity|]. cbn.
  rewrite list_lookup_alter_eq. destruct (ch !! i) as [c|]; cbn; [apply IH | reflexivity].
Qed.

Lemma erase_update_click (q : path) (h : listener) (n : node) :
  erase_clicks (update_at q (with_click h) n) = erase_clicks n.
Proof.
  revert n. induction q as [|i q IH]; intros n.
  - now destruct n.
  - destruct n as [s|t a l ch]; [reflexivity|]. cbn. f_equal.
    apply list_eq. intros k. rewrite !list_lookup_fmap.
    destruct (decide (i = k)) as [->|Hne].
    + rewrite list_lookup_alter_eq. destruct (ch !! k); cbn; [|reflexivity].
      now rewrite IH.
    + now rewrite list_lookup_alter_ne.
Qed.

Lemma erase_wire_logout `{Platform} (lo : option path) (doc : node) :
  erase_clicks (wire_logout lo doc) = erase_clicks doc.
Proof.
  destruct lo as [p|]; [|reflexivity]. apply erase_update_click.
Qed.

Lemma erase_update_at (p : path) (g g' : node -> node) (n : node) :
  (forall e, erase_clicks (g e) = g' (erase_clicks e)) ->
  erase_clicks (update_at p g n) = update_at p g' (erase_clicks n).
Proof.
  intros Hg. revert n. induction p as [|i p IH]; intros n; [apply Hg|].
  destruct n as [s|t a l ch]; [reflexivity|]. cbn. f_equal.
  apply list_eq. intros k. rewrite list_lookup_fmap.
  destruct (decide (i = k)) as [->|Hne].
  - rewrite !list_lookup_alter_eq, list_lookup_fmap.
    destruct (ch !! k); cbn; [|reflexivity]. now rewrite IH.
  - rewrite !list_lookup_alter_ne by exact Hne. now rewrite list_lookup_fmap.
Qed.

(** ** Where the first match is *)

Section FirstMatch.
Context (P : list shape -> shape -> bool).

Lemma first_in_node_found (p : path) (doc : node) (ancs : list shape) :
  first_in_node P ancs doc = Some p ->
  exists t a l ch, node_at p doc = Some (Elem t a l ch)
                   /\ P (ancestors_at ancs p doc) (t, a) = true.
Proof.
  revert doc ancs. induction p as [|i p IH]; intros doc ancs Hf;
    destruct doc as [s|t a l ch]; try discriminate; cbn in Hf.
  - destruct (P ancs (t, a)) eqn:HP.
    + exists t, a, l, ch. split; [reflexivity | exact HP].
    + apply first_some_Some in Hf as (k & c & q & Hq & _). discriminate.
  - destruct (P ancs (t, a)) eqn:HP; [discriminate|].
    apply first_some_Some in Hf as (k & c & q & Hq & Hk & Hc & _).
    cbn in Hq. injection Hq as <- <-. cbn. rewrite Hk. cbn.
    now apply IH.
Qed.

(** A change below the first match leaves it the first match. *)
Lemma first_in_node_stable (p : path) (g : node -> node) (doc : node)
    (ancs : list shape) :
  keeps_shape g ->
  first_in_node P ancs doc = Some p ->
  first_in_node P ancs (update_at p g doc) = Some p.
Proof.
  intros Hg. revert doc ancs. induction p as [|i p IH]; intros doc ancs Hf;
    destruct doc as [s|t a l ch]; try discriminate; cbn in Hf.
  - destruct (P ancs (t, a)) eqn:HP.
    + cbn. destruct (Hg (Elem t a l ch)) as (l' & ch' & ->). cbn. now rewrite HP.
    + apply first_some_Some in Hf as (k & c & q & Hq & _). discriminate.
  - destruct (P ancs (t, a)) eqn:HP; [discriminate|].
    apply first_some_Some in Hf as (k & c & q & Hq & Hk & Hc & Hbefore).
    cbn in Hq. injection Hq as <- <-. cbn. rewrite HP.
    apply first_some_Some. exists i, (update_at p g c), p.
    repeat split.
    + rewrite list_lookup_alter_eq, Hk. reflexivity.
    + now apply IH.
    + intros k' c' Hlt Hk'. rewrite list_lookup_alter_ne in Hk' by lia.
      now apply (Hbefore k' c').
Qed.

(** No match in the document: none in the subtree at [p] either. *)
Lemma first_in_node_none_below (p : path) (doc e : node) (ancs : list shape) :
  first_in_node P ancs doc = None ->
  node_at p doc = Some e ->
  first_in_node P (ancestors_at ancs p doc) e = None.
Proof.
  revert doc ancs. induction p as [|i p IH]; intros doc ancs Hf Hn.
  - cbn in *. congruence.
  - destruct doc as [s|t a l ch]; [discriminate|]. cbn in *.
    destruct (P ancs (t, a)); [discriminate|].
    destruct (ch !! i) as [c|] eqn:Hc; [|discriminate]. cbn in Hn.
    apply IH; [|exact Hn].
    now apply (proj1 (first_some_None _ _ _) Hf i c).
Qed.

(** No match in the document, and none among the new children of the node
    at [p]: no match after the change. *)
Lemma first_in_node_still_none (p : path) (g : node -> node) (doc e : node)
    (ancs : list shape) :
  keeps_shape g ->
  first_in_node P ancs doc = None ->
  node_at p doc = Some e ->
  first_in_list P (shape_of e :: ancestors_at ancs p doc) 0
                (children_of (g e)) = None ->
  first_in_node P ancs (update_at p g doc) = None.
Proof.
  intros Hg. revert doc ancs. induction p as [|i p IH]; intros doc ancs Hf Hn Hnew.
  - cbn in *. injection Hn as ->. destruct e as [s|t a l ch].
    + now rewrite (Hg (Text s)).
    + destruct (Hg (Elem t a l ch)) as (l' & ch' & Hge). rewrite Hge in *.
      cbn in *. destruct (P ancs (t, a)); [discriminate | exact Hnew].
  - destruct doc as [s|t a l ch]; [discriminate|]. cbn in *.
    destruct (P ancs (t, a)); [discriminate|].
    destruct (ch !! i) as [c|] eqn:Hc; [|discriminate]. cbn in Hn.
    apply first_some_None. intros k c' Hk.
    destruct (decide (i = k)) as [<-|Hne].
    + rewrite list_lookup_alter_eq, Hc in Hk. injection Hk as <-.
      apply IH; auto. now apply (proj1 (first_some_None _ _ _) Hf i c).
    + rewrite list_lookup_alter_ne in Hk by exact Hne.
      now apply (proj1 (first_some_None _ _ _) Hf k c').
Qed.

End FirstMatch.

(** ** Counting matches *)

Lemma list_sum_zero (l : list nat) :
  list_sum l = 0%nat <-> forall x, x ∈ l -> x = 0%nat.
Proof.
  induction l as [|y l IH].
  - split; [intros _ x Hx; inversion Hx | reflexivity].
  - change (list_sum (y :: l)) with (y + list_sum l)%nat. split.
    + intros Hs x Hx. apply elem_of_cons in Hx as [->|Hx]; [lia|].
      apply IH; [lia | exact Hx].
    + intros Hall. rewrite (Hall y) by left.
      apply IH. intros x Hx. apply Hall. now right.
Qed.

Lemma count_in_list_app (c : compound) (l1 l2 : list node) :
  count_in_list c (l1 ++ l2) = (count_in_list c l1 + count_in_list c l2)%nat.
Proof. unfold count_in_list. now rewrite List.map_app, list_sum_app. Qed.

Lemma count_in_list_zero (c : compound) (l : list node) :
  count_in_list c l = 0%nat <-> forall n, n ∈ l -> count_in_node c n = 0%nat.
Proof.
  unfold count_in_list. rewrite list_sum_zero. split.
  - intros Hall n Hn. apply Hall. apply list_elem_of_In, List.in_map.
    now apply list_elem_of_In.
  - intros Hall x Hx. apply list_elem_of_In, List.in_map_iff in Hx
      as (n & <- & Hn). apply Hall. now apply list_elem_of_In.
Qed.

(** No element matches the target compound: the selector finds nothing. *)
Lemma count_zero_first_none (s : selector) (n : node) :
  forall ancs, count_in_node (target s) n = 0%nat ->
               first_in_node (matches s) ancs n = None.
Proof.
  induction n as [x|t a l ch IH] using node_induction; intros ancs Hc;
    [reflexivity|].
  cbn in Hc. cbn. unfold matches at 1.
  destruct (matches_compound (target s) (t, a)); [discriminate|]. cbn.
  apply first_some_None. intros k c Hk.
  rewrite Forall_forall in IH. apply IH.
  - eapply list_elem_of_lookup_2, Hk.
  - apply (proj1 (count_in_list_zero _ _) Hc). eapply list_elem_of_lookup_2, Hk.
Qed.

Lemma count_zero_first_in_list_none (s : selector) (ancs : list shape)
    (i : nat) (l : list node) :
  count_in_list (target s) l = 0%nat ->
  first_in_list (matches s) ancs i l = None.
Proof.
  intros Hc. apply first_some_None. intros k c Hk.
  apply count_zero_first_none.
  apply (proj1 (count_in_list_zero _ _) Hc). eapply list_elem_of_lookup_2, Hk.
Qed.

(** For a selector without combinators the converse holds as well. *)
Lemma first_none_count_zero (s : selector) (n : node) :
  above s = [] ->
  forall ancs, first_in_node (matches s) ancs n = None ->
               count_in_node (target s) n = 0%nat.
Proof.
  intros Hs. induction n as [x|t a l ch IH] using node_induction;
    intros ancs Hf; [reflexivity|].
  cbn in Hf. cbn. unfold matches at 1 in Hf. rewrite Hs in Hf. cbn in Hf.
  rewrite andb_true_r in Hf.
  destruct (matches_compound (target s) (t, a)); [discriminate|]. cbn.
  apply count_in_list_zero. intros c Hc.
  rewrite Forall_forall in IH. apply (IH c Hc ((t, a) :: ancs)).
  apply list_elem_of_lookup_1 in Hc as [k Hk].
  now apply (proj1 (first_some_None _ _ _) Hf k c).
Qed.

Lemma first_in_list_none_count_zero (s : selector) (ancs : list shape)
    (i : nat) (l : list node) :
  above s = [] ->
  first_in_list (matches s) ancs i l = None ->
  count_in_list (target s) l = 0%nat.
Proof.
  intros Hs Hf. apply count_in_list_zero. intros c Hc.
  apply (first_none_count_zero s c Hs ancs).
  apply list_elem_of_lookup_1 in Hc as [k Hk].
  now apply (proj1 (first_some_None _ _ _) Hf k c).
Qed.

Lemma count_pos_first_in_list (s : selector) (ancs : list shape)
    (i : nat) (l : list node) :
  above s = [] ->
  (0 < count_in_list (target s) l)%nat ->
  is_Some (first_in_list (matches s) ancs i l).
Proof.
  intros Hs Hc. destruct (first_in_list (matches s) ancs i l) eqn:Hf; [eauto|].
  apply first_in_list_none_count_zero in Hf; [lia | exact Hs].
Qed.

(** ** The node at a path, up to listeners *)

Lemma node_at_same_erasure (p : path) (doc doc' e : node) :
  erase_clicks doc' = erase_clicks doc ->
  node_at p doc = Some e ->
  exists e', node_at p doc' = Some e' /\ erase_clicks e' = erase_clicks e.
Proof.
  intros Hd Hn.
  pose proof (node_at_erase p doc') as H1. rewrite Hd, node_at_erase, Hn in H1.
  destruct (node_at p doc') as [e'|]; [|discriminate].
  exists e'. cbn in H1. split; [reflexivity | congruence].
Qed.

Lemma same_erasure_children (e e' : node) :
  erase_clicks e' = erase_clicks e ->
  List.map erase_clicks (children_of e') = List.map erase_clicks (children_of e).
Proof. intros He. now rewrite <- !erase_clicks_children, He. Qed.

Lemma same_erasure_count (c : compound) (e e' : node) :
  erase_clicks e' = erase_clicks e ->
  count_in_list c (children_of e') = count_in_list c (children_of e).
Proof.
  intros He. rewrite <- (count_in_list_erase c (children_of e')).
  rewrite (same_erasure_children _ _ He). apply count_in_list_erase.
Qed.

Lemma same_erasure_shape (e e' : node) :
  erase_clicks e' = erase_clicks e -> shape_of e' = shape_of e.
Proof. intros He. now rewrite <- (erase_clicks_shape e'), He, erase_clicks_shape. Qed.

(* ===================================================================== *)
(** * Proofs: page mount controller *)
(* ===================================================================== *)

Section MountFacts.
Context `{Platform}.

(** ** Appending children to the node at a path *)

Lemma querySelector_none_after_append (s : selector) (host : path)
    (F : node -> list node) (doc e : node) :
  node_at host doc = Some e ->
  count_in_list (target s) (F e) = 0%nat ->
  querySelector s doc = None ->
  querySelector s
    (update_at host (fun x => with_children (fun ch => ch ++ F x) x) doc)
  = None.
Proof.
  intros Hn Hc Hq. unfold querySelector in *.
  apply (first_in_node_still_none _ host _ doc e); auto.
  { apply (keeps_shape_with_children (fun x ch => ch ++ F x)). }
  pose proof (first_in_node_none_below _ host doc e [] Hq Hn) as Hbelow.
  destruct e as [x|t a l ch]; [reflexivity|]. cbn in Hbelow |- *.
  destruct (matches s (ancestors_at [] host doc) (t, a)); [discriminate|].
  unfold first_in_list. rewrite first_some_app.
  match goal with
  | |- match ?x with _ => _ end = _ =>
      replace x with (@None path) by (symmetry; exact Hbelow)
  end.
  now apply count_zero_first_in_list_none.
Qed.

Lemma querySelector_stable_after_append (s : selector) (host : path)
    (F : node -> list node) (doc : node) :
  querySelector s doc = Some host ->
  querySelector s
    (update_at host (fun x => with_children (fun ch => ch ++ F x) x) doc)
  = Some host.
Proof.
  intros Hq. apply first_in_node_stable; [|exact Hq].
  apply (keeps_shape_with_children (fun x ch => ch ++ F x)).
Qed.

(** ** [mountNav] *)

Lemma find_host_found (doc : node) (host : path) :
  AuthJsMount.find_host doc = Some host ->
  exists t a l ch, node_at host doc = Some (Elem t a l ch).
Proof.
  unfold AuthJsMount.find_host, querySelector. intros Hf.
  destruct (first_in_node _ [] doc) as [p|] eqn:H1.
  { injection Hf as <-. apply first_in_node_found in H1
      as (t & a & l & ch & Hn & _). eauto. }
  destruct (first_in_node (matches sel_header_header_inner) [] doc) as [p|] eqn:H2.
  { injection Hf as <-. apply first_in_node_found in H2
      as (t & a & l & ch & Hn & _). eauto. }
  apply first_in_node_found in Hf as (t & a & l & ch & Hn & _). eauto.
Qed.

Lemma find_host_same_erasure (doc doc' : node) :
  erase_clicks doc' = erase_clicks doc ->
  AuthJsMount.find_host doc' = AuthJsMount.find_host doc.
Proof.
  intros He. unfold AuthJsMount.find_host.
  rewrite <- !(querySelector_erase _ doc'), He, !querySelector_erase.
  reflexivity.
Qed.

Lemma find_host_after_append (host : path) (F : node -> list node)
    (doc e : node) :
  AuthJsMount.find_host doc = Some host ->
  node_at host doc = Some e ->
  count_in_list (by_class "header-inner") (F e) = 0%nat ->
  AuthJsMount.find_host
    (update_at host (fun x => with_children (fun ch => ch ++ F x) x) doc)
  = Some host.
Proof.
  intros Hf Hn Hc. unfold AuthJsMount.find_host in *.
  destruct (querySelector sel_header_inner doc) as [p|] eqn:H1.
  { injection Hf as ->.
    now rewrite (querySelector_stable_after_append _ host F doc H1). }
  rewrite (querySelector_none_after_append sel_header_inner host F doc e
             Hn Hc H1).
  destruct (querySelector sel_header_header_inner doc) as [p|] eqn:H2.
  { injection Hf as ->.
    now rewrite (querySelector_stable_after_append _ host F doc H2). }
  rewrite (querySelector_none_after_append sel_header_header_inner host F
             doc e Hn Hc H2).
  now apply querySelector_stable_after_append.
Qed.

Lemma element_query_after_append (s : selector) (host : path)
    (F : node -> list node) (doc e : node) :
  above s = [] ->
  node_at host doc = Some e ->
  (exists t a l ch, e = Elem t a l ch) ->
  (0 < count_in_list (target s) (F e))%nat ->
  is_Some (element_querySelector s host
             (update_at host (fun x => with_children (fun ch => ch ++ F x) x)
                        doc)).
Proof.
  intros Hs Hn (t & a & l & ch & ->) Hc. unfold element_querySelector.
  rewrite (node_at_update_at _ _ _ _ Hn), ancestors_at_update_at. cbn.
  apply fmap_is_Some. unfold first_in_list. rewrite first_some_app.
  destruct (first_some _ 0 ch); [eauto|].
  now apply count_pos_first_in_list.
Qed.

Lemma mountNav_no_host (w : world) :
  AuthJsMount.find_host (document w) = None ->
  AuthJsMount.mountNav w = Normal w.
Proof. intros Hf. unfold AuthJsMount.mountNav. now rewrite Hf. Qed.

Lemma mountNav_guard (w : world) (host : path) :
  AuthJsMount.find_host (document w) = Some host ->
  is_Some (element_querySelector (by_id "pw-nav") host (document w)) ->
  AuthJsMount.mountNav w = Normal w.
Proof.
  intros Hf [q Hq]. unfold AuthJsMount.mountNav. now rewrite Hf, Hq.
Qed.

Lemma mountNav_inject (w : world) (host : path) (html : string) :
  AuthJsMount.find_host (document w) = Some host ->
  element_querySelector (by_id "pw-nav") host (document w) = None ->
  AuthJs.navHTML (storage w) = Normal html ->
  exists doc',
    AuthJsMount.mountNav w = Normal (with_document doc' w)
    /\ erase_clicks doc'
       = erase_clicks (insertAdjacentHTML_beforeend host html (document w)).
Proof.
  intros Hf Hq Hh. unfold AuthJsMount.mountNav. rewrite Hf, Hq, Hh. cbn.
  eexists. split; [reflexivity|]. apply erase_wire_logout.
Qed.

(** [mountNav] completes when the markup can be rendered, and an
    injection has rendered it. *)
Lemma mountNav_completes (w : world) :
  completes (AuthJs.navHTML (storage w)) ->
  exists w', AuthJsMount.mountNav w = Normal w'.
Proof.
  intros [html Hh]. unfold AuthJsMount.mountNav.
  destruct (AuthJsMount.find_host (document w)) as [host|]; [|eauto].
  destruct (element_querySelector _ host _); [eauto|].
  rewrite Hh. cbn. eauto.
Qed.

Lemma mountNav_rendered (w w' : world) (host : path) :
  AuthJsMount.find_host (document w) = Some host ->
  element_querySelector (by_id "pw-nav") host (document w) = None ->
  AuthJsMount.mountNav w = Normal w' ->
  exists html, AuthJs.navHTML (storage w) = Normal html.
Proof.
  intros Hf Hq. unfold AuthJsMount.mountNav. rewrite Hf, Hq.
  destruct (AuthJs.navHTML (storage w)) as [html|]; [eauto | discriminate].
Qed.


(** The host after an injection: its former children, then the parsed
    markup, up to listeners. *)
Lemma mountNav_host_children (w w' : world) (host : path) (e : node)
    (html : string) :
  AuthJsMount.find_host (document w) = Some host ->
  node_at host (document w) = Some e ->
  element_querySelector (by_id "pw-nav") host (document w) = None ->
  AuthJs.navHTML (storage w) = Normal html ->
  AuthJsMount.mountNav w = Normal w' ->
  exists e',
    node_at host (document w') = Some e'
    /\ shape_of e' = shape_of e
    /\ List.map erase_clicks (children_of e')
       = List.map erase_clicks
           (children_of e ++ parse_fragment (shape_of e) html).
Proof.
  intros Hf Hn Hq Hh Hm.
  destruct (mountNav_inject w host html Hf Hq Hh) as (doc' & Hm' & He).
  rewrite Hm' in Hm. injection Hm as <-. cbn.
  destruct (find_host_found _ _ Hf) as (t & a & l & ch & Hn').
  rewrite Hn in Hn'. injection Hn' as ->.
  unfold insertAdjacentHTML_beforeend in He.
  pose proof (node_at_update_at host
                (fun x => with_children
                            (fun c => c ++ parse_fragment (shape_of x) html) x)
                _ _ Hn) as Hn1.
  destruct (node_at_same_erasure host _ doc' _ He Hn1) as (e' & Hn2 & He').
  exists e'. split; [exact Hn2|]. split.
  - now rewrite (same_erasure_shape _ _ He').
  - now rewrite (same_erasure_children _ _ He').
Qed.

End MountFacts.

Section HeaderFacts.
Context `{Platform}.

Lemma node_at_app (p q : path) (doc : node) :
  node_at (p ++ q) doc = node_at p doc ≫= node_at q.
Proof.
  revert doc. induction p as [|i p IH]; intros doc; [reflexivity|].
  destruct doc as [s|t a l ch]; [reflexivity|]. cbn.
  destruct (ch !! i) as [c|]; cbn; [apply IH | reflexivity].
Qed.

Lemma index_where_found (Q : node -> bool) (i k : nat) (l : list node) :
  index_where Q i l = Some k ->
  exists c, l !! (k - i)%nat = Some c /\ Q c = true /\ (i <= k)%nat.
Proof.
  revert i. induction l as [|c l IH]; intros i Hi; [discriminate|].
  cbn in Hi. destruct (Q c) eqn:HQ.
  - injection Hi as <-. exists c. rewrite Nat.sub_diag. auto.
  - destruct (IH _ Hi) as (c' & Hc' & HQ' & Hle). exists c'.
    replace (k - i)%nat with (S (k - S i)) by lia. cbn. split; [exact Hc'|].
    split; [exact HQ' | lia].
Qed.

Lemma document_body_found (doc : node) (b : path) :
  document_body doc = Some b ->
  exists t a l ch, node_at b doc = Some (Elem t a l ch).
Proof.
  destruct doc as [s|t a l ch]; [discriminate|]. cbn.
  destruct (String.eqb t "html"); [|discriminate].
  destruct (index_where is_body 0 ch) as [k|] eqn:Hk; [|discriminate].
  intros [= <-]. apply index_where_found in Hk as (c & Hc & Hb & _).
  rewrite Nat.sub_0_r in Hc. cbn. rewrite Hc. cbn.
  destruct c as [s|t' a' l' ch']; [discriminate|]. eauto.
Qed.

(** The fresh header is the first child of the body. *)
Lemma node_at_prepended (b : path) (n doc : node) :
  (exists t a l ch, node_at b doc = Some (Elem t a l ch)) ->
  node_at (b ++ [0%nat]) (prepend b n doc) = Some n.
Proof.
  intros (t & a & l & ch & Hb). rewrite node_at_app. unfold prepend.
  rewrite (node_at_update_at _ _ _ _ Hb). reflexivity.
Qed.

Lemma set_innerHTML_node (host : path) (html : string) (doc e : node) :
  node_at host doc = Some e ->
  node_at host (set_innerHTML host html doc)
  = Some (with_children (fun _ => parse_fragment (shape_of e) html) e).
Proof.
  intros Hn. unfold set_innerHTML.
  exact (node_at_update_at host
           (fun x => with_children (fun _ => parse_fragment (shape_of x) html) x)
           doc e Hn).
Qed.

Lemma mountHeader_found (w : world) (host : path) (html : string) :
  querySelector sel_header (document w) = Some host ->
  HeaderJs.headerHTML (storage w) = Normal html ->
  exists doc',
    HeaderJsMount.mountHeader w = Normal (with_document doc' w)
    /\ erase_clicks doc' = erase_clicks (set_innerHTML host html (document w)).
Proof.
  intros Hq Hh. unfold HeaderJsMount.mountHeader, HeaderJsMount.mountHeader_steps,
    HeaderJsMount.ensure_host. rewrite Hq. cbn.
  rewrite Hh. cbn. eexists. split; [reflexivity | apply erase_wire_logout].
Qed.

Lemma mountHeader_created (w : world) (b : path) (html : string) :
  querySelector sel_header (document w) = None ->
  document_body (document w) = Some b ->
  HeaderJs.headerHTML (storage w) = Normal html ->
  exists doc',
    HeaderJsMount.mountHeader w = Normal (with_document doc' w)
    /\ erase_clicks doc'
       = erase_clicks (set_innerHTML (b ++ [0%nat]) html
                         (prepend b new_header (document w))).
Proof.
  intros Hq Hb Hh. unfold HeaderJsMount.mountHeader, HeaderJsMount.mountHeader_steps,
    HeaderJsMount.ensure_host. rewrite Hq, Hb. cbn.
  rewrite Hh. cbn. eexists. split; [reflexivity | apply erase_wire_logout].
Qed.

Lemma inline_mountHeader_created (w : world) (b : path) :
  querySelector sel_header (document w) = None ->
  document_body (document w) = Some b ->
  HeaderInlineMount.mountHeader w
  = Normal (with_document (prepend b new_header (document w)) w).
Proof.
  intros Hq Hb. unfold HeaderInlineMount.mountHeader. now rewrite Hq, Hb.
Qed.

(** A call that returns has rendered the markup. *)
Lemma mountHeader_rendered (w w' : world) :
  HeaderJsMount.mountHeader w = Normal w' ->
  exists html, HeaderJs.headerHTML (storage w) = Normal html.
Proof.
  unfold HeaderJsMount.mountHeader, HeaderJsMount.mountHeader_steps.
  destruct (HeaderJsMount.ensure_host (document w)) as [[host doc0]|];
    [|discriminate].
  destruct (HeaderJs.headerHTML (storage w)) as [html|]; [eauto|discriminate].
Qed.

Lemma inline_mountHeader_rendered (w w' : world) (host : path) :
  querySelector sel_header (document w) = Some host ->
  HeaderInlineMount.mountHeader w = Normal w' ->
  exists html, HeaderInline.headerHTML (storage w) = Normal html.
Proof.
  intros Hq. unfold HeaderInlineMount.mountHeader. rewrite Hq. cbn.
  destruct (HeaderInline.headerHTML (storage w)) as [html|];
    [eauto|discriminate].
Qed.



(** The host after [mountHeader]: the parsed markup and nothing else. *)
Lemma mountHeader_host_children (w w' : world) (host : path) (e : node) :
  querySelector sel_header (document w) = Some host ->
  node_at host (document w) = Some e ->
  HeaderJsMount.mountHeader w = Normal w' ->
  exists e' html,
    HeaderJs.headerHTML (storage w) = Normal html
    /\ node_at host (document w') = Some e'
    /\ shape_of e' = shape_of e
    /\ List.map erase_clicks (children_of e')
       = List.map erase_clicks (parse_fragment (shape_of e) html).
Proof.
  intros Hq Hn Hm. destruct (mountHeader_rendered w w' Hm) as [html Hh].
  destruct (mountHeader_found w host html Hq Hh) as (doc' & Hm' & He).
  rewrite Hm' in Hm. injection Hm as <-. cbn.
  destruct (first_in_node_found _ _ _ _ Hq) as (t & a & l & ch & Hn' & _).
  rewrite Hn in Hn'. injection Hn' as ->.
  pose proof (set_innerHTML_node host html _ _ Hn) as Hn1.
  destruct (node_at_same_erasure host _ doc' _ He Hn1) as (e' & Hn2 & He').
  exists e', html. split; [exact Hh|]. split; [exact Hn2|]. split.
  - now rewrite (same_erasure_shape _ _ He').
  - now rewrite (same_erasure_children _ _ He').
Qed.

(** ** Clicks *)


End HeaderFacts.

Section ExactChildren.
Context `{Platform}.

Lemma node_at_update_below (p r : path) (g : node -> node) (doc e : node) :
  node_at p doc = Some e ->
  node_at p (update_at (p ++ r) g doc) = Some (update_at r g e).
Proof.
  revert doc. induction p as [|i p IH]; intros doc Hn.
  - cbn in *. congruence.
  - destruct doc as [s|t a l ch]; [discriminate|]. cbn in *.
    rewrite list_lookup_alter_eq. destruct (ch !! i) as [c|]; [|discriminate].
    cbn in *. now apply IH.
Qed.

Lemma first_some_from (f : node -> option path) (i : nat) (l : list node)
    (q : path) :
  first_some f i l = Some q ->
  exists k r, q = (i + k)%nat :: r /\ (k < length l)%nat.
Proof.
  intros Hq. apply first_some_Some in Hq as (k & c & r & -> & Hk & _).
  exists k, r. split; [reflexivity|]. now apply lookup_lt_Some in Hk.
Qed.

(** The listener goes to a node of the injected markup when the host held
    no [#pw-logout] before: the former children are untouched. *)
Lemma wire_logout_after_append (host : path) (doc : node) (t : string)
    (a : list (string * string)) (l : list listener) (ch added : list node) :
  node_at host doc = Some (Elem t a l (ch ++ added)) ->
  count_in_list logout_control ch = 0%nat ->
  exists added',
    node_at host
      (wire_logout (element_querySelector (by_id "pw-logout") host doc) doc)
    = Some (Elem t a l (ch ++ added'))
    /\ List.map erase_clicks added' = List.map erase_clicks added.
Proof.
  intros Hn Hc. unfold element_querySelector. rewrite Hn. cbn.
  unfold first_in_list. rewrite first_some_app.
  match goal with
  | |- context [first_some ?f 0%nat ch] =>
      replace (first_some f 0%nat ch) with (@None path)
        by (symmetry;
            apply (count_zero_first_in_list_none (by_id "pw-logout") _ 0 ch Hc))
  end.
  destruct (first_some _ (0 + length ch) added) as [q|] eqn:Hq; cbn.
  - apply first_some_from in Hq as (k & r & -> & Hk).
    unfold addEventListener. rewrite (node_at_update_below _ _ _ _ _ Hn). cbn.
    rewrite alter_app_r.
    exists (alter (update_at r (with_click (LogoutThenGoto "login.html"))) k added).
    split; [reflexivity|].
    apply list_eq. intros j. rewrite !list_lookup_fmap.
    destruct (decide (k = j)) as [->|Hne].
    + rewrite list_lookup_alter_eq. destruct (added !! j); cbn; [|reflexivity].
      now rewrite erase_update_click.
    + now rewrite list_lookup_alter_ne.
  - exists added. split; [exact Hn | reflexivity].
Qed.

Lemma mountNav_host_children_exact (w w' : world) (host : path) (e : node)
    (html : string) :
  AuthJsMount.find_host (document w) = Some host ->
  node_at host (document w) = Some e ->
  element_querySelector (by_id "pw-nav") host (document w) = None ->
  AuthJs.navHTML (storage w) = Normal html ->
  AuthJsMount.mountNav w = Normal w' ->
  count_in_list logout_control (children_of e) = 0%nat ->
  exists e' added,
    node_at host (document w') = Some e'
    /\ children_of e' = children_of e ++ added
    /\ List.map erase_clicks added
       = List.map erase_clicks (parse_fragment (shape_of e) html).
Proof.
  intros Hf Hn Hq Hh Hm Hc.
  unfold AuthJsMount.mountNav in Hm. rewrite Hf, Hq, Hh in Hm. cbn in Hm.
  injection Hm as <-. cbn.
  destruct (find_host_found _ _ Hf) as (t & a & l & ch & Hn').
  rewrite Hn in Hn'. injection Hn' as ->. cbn in Hc.
  pose proof (node_at_update_at host
                (fun x => with_children
                            (fun c => c ++ parse_fragment (shape_of x) html) x)
                _ _ Hn) as Hn1.
  cbn in Hn1.
  destruct (wire_logout_after_append host _ t a l ch _ Hn1 Hc)
    as (added' & Hn2 & He).
  exists (Elem t a l (ch ++ added')), added'. auto.
Qed.

End ExactChildren.

(** ** The claims about [mount] *)

(** Apply an observation to both sides of an equation and evaluate it. *)
Ltac observe f H := apply (f_equal f) in H; vm_compute in H.





(** C6, as worded: [mountHeader] on a page whose header holds the logo
    does not keep the logo. *)
Lemma mountHeader_is_not_append_only :
  ~ append_only (@HeaderJsMount.mountHeader Ref.platform)
      (querySelector sel_header) header_nav
      (Sample.load Sample.signed_in Sample.plain_header_page).
Proof.
  intros Hc.
  destruct (Hc [1; 0]%nat
              (Elem "header" [("class", "header")] [] [Sample.logo])
              (with_document
                 (Sample.after (@HeaderJsMount.mountHeader Ref.platform)
                    (Sample.load Sample.signed_in Sample.plain_header_page))
                 (Sample.load Sample.signed_in Sample.plain_header_page)))
    as (e' & rendered & Hn & Hch).
  - vm_compute. reflexivity.
  - vm_compute. reflexivity.
  - vm_compute. reflexivity.
  - vm_compute. reflexivity.
  - vm_compute in Hn. injection Hn as <-. vm_compute in Hch. discriminate.
Qed.

(** C6, amended.  Where a host is found and holds no [#pw-nav], [mountNav]
    appends the parsed markup after the host's children; the host and its
    former children keep their tags, attributes, text and nesting, and are
    exactly what they were unless the host already held a [#pw-logout]
    element (which then receives the logout listener).  [mountHeader] does
    not append: it replaces the children of its host by the parsed
    markup. *)
Theorem mountNav_appends_mountHeader_replaces `{Platform} (w w' : world)
    (host : path) (e : node) :
  AuthJsMount.find_host (document w) = Some host ->
  node_at host (document w) = Some e ->
  element_querySelector (by_id "pw-nav") host (document w) = None ->
  AuthJsMount.mountNav w = Normal w' ->
  (exists e' html,
     AuthJs.navHTML (storage w) = Normal html
     /\ node_at host (document w') = Some e'
     /\ shape_of e' = shape_of e
     /\ List.map erase_clicks (children_of e')
        = List.map erase_clicks (children_of e)
          ++ List.map erase_clicks (parse_fragment (shape_of e) html)
     /\ (count_in_list logout_control (children_of e) = 0%nat ->
         exists added, children_of e' = children_of e ++ added))
  /\ (forall hh eh w2,
        querySelector sel_header (document w) = Some hh ->
        node_at hh (document w) = Some eh ->
        HeaderJsMount.mountHeader w = Normal w2 ->
        exists e2 html,
          HeaderJs.headerHTML (storage w) = Normal html
          /\ node_at hh (document w2) = Some e2
          /\ shape_of e2 = shape_of eh
          /\ List.map erase_clicks (children_of e2)
             = List.map erase_clicks (parse_fragment (shape_of eh) html)).
Proof.
  intros Hf Hn Hq Hm. split.
  - destruct (mountNav_rendered w w' host Hf Hq Hm) as [html Hh].
    destruct (mountNav_host_children w w' host e html Hf Hn Hq Hh Hm)
      as (e' & Hn' & Hs & Hch).
    exists e', html. rewrite List.map_app in Hch.
    repeat split; auto.
    intros Hc.
    destruct (mountNav_host_children_exact w w' host e html Hf Hn Hq Hh Hm Hc)
      as (e'' & added & Hn'' & Hadd & _).
    rewrite Hn' in Hn''. injection Hn'' as <-. eauto.
  - intros hh eh w2 Hqh Hnh Hmh.
    now apply (mountHeader_host_children w w2 hh eh).
Qed.

Lemma mountNav_appends_mountHeader_replaces_witness :
  exists e' html,
    @AuthJs.navHTML Ref.platform Sample.signed_in = Normal html
    /\ node_at [1; 0; 0]%nat
         (Sample.after (@AuthJsMount.mountNav Ref.platform)
            (Sample.load Sample.signed_in Sample.site_page)) = Some e'
    /\ List.map erase_clicks (children_of e')
       = List.map erase_clicks [Sample.logo]
         ++ List.map erase_clicks
              (@parse_fragment Ref.platform
                 ("div", [("class", "header-inner glass")]) html)
    /\ exists added, children_of e' = [Sample.logo] ++ added.
Proof.
  destruct (@mountNav_appends_mountHeader_replaces Ref.platform
              (Sample.load Sample.signed_in Sample.site_page)
              (with_document
                 (Sample.after (@AuthJsMount.mountNav Ref.platform)
                    (Sample.load Sample.signed_in Sample.site_page))
                 (Sample.load Sample.signed_in Sample.site_page))
              [1; 0; 0]%nat
              (Elem "div" [("class", "header-inner glass")] [] [Sample.logo]))
    as [(e' & html & Hh & Hn & _ & Hch & Hexact) _].
  - vm_compute. reflexivity.
  - vm_compute. reflexivity.
  - vm_compute. reflexivity.
  - vm_compute. reflexivity.
  - exists e', html. split; [exact Hh|]. split; [exact Hn|].
    split; [exact Hch|]. apply Hexact. vm_compute. reflexivity.
Defined.

(** C4, as worded: [mountHeader] re-renders a host that already holds the
    navigation it injected earlier (here after a logout elsewhere); and
    two calls of [mountNav] leave two [#pw-nav] elements when the stored
    email is markup with a [.header-inner] element. *)
Lemma mount_is_not_idempotent_as_specified :
  ~ returns_when_already_mounted (@HeaderJsMount.mountHeader Ref.platform)
      (querySelector sel_header) header_nav
      (Sample.load ∅ Sample.header_mounted_page)
  /\ ~ twice_leaves_one (@AuthJsMount.mountNav Ref.platform) marker
         (Sample.load Sample.markup_email Sample.plain_header_page).
Proof.
  split; intros Hc.
  - assert (Hm : @HeaderJsMount.mountHeader Ref.platform
                   (Sample.load ∅ Sample.header_mounted_page)
                 = Normal (Sample.load ∅ Sample.header_mounted_page)).
    { eapply (Hc [1; 0]%nat).
      - vm_compute. reflexivity.
      - vm_compute. reflexivity.
      - vm_compute. lia. }
    observe (fun c : completion world =>
               match c with
               | Normal w => count_in_node logout_control (document w)
               | Throw _ => 0%nat
               end) Hm.
    discriminate.
  - remember (@AuthJsMount.mountNav Ref.platform
                (Sample.load Sample.markup_email Sample.plain_header_page)
              ≫= @AuthJsMount.mountNav Ref.platform) as r eqn:Hr.
    destruct r as [w2|e].
    + symmetry in Hr. specialize (Hc w2 Hr).
      apply (f_equal (fun c : completion world =>
                        match c with
                        | Normal w => count_in_node marker (document w)
                        | Throw _ => 0%nat
                        end)) in Hr.
      cbn beta iota in Hr. rewrite Hc in Hr. vm_compute in Hr. discriminate.
    + vm_compute in Hr. discriminate.
Qed.

(** C4, amended.  [mountNav] returns without rendering when the host
    already holds a [#pw-nav] element.  When the markup it injects parses
    to a fragment with exactly one [#pw-nav] element and no [.header-inner]
    element, a second call changes nothing, and a host that held no
    [#pw-nav] holds exactly one afterwards.  [mountHeader] has no such
    guard: each call replaces the children of its host by the freshly
    parsed markup. *)
Theorem mountNav_guard_and_second_call `{Platform} (w w1 : world) :
  AuthJsMount.mountNav w = Normal w1 ->
  (forall host,
     AuthJsMount.find_host (document w) = Some host ->
     is_Some (element_querySelector (by_id "pw-nav") host (document w)) ->
     w1 = w)
  /\ (single_marker_fragment w ->
      AuthJsMount.mountNav w1 = Normal w1
      /\ forall host,
           AuthJsMount.find_host (document w) = Some host ->
           element_querySelector (by_id "pw-nav") host (document w) = None ->
           exists e1, node_at host (document w1) = Some e1
                      /\ count_in_list marker (children_of e1) = 1%nat)
  /\ (forall hh eh w2,
        querySelector sel_header (document w) = Some hh ->
        node_at hh (document w) = Some eh ->
        HeaderJsMount.mountHeader w = Normal w2 ->
        exists e2 html,
          HeaderJs.headerHTML (storage w) = Normal html
          /\ node_at hh (document w2) = Some e2
          /\ List.map erase_clicks (children_of e2)
             = List.map erase_clicks (parse_fragment (shape_of eh) html)).
Proof.
  intros Hm. split; [|split].
  - intros host Hf Hq. rewrite (mountNav_guard w host Hf Hq) in Hm. congruence.
  - intros Hfrag.
    destruct (AuthJsMount.find_host (document w)) as [host|] eqn:Hf.
    2:{ rewrite (mountNav_no_host w Hf) in Hm. injection Hm as <-.
        split; [now apply mountNav_no_host | congruence]. }
    destruct (element_querySelector (by_id "pw-nav") host (document w))
      as [q|] eqn:Hq.
    { rewrite (mountNav_guard w host Hf) in Hm by (rewrite Hq; eauto).
      injection Hm as <-.
      split; [apply (mountNav_guard w host Hf); rewrite Hq; eauto|].
      intros host' [= <-] Hq'. congruence. }
    destruct (mountNav_rendered w w1 host Hf Hq Hm) as [html Hh].
    destruct (find_host_found _ _ Hf) as (t & a & l & ch & Hn).
    destruct (Hfrag host _ html Hf Hn Hh) as [Hone Hnone].
    destruct (mountNav_inject w host html Hf Hq Hh) as (doc' & Hm' & He).
    pose proof Hm as Hm0. rewrite Hm' in Hm. injection Hm as <-.
    unfold insertAdjacentHTML_beforeend in He.
    split.
    + apply (mountNav_guard _ host); cbn.
      * rewrite (find_host_same_erasure _ _ He).
        now apply (find_host_after_append host
                     (fun x => parse_fragment (shape_of x) html) _ _ Hf Hn).
      * rewrite <- element_querySelector_erase, He, element_querySelector_erase.
        apply (element_query_after_append (by_id "pw-nav") host
                 (fun x => parse_fragment (shape_of x) html) _ _ eq_refl Hn).
        -- eauto.
        -- change (target (by_id "pw-nav")) with marker. lia.
    + intros host' [= <-] _.
      destruct (mountNav_host_children w _ host _ html Hf Hn Hq Hh Hm0)
        as (e1 & Hn1 & _ & Hch).
      exists e1. split; [exact Hn1|].
      rewrite <- count_in_list_erase, Hch, count_in_list_erase.
      rewrite count_in_list_app, Hone.
      enough (count_in_list marker (children_of (Elem t a l ch)) = 0%nat) as ->
        by reflexivity.
      unfold element_querySelector in Hq. rewrite Hn in Hq.
      apply fmap_None in Hq.
      now apply (first_in_list_none_count_zero (by_id "pw-nav") _ _ _ eq_refl Hq).
  - intros hh eh w2 Hqh Hnh Hmh.
    destruct (mountHeader_host_children w w2 hh eh Hqh Hnh Hmh)
      as (e2 & html & Hh & Hn2 & _ & Hch).
    eauto.
Qed.

Lemma single_marker_fragment_sample :
  @single_marker_fragment Ref.platform
    (Sample.load Sample.signed_in Sample.plain_header_page).
Proof.
  intros host e html Hf Hn Hh.
  vm_compute in Hf. injection Hf as <-.
  vm_compute in Hn. injection Hn as <-.
  vm_compute in Hh. injection Hh as <-.
  vm_compute. split; reflexivity.
Qed.

Lemma mountNav_guard_and_second_call_witness :
  exists w1,
    @AuthJsMount.mountNav Ref.platform
      (Sample.load Sample.signed_in Sample.plain_header_page) = Normal w1
    /\ @AuthJsMount.mountNav Ref.platform w1 = Normal w1
    /\ exists e1, node_at [1; 0]%nat (document w1) = Some e1
                  /\ count_in_list marker (children_of e1) = 1%nat.
Proof.
  destruct (@mountNav_completes Ref.platform
              (Sample.load Sample.signed_in Sample.plain_header_page))
    as [w1 Hm]; [vm_compute; eauto|].
  exists w1. split; [exact Hm|].
  destruct (@mountNav_guard_and_second_call Ref.platform _ _ Hm)
    as (_ & Hsecond & _).
  destruct (Hsecond single_marker_fragment_sample) as [Hsame Hcount].
  split; [exact Hsame|].
  apply Hcount; vm_compute; reflexivity.
Defined.



(* ===================================================================== *)
(** * Evaluation on the sample stores and pages *)
(* ===================================================================== *)

Section Evaluation.
Local Existing Instance Ref.platform.

(** A login writes both entries; the marker is the base64 of
    [email:timestamp]. *)
Example login_alice :
  Session.login ∅ Sample.alice (num 1700000000000)
  = (Sample.signed_in, Normal tt).
Proof. vm_compute. reflexivity. Qed.

(** [login(null)] has written ["null"] under [pw_user] when reading
    [u.email] throws. *)
Example login_null :
  Session.login ∅ VNull (num 1700000000000)
  = ({[ "pw_user" := "null" ]}, Throw TypeError).
Proof. vm_compute. reflexivity. Qed.

(** A login of an identity whose email does not convert has written
    [pw_user] when the interpolation throws. *)
Example login_unconvertible :
  Session.login ∅ Sample.unconvertible (num 1700000000000)
  = ({[ "pw_user" := qq "{'email':{'toString':1}}" ]}, Throw TypeError).
Proof. vm_compute. reflexivity. Qed.

(** Conversions of arrays and records. *)
Example conversion_samples :
  ToString (VArr [VNum (num 1); VNull; VArr [VStr "a"; VStr "b"]])
  = Normal "1,,a,b"
  /\ ToString (VObj [("valueOf", VNum (num 1))]) = Normal "[object Object]"
  /\ ToString (VObj [("toString", VNum (num 1))]) = Throw TypeError
  /\ ToString (VArr [VStr "a"; VObj [("toString", VNull)]]) = Throw TypeError
  /\ ToNumber (VArr [VStr "12"]) = Normal (num 12)
  /\ ToNumber (VObj []) = Normal NaN
  /\ ToNumber (VObj [("toString", VStr "7")]) = Throw TypeError.
Proof. vm_compute. repeat split; reflexivity. Qed.

Example isAuthed_samples :
  Session.isAuthed Sample.signed_in = Normal true
  /\ Session.isAuthed Sample.only_user = Normal false
  /\ Session.isAuthed Sample.only_token = Normal false
  /\ Session.isAuthed Sample.empty_marker = Normal false
  /\ Session.isAuthed Sample.corrupt = Normal false
  /\ Session.isAuthed ∅ = Normal false.
Proof. vm_compute. repeat split; reflexivity. Qed.

(** An identity without email is labelled [Account]. *)
Example account_label_nameless :
  Session.account_label
    {[ "pw_user" := qq "{'age':70}"; "pw_token" := "abc" ]}
  = Normal "Account".
Proof. vm_compute. reflexivity. Qed.

(** The logout control that [mountNav] injects on the site page, and what a
    click on it does. *)
Example logout_click :
  let w := Sample.load Sample.signed_in Sample.site_page in
  let w1 := with_document (Sample.after AuthJsMount.mountNav w) w in
  element_querySelector (by_id "pw-logout") [1; 0; 0]%nat (document w1)
  = Some [1; 0; 0; 2; 9]%nat
  /\ storage (click [1; 0; 0; 2; 9]%nat w1) = ∅
  /\ location_href (click [1; 0; 0; 2; 9]%nat w1) = "login.html"
  /\ document (click [1; 0; 0; 2; 9]%nat w1) = document w1.
Proof. vm_compute. repeat split; reflexivity. Qed.

(** The inline version of [mountHeader] leaves the header it creates
    empty. *)
Example inline_mountHeader_bare_page :
  HeaderInlineMount.mountHeader (Sample.load Sample.signed_in Sample.bare_page)
  = Normal (Sample.load Sample.signed_in
              (Sample.page_of [new_header; Elem "main" [] [] [Text "Welcome"]])).
Proof. vm_compute. reflexivity. Qed.

Example badge_samples :
  RiskForm.show_badge (scored (num 16))
    {| RiskForm.classList := ["badge"; "low"]; RiskForm.textContent := "" |}
  = ({| RiskForm.classList := ["badge"; "high"];
        RiskForm.textContent := "Risk Level: High (score 16)" |}, Normal tt)
  /\ RiskForm.show_badge (VObj [("detail", VStr "no model")])
       {| RiskForm.classList := ["badge"; "high"]; RiskForm.textContent := "" |}
     = ({| RiskForm.classList := ["badge"; "low"];
           RiskForm.textContent := "Risk Level: Low (score 0)" |}, Normal tt)
  /\ RiskForm.show_badge
       (VObj [("risk_score", VObj [("toString", VNum (num 1))])])
       {| RiskForm.classList := ["badge"; "high"];
          RiskForm.textContent := "Risk Level: High (score 16)" |}
     = ({| RiskForm.classList := ["badge"];
           RiskForm.textContent := "Risk Level: High (score 16)" |},
        Throw TypeError).
Proof. vm_compute. repeat split; reflexivity. Qed.

Example unconvertible_email :
  Session.isAuthed Sample.object_email = Normal true
  /\ AuthJs.navHTML Sample.object_email = Throw TypeError
  /\ HeaderJs.headerHTML Sample.object_email = Throw TypeError
  /\ HeaderJsMount.mountHeader_steps
       (Sample.load Sample.object_email Sample.bare_page)
     = (Sample.load Sample.object_email
          (Sample.page_of [new_header; Elem "main" [] [] [Text "Welcome"]]),
        Throw TypeError).
Proof. vm_compute. repeat split; reflexivity. Qed.

End Evaluation.

(* ===================================================================== *)
(** * Further properties: session accessor *)
(* ===================================================================== *)

(** A side condition [k1 <> k2] from its mirror image in the context. *)
Ltac other_key :=
  let E := fresh in intros E; symmetry in E; contradiction.

Section SessionMore.
Context `{Platform}.

Lemma login_store (st : Storage) (u : value) (now : number) :
  fst (Session.login st u now)
  = setItem st Session.keyUser (default "undefined" (JSON_stringify u))
  \/ exists m,
       Session.login st u now
       = (setItem (setItem st Session.keyUser
                     (default "undefined" (JSON_stringify u)))
            Session.keyToken m, Normal tt).
Proof.
  unfold Session.login.
  match goal with
  | |- context [match ?c with Normal _ => _ | Throw _ => _ end] =>
      destruct c as [m|]
  end; [right; eauto | now left].
Qed.

Lemma login_completed (st st' : Storage) (u : value) (now : number) :
  Session.login st u now = (st', Normal tt) ->
  exists email text m,
    get_prop u "email" = Normal email
    /\ ToString email = Normal text
    /\ btoa (text +:+ ":" +:+ NumberToString now) = Normal m
    /\ st' = setItem (setItem st Session.keyUser
                        (default "undefined" (JSON_stringify u)))
               Session.keyToken m.
Proof.
  intros Hl.
  destruct (login_completed_store _ _ _ _ Hl)
    as (m & -> & email & text & He & Ht & Hm).
  exists email, text, m. auto.
Qed.

Lemma login_failed (st st' : Storage) (u : value) (now : number) (e : exn) :
  Session.login st u now = (st', Throw e) ->
  st' = setItem st Session.keyUser (default "undefined" (JSON_stringify u)).
Proof.
  unfold Session.login.
  match goal with
  | |- context [match ?c with Normal _ => _ | Throw _ => _ end] =>
      destruct c as [m|]
  end; [discriminate|]. now intros [= <- _].
Qed.

Lemma readers_agree (st1 st2 : Storage) :
  agree_on_session st1 st2 ->
  Session.user st1 = Session.user st2
  /\ Session.isAuthed st1 = Session.isAuthed st2
  /\ Session.account_label st1 = Session.account_label st2.
Proof.
  intros [Hu Ht].
  assert (Huser : Session.user st1 = Session.user st2).
  { unfold Session.user, getItem. now rewrite Hu. }
  split; [exact Huser|]. split.
  - unfold Session.isAuthed, Session.token, getItem. now rewrite Huser, Ht.
  - unfold Session.account_label. now rewrite Huser.
Qed.

Lemma login_other_keys (st : Storage) (u : value) (now : number) (k : string) :
  k <> Session.keyUser -> k <> Session.keyToken ->
  fst (Session.login st u now) !! k = st !! k.
Proof.
  intros Hu Ht.
  destruct (login_store st u now) as [-> | [m ->]]; cbn; unfold setItem.
  - now rewrite lookup_insert_ne by other_key.
  - now rewrite !lookup_insert_ne by other_key.
Qed.

Lemma logout_other_keys (st : Storage) (k : string) :
  k <> Session.keyUser -> k <> Session.keyToken ->
  Session.logout st !! k = st !! k.
Proof.
  intros Hu Ht. unfold Session.logout, removeItem.
  now rewrite !lookup_delete_ne by other_key.
Qed.

End SessionMore.

(** X1.  [login] — also when it throws — and [logout] change no entry of
    the store other than [pw_user] and [pw_token]. *)
Theorem session_writes_only_its_keys `{Platform} (st : Storage) (u : value)
    (now : number) (k : string) :
  k <> Session.keyUser -> k <> Session.keyToken ->
  fst (Session.login st u now) !! k = st !! k
  /\ Session.logout st !! k = st !! k.
Proof.
  intros Hu Ht. split.
  - now apply login_other_keys.
  - now apply logout_other_keys.
Qed.

Lemma session_writes_only_its_keys_witness :
  fst (@Session.login Ref.platform
         (<["theme" := "dark"]> Sample.corrupt) Sample.alice
         (num 1700000000000)) !! "theme" = Some "dark"
  /\ Session.logout (<["theme" := "dark"]> Sample.signed_in) !! "theme"
     = Some "dark".
Proof.
  split.
  - rewrite (proj1 (@session_writes_only_its_keys Ref.platform
                      (<["theme" := "dark"]> Sample.corrupt) Sample.alice
                      (num 1700000000000) "theme"
                      ltac:(discriminate) ltac:(discriminate))).
    vm_compute. reflexivity.
  - rewrite (proj2 (@session_writes_only_its_keys Ref.platform
                      (<["theme" := "dark"]> Sample.signed_in) VNull
                      (num 0) "theme"
                      ltac:(discriminate) ltac:(discriminate))).
    vm_compute. reflexivity.
Defined.

(** X2.  A login that throws has not written the marker: [pw_token] is
    what it was, since the marker is the last thing [login] writes and
    everything that can throw comes before.  So a login that throws on a
    store without marker leaves a store that is not authenticated. *)
Theorem failed_login_leaves_the_marker `{Platform} (st st' : Storage)
    (u : value) (now : number) (e : exn) :
  Session.login st u now = (st', Throw e) ->
  st' !! Session.keyToken = st !! Session.keyToken
  /\ (st !! Session.keyToken = None ->
      Session.isAuthed st' = Normal false).
Proof.
  intros Hl. apply login_failed in Hl as ->.
  assert (Ht : setItem st Session.keyUser
                 (default "undefined" (JSON_stringify u)) !! Session.keyToken
               = st !! Session.keyToken).
  { unfold setItem. apply lookup_insert_ne, keys_differ. }
  split; [exact Ht|].
  intros Hnone. apply isAuthed_no_marker. now rewrite Ht.
Qed.

Lemma failed_login_leaves_the_marker_witness :
  exists st',
    @Session.login Ref.platform Sample.only_user Sample.unconvertible
      (num 1700000000000)
    = (st', Throw TypeError)
    /\ st' !! Session.keyToken = None
    /\ @Session.isAuthed Ref.platform st' = Normal false.
Proof.
  assert (Hl : exists st',
             @Session.login Ref.platform Sample.only_user Sample.unconvertible
               (num 1700000000000) = (st', Throw TypeError))
    by (eexists; vm_compute; reflexivity).
  destruct Hl as [st' Hl]. exists st'. split; [exact Hl|].
  destruct (@failed_login_leaves_the_marker Ref.platform _ _ _ _ _ Hl)
    as (Htok & Hnot).
  split; [rewrite Htok; reflexivity | apply Hnot; reflexivity].
Defined.

(** X3.  A login that completes forgets the previous session: on stores
    that differ at most in [pw_user] and [pw_token] it ends in the same
    store.  So a second login overwrites the first, and a login after a
    logout is the same as the login alone. *)
Theorem completed_login_forgets_prior_session `{Platform} (st1 st2 st' : Storage)
    (u : value) (now : number) :
  agree_outside_session st1 st2 ->
  Session.login st1 u now = (st', Normal tt) ->
  Session.login st2 u now = (st', Normal tt)
  /\ Session.login (Session.logout st1) u now = (st', Normal tt)
  /\ forall u0 now0,
       Session.login (fst (Session.login st1 u0 now0)) u now = (st', Normal tt).
Proof.
  intros Hagree Hl.
  assert (Hgen : forall st0, agree_outside_session st1 st0 ->
                             Session.login st0 u now = (st', Normal tt)).
  { intros st0 H0.
    destruct (login_completed _ _ _ _ Hl)
      as (email & text & m & He & Htx & Hm & ->).
    unfold Session.login. rewrite He. cbn. rewrite Htx. cbn. rewrite Hm.
    f_equal. unfold setItem.
    apply map_eq. intros k.
    destruct (decide (k = Session.keyToken)) as [->|Ht].
    { now rewrite !lookup_insert_eq. }
    rewrite !(lookup_insert_ne _ Session.keyToken) by other_key.
    destruct (decide (k = Session.keyUser)) as [->|Hu].
    { now rewrite !lookup_insert_eq. }
    rewrite !lookup_insert_ne by other_key. symmetry. now apply H0. }
  split; [now apply Hgen|]. split.
  - apply Hgen. intros k Hu Ht. symmetry. now apply logout_other_keys.
  - intros u0 now0. apply Hgen. intros k Hu Ht. symmetry.
    now apply login_other_keys.
Qed.

Lemma completed_login_forgets_prior_session_witness :
  @Session.login Ref.platform Sample.corrupt Sample.alice (num 1700000000000)
  = (Sample.signed_in, Normal tt)
  /\ @Session.login Ref.platform (Session.logout Sample.corrupt) Sample.alice
       (num 1700000000000)
     = (Sample.signed_in, Normal tt).
Proof.
  assert (Hl : @Session.login Ref.platform Sample.corrupt Sample.alice
                 (num 1700000000000) = (Sample.signed_in, Normal tt))
    by (vm_compute; reflexivity).
  split; [exact Hl|].
  apply (@completed_login_forgets_prior_session Ref.platform
           Sample.corrupt Sample.corrupt Sample.signed_in Sample.alice
           (num 1700000000000)).
  - intros k _ _. reflexivity.
  - exact Hl.
Defined.

(** X4.  What a completed login stores is what the getter returns: for an
    identity that JSON writes and reads back unchanged and whose email is a
    non-empty string, [user] returns that identity afterwards, the account
    label is the email, and both renderers show it in the account link. *)
Theorem login_then_user_round_trip `{PlatformLaws} (st st' : Storage)
    (u : value) (now : number) (s email : string) :
  JSON_stringify u = Some s ->
  JSON_parse s = Normal u ->
  get_prop_opt u "email" = VStr email -> email <> "" ->
  Session.login st u now = (st', Normal tt) ->
  Session.user st' = Normal u
  /\ Session.account_label st' = Normal email
  /\ (exists m, AuthJs.navHTML st' = Normal m
                /\ Contains (account_link email) m)
  /\ (exists m, HeaderJs.headerHTML st' = Normal m
                /\ Contains (account_link email) m).
Proof.
  intros Hs Hp He Hne Hl.
  assert (Hrec : exists fields, u = VObj fields).
  { destruct u; try discriminate. eauto. }
  destruct Hrec as [fields ->].
  assert (Ha : Session.isAuthed st' = Normal true).
  { destruct (login_completed _ _ _ _ Hl) as (em & tx & m & _ & _ & Hm & ->).
    rewrite Hs. cbn [default].
    apply (isAuthed_true_intro _ s m (VObj fields)); auto; unfold setItem.
    - rewrite lookup_insert_ne by (symmetry; apply keys_differ).
      apply lookup_insert_eq.
    - apply lookup_insert_eq.
    - eapply btoa_nonempty; [exact Hm | apply marker_text_nonempty]. }
  assert (Hu : Session.user st' = Normal (VObj fields)).
  { destruct (login_completed _ _ _ _ Hl) as (em & tx & m & _ & _ & _ & ->).
    rewrite Hs. cbn [default]. apply (user_stored _ s); [|exact Hp].
    unfold setItem. rewrite lookup_insert_ne by (symmetry; apply keys_differ).
    apply lookup_insert_eq. }
  pose proof (account_label_email st' _ email Hu He Hne) as Hlabel.
  split; [exact Hu|]. split; [exact Hlabel|]. split.
  - eexists. split; [apply (navHTML_authed st' email Ha Hlabel)|].
    apply nav_authed_markup.
  - eexists. split; [apply (headerHTML_authed st' email Ha Hlabel)|].
    apply header_authed_markup.
Qed.

Lemma login_then_user_round_trip_witness :
  @Session.user Ref.platform Sample.signed_in = Normal Sample.alice
  /\ @Session.account_label Ref.platform Sample.signed_in
     = Normal "alice@example.org".
Proof.
  destruct (@login_then_user_round_trip Ref.platform ref_laws
              Sample.corrupt Sample.signed_in Sample.alice
              (num 1700000000000)
              (qq "{'email':'alice@example.org','age':70}")
              "alice@example.org")
    as (Hu & Hl & _).
  - vm_compute. reflexivity.
  - vm_compute. reflexivity.
  - reflexivity.
  - discriminate.
  - vm_compute. reflexivity.
  - split; [exact Hu | exact Hl].
Defined.

(** X5.  The getters and the renderers read nothing but the two session
    entries: on stores with the same [pw_user] and [pw_token] they return
    the same results, whatever else the stores hold. *)
Theorem readers_depend_on_session_entries `{Platform} (st1 st2 : Storage) :
  agree_on_session st1 st2 ->
  Session.user st1 = Session.user st2
  /\ Session.token st1 = Session.token st2
  /\ Session.isAuthed st1 = Session.isAuthed st2
  /\ AuthJs.navHTML st1 = AuthJs.navHTML st2
  /\ HeaderJs.headerHTML st1 = HeaderJs.headerHTML st2
  /\ HeaderInline.headerHTML st1 = HeaderInline.headerHTML st2.
Proof.
  intros Hagree. destruct (readers_agree st1 st2 Hagree) as (Hu & Ha & Hl).
  split; [exact Hu|]. split.
  { unfold Session.token, getItem. now rewrite (proj2 Hagree). }
  split; [exact Ha|].
  unfold AuthJs.navHTML, HeaderJs.headerHTML, HeaderInline.headerHTML.
  now rewrite Ha, Hl.
Qed.

Lemma readers_depend_on_session_entries_witness :
  @AuthJs.navHTML Ref.platform (<["theme" := "dark"]> Sample.signed_in)
  = @AuthJs.navHTML Ref.platform Sample.signed_in.
Proof.
  apply (@readers_depend_on_session_entries Ref.platform
           (<["theme" := "dark"]> Sample.signed_in) Sample.signed_in).
  split; vm_compute; reflexivity.
Defined.

(** X6.  After [logout] both renderers produce the markup for a visitor who
    is not authenticated, on every store; and a second [logout] changes
    nothing. *)
Theorem logout_then_render_guest `{Platform} (st : Storage) :
  AuthJs.navHTML (Session.logout st) = Normal AuthJs.nav_guest
  /\ HeaderJs.headerHTML (Session.logout st) = Normal HeaderJs.header_guest
  /\ HeaderInline.headerHTML (Session.logout st)
     = Normal HeaderInline.header_guest
  /\ Session.logout (Session.logout st) = Session.logout st.
Proof.
  assert (Ha : Session.isAuthed (Session.logout st) = Normal false).
  { apply isAuthed_no_marker. unfold Session.logout, removeItem.
    apply lookup_delete_eq. }
  unfold AuthJs.navHTML, HeaderJs.headerHTML, HeaderInline.headerHTML.
  rewrite Ha. repeat split.
  unfold Session.logout, removeItem. apply map_eq. intros k.
  destruct (decide (k = Session.keyToken)) as [->|Ht].
  { now rewrite !lookup_delete_eq. }
  rewrite !(lookup_delete_ne _ Session.keyToken) by other_key.
  destruct (decide (k = Session.keyUser)) as [->|Hu].
  { now rewrite !lookup_delete_eq. }
  now rewrite !lookup_delete_ne by other_key.
Qed.

(* ===================================================================== *)
(** * Further properties: page mount controller *)
(* ===================================================================== *)

Section HostCandidates.

Lemma first_in_node_none_weaker (P Q : list shape -> shape -> bool) (n : node) :
  (forall ancs e, Q ancs e = true -> P ancs e = true) ->
  forall ancs, first_in_node P ancs n = None -> first_in_node Q ancs n = None.
Proof.
  intros HQP. induction n as [s|t a l ch IH] using node_induction;
    intros ancs Hn; [reflexivity|].
  cbn in *. destruct (P ancs (t, a)) eqn:HP; [discriminate|].
  destruct (Q ancs (t, a)) eqn:HQ; [apply HQP in HQ; congruence|].
  apply first_some_None. intros k c Hk. rewrite Forall_forall in IH.
  apply IH; [eapply list_elem_of_lookup_2, Hk|].
  now apply (proj1 (first_some_None _ _ _) Hn k c).
Qed.

Lemma header_header_is_header (e : shape) :
  matches_compound header_header e = true ->
  matches_compound (by_class "header") e = true.
Proof.
  unfold matches_compound. cbn. intros Hm.
  apply andb_prop in Hm as [_ Hc]. exact Hc.
Qed.

Lemma chain_matches_single (c : compound) (x : shape) (ancs : list shape) :
  chain_matches [c] (x :: ancs)
  = matches_compound c x && true || chain_matches [c] ancs.
Proof. reflexivity. Qed.

Lemma chain_matches_single_weaker (c c' : compound) (ancs : list shape) :
  (forall e, matches_compound c e = true -> matches_compound c' e = true) ->
  chain_matches [c] ancs = true -> chain_matches [c'] ancs = true.
Proof.
  intros Hcc. induction ancs as [|x ancs IH]; [discriminate|].
  rewrite !chain_matches_single, !andb_true_r. intros Hc.
  apply orb_prop in Hc as [Hc|Hc].
  - now rewrite (Hcc _ Hc).
  - rewrite (IH Hc). apply orb_true_r.
Qed.

Lemma header_header_inner_is_header_inner (ancs : list shape) (e : shape) :
  matches sel_header_header_inner ancs e = true ->
  matches sel_header_inner ancs e = true.
Proof.
  unfold matches. cbn [target above sel_header_header_inner sel_header_inner].
  intros Hm. apply andb_prop in Hm as [Ht Hc]. rewrite Ht.
  now rewrite (chain_matches_single_weaker _ _ ancs header_header_is_header Hc).
Qed.

End HostCandidates.

(** X7.  The second host candidate, ['header.header .header-inner'], never
    decides: whatever it matches, the first candidate
    ['.header .header-inner'] has matched already.  The host is the first
    [.header .header-inner] element, or else the first [header.header]. *)
Theorem second_candidate_never_decides (doc : node) :
  AuthJsMount.find_host doc
  = match querySelector sel_header_inner doc with
    | Some p => Some p
    | None => querySelector sel_header doc
    end.
Proof.
  unfold AuthJsMount.find_host.
  destruct (querySelector sel_header_inner doc) as [p|] eqn:H1; [reflexivity|].
  unfold querySelector in *.
  now rewrite (first_in_node_none_weaker _ _ doc
                 header_header_inner_is_header_inner [] H1).
Qed.

Section LogoutControl.
Context `{Platform}.

Lemma element_querySelector_found (s : selector) (host p : path) (doc : node) :
  element_querySelector s host doc = Some p ->
  exists r t a l ch,
    p = host ++ r /\ node_at p doc = Some (Elem t a l ch).
Proof.
  unfold element_querySelector.
  destruct (node_at host doc) as [e|] eqn:Hn; [|discriminate].
  intros Hq. apply fmap_Some in Hq as (q & Hq & ->).
  unfold first_in_list in Hq.
  apply first_some_Some in Hq as (k & c & q' & -> & Hk & Hc & _).
  apply first_in_node_found in Hc as (t & a & l & ch & Hn' & _).
  exists ((0 + k)%nat :: q'), t, a, l, ch. split; [reflexivity|].
  rewrite node_at_app, Hn. cbn.
  destruct e as [x|t0 a0 l0 ch0]; [destruct k; discriminate|].
  cbn in Hk |- *. now rewrite Hk.
Qed.



End LogoutControl.



Section OutsideTheHost.
Context `{Platform}.

(** A change at a path leaves every node on a diverging path alone. *)
Lemma node_at_update_at_diverging (c p q : path) (i j : nat)
    (g : node -> node) (doc : node) :
  i <> j ->
  node_at (c ++ j :: q) (update_at (c ++ i :: p) g doc)
  = node_at (c ++ j :: q) doc.
Proof.
  intros Hij. revert doc. induction c as [|k c IH]; intros doc;
    destruct doc as [s|t a l ch]; try reflexivity; cbn.
  - now rewrite list_lookup_alter_ne.
  - rewrite list_lookup_alter_eq. destruct (ch !! k); cbn; [apply IH | reflexivity].
Qed.

Lemma mountNav_document (w w' : world) (host : path) :
  AuthJsMount.find_host (document w) = Some host ->
  AuthJsMount.mountNav w = Normal w' ->
  location_href w' = location_href w
  /\ (document w' = document w
      \/ exists html,
           document w' = insertAdjacentHTML_beforeend host html (document w)
      \/ exists html r h,
           document w'
           = update_at (host ++ r) (with_click h)
               (insertAdjacentHTML_beforeend host html (document w))).
Proof.
  intros Hf Hm. unfold AuthJsMount.mountNav in Hm. rewrite Hf in Hm.
  destruct (element_querySelector _ host (document w)).
  { injection Hm as <-. auto. }
  destruct (AuthJs.navHTML (storage w)) as [html|]; [|discriminate].
  cbn in Hm. injection Hm as <-. cbn. split; [reflexivity|]. right.
  destruct (element_querySelector (by_id "pw-logout") host _) as [p|] eqn:Hlo.
  - destruct (element_querySelector_found _ _ _ _ Hlo) as (r & _ & _ & _ & _ & -> & _).
    exists html. right. exists html, r, (LogoutThenGoto "login.html"). reflexivity.
  - exists html. now left.
Qed.

End OutsideTheHost.

(** X9.  [mountNav] touches nothing outside its host: every node on a path
    that leaves the path to the host at some point is after the call what
    it was before, listeners included, and [location.href] is unchanged. *)
Theorem mountNav_leaves_the_rest `{Platform} (w w' : world) (host c r q : path)
    (i j : nat) :
  AuthJsMount.find_host (document w) = Some host ->
  AuthJsMount.mountNav w = Normal w' ->
  host = c ++ i :: r -> i <> j ->
  node_at (c ++ j :: q) (document w') = node_at (c ++ j :: q) (document w)
  /\ location_href w' = location_href w.
Proof.
  intros Hf Hm -> Hij.
  destruct (mountNav_document w w' _ Hf Hm) as [Hloc Hdoc].
  split; [|exact Hloc].
  destruct Hdoc as [-> | [html [-> | (html' & r' & h & ->)]]].
  - reflexivity.
  - unfold insertAdjacentHTML_beforeend. now apply node_at_update_at_diverging.
  - unfold insertAdjacentHTML_beforeend. rewrite <- app_assoc. cbn [app].
    rewrite node_at_update_at_diverging by exact Hij.
    now apply node_at_update_at_diverging.
Qed.

Lemma mountNav_leaves_the_rest_witness :
  node_at [1; 1]%nat
    (Sample.after (@AuthJsMount.mountNav Ref.platform)
       (Sample.load Sample.signed_in Sample.site_page))
  = node_at [1; 1]%nat Sample.site_page.
Proof.
  apply (@mountNav_leaves_the_rest Ref.platform
           (Sample.load Sample.signed_in Sample.site_page)
           (with_document
              (Sample.after (@AuthJsMount.mountNav Ref.platform)
                 (Sample.load Sample.signed_in Sample.site_page))
              (Sample.load Sample.signed_in Sample.site_page))
           [1; 0; 0]%nat [1]%nat [0]%nat [] 0%nat 1%nat).
  - vm_compute. reflexivity.
  - vm_compute. reflexivity.
  - reflexivity.
  - lia.
Defined.

Section HeaderAgain.
Context `{Platform}.

Lemma update_at_ext (p : path) (g g' : node -> node) (n : node) :
  (forall e, g e = g' e) -> update_at p g n = update_at p g' n.
Proof.
  intros Hg. revert n. induction p as [|i p IH]; intros n; [apply Hg|].
  destruct n as [s|t a l ch]; [reflexivity|]. cbn. f_equal.
  apply list_alter_ext; [|reflexivity]. intros x _. apply IH.
Qed.

Lemma update_at_twice (p : path) (g g' : node -> node) (n : node) :
  update_at p g (update_at p g' n) = update_at p (fun e => g (g' e)) n.
Proof.
  revert n. induction p as [|i p IH]; intros n; [reflexivity|].
  destruct n as [s|t a l ch]; [reflexivity|]. cbn. f_equal.
  rewrite list_alter_alter_eq. apply list_alter_ext; [|reflexivity].
  intros x _. apply IH.
Qed.

(** The erasure of [e.innerHTML = html]. *)
Lemma erase_set_innerHTML (host : path) (html : string) (doc : node) :
  erase_clicks (set_innerHTML host html doc)
  = update_at host
      (fun e => with_children
                  (fun _ => List.map erase_clicks
                              (parse_fragment (shape_of e) html)) e)
      (erase_clicks doc).
Proof.
  unfold set_innerHTML. apply erase_update_at.
  intros [s|t a l ch]; reflexivity.
Qed.

(** Assigning the same markup twice is assigning it once, up to
    listeners, and only the erasure of the document matters. *)
Lemma erase_set_innerHTML_again (host : path) (html : string) (doc doc' : node) :
  erase_clicks doc' = erase_clicks (set_innerHTML host html doc) ->
  erase_clicks (set_innerHTML host html doc') = erase_clicks doc'.
Proof.
  intros He. rewrite erase_set_innerHTML, He, erase_set_innerHTML.
  rewrite update_at_twice. apply update_at_ext.
  intros [s|t a l ch]; reflexivity.
Qed.

(** A matching element prepended at [b] in a document without match is the
    first match. *)
Lemma first_in_node_prepended (P : list shape -> shape -> bool) (b : path)
    (tn : string) (an : list (string * string)) (ln : list listener)
    (chn : list node) (doc : node) :
  (forall ancs, P ancs (tn, an) = true) ->
  (exists t a l ch, node_at b doc = Some (Elem t a l ch)) ->
  forall ancs,
    first_in_node P ancs doc = None ->
    first_in_node P ancs (prepend b (Elem tn an ln chn) doc) = Some (b ++ [0%nat]).
Proof.
  intros HP. unfold prepend. revert doc.
  induction b as [|i b IH]; intros doc (t & a & l & ch & Hn) ancs Hnone.
  - cbn in Hn. injection Hn as ->. cbn in *.
    destruct (P ancs (t, a)); [discriminate|]. now rewrite HP.
  - destruct doc as [s|t0 a0 l0 ch0]; [discriminate|]. cbn in *.
    destruct (P ancs (t0, a0)); [discriminate|].
    destruct (ch0 !! i) as [c|] eqn:Hc; [|discriminate]. cbn in Hn.
    apply first_some_Some. exists i, (update_at b (with_children (cons (Elem tn an ln chn))) c), (b ++ [0%nat]).
    repeat split.
    + rewrite list_lookup_alter_eq, Hc. reflexivity.
    + apply IH; [eauto|]. now apply (proj1 (first_some_None _ _ _) Hnone i c).
    + intros k' c' Hlt Hk'. rewrite list_lookup_alter_ne in Hk' by lia.
      now apply (proj1 (first_some_None _ _ _) Hnone k' c').
Qed.

Lemma querySelector_created_header (b : path) (html : string) (doc : node) :
  querySelector sel_header doc = None ->
  document_body doc = Some b ->
  querySelector sel_header (prepend b new_header doc) = Some (b ++ [0%nat]).
Proof.
  intros Hq Hb. unfold querySelector, new_header.
  apply first_in_node_prepended; auto.
  now apply document_body_found.
Qed.

Lemma querySelector_after_set_innerHTML (s : selector) (host : path)
    (html : string) (doc : node) :
  querySelector s doc = Some host ->
  querySelector s (set_innerHTML host html doc) = Some host.
Proof.
  intros Hq. unfold querySelector, set_innerHTML.
  apply first_in_node_stable; [|exact Hq].
  apply (keeps_shape_with_children
           (fun e _ => parse_fragment (shape_of e) html)).
Qed.

Lemma querySelector_same_erasure (s : selector) (doc doc' : node) :
  erase_clicks doc' = erase_clicks doc ->
  querySelector s doc' = querySelector s doc.
Proof.
  intros He. now rewrite <- (querySelector_erase s doc'), He, querySelector_erase.
Qed.

(** What the document is after [mountHeader], up to listeners: the markup
    assigned to the host, which is the first [header.header] afterwards. *)
Lemma mountHeader_result (w w' : world) :
  HeaderJsMount.mountHeader w = Normal w' ->
  exists host html doc0,
    HeaderJs.headerHTML (storage w) = Normal html
    /\ storage w' = storage w /\ location_href w' = location_href w
    /\ erase_clicks (document w') = erase_clicks (set_innerHTML host html doc0)
    /\ querySelector sel_header (document w') = Some host.
Proof.
  intros Hm. destruct (mountHeader_rendered w w' Hm) as [html Hh].
  destruct (querySelector sel_header (document w)) as [hh|] eqn:Hq.
  - destruct (mountHeader_found w hh html Hq Hh) as (doc' & Hm' & He).
    rewrite Hm' in Hm. injection Hm as <-.
    exists hh, html, (document w).
    split; [exact Hh|]. split; [reflexivity|]. split; [reflexivity|].
    split; [exact He|].
    change (document (with_document doc' w)) with doc'.
    rewrite (querySelector_same_erasure _ _ _ He).
    now apply querySelector_after_set_innerHTML.
  - destruct (document_body (document w)) as [b|] eqn:Hb.
    2:{ unfold HeaderJsMount.mountHeader, HeaderJsMount.mountHeader_steps,
          HeaderJsMount.ensure_host in Hm. rewrite Hq, Hb in Hm.
        discriminate. }
    destruct (mountHeader_created w b html Hq Hb Hh) as (doc' & Hm' & He).
    rewrite Hm' in Hm. injection Hm as <-.
    exists (b ++ [0%nat]), html, (prepend b new_header (document w)).
    split; [exact Hh|]. split; [reflexivity|]. split; [reflexivity|].
    split; [exact He|].
    change (document (with_document doc' w)) with doc'.
    rewrite (querySelector_same_erasure _ _ _ He).
    apply querySelector_after_set_innerHTML.
    now apply (querySelector_created_header b html).
Qed.

Lemma mountHeader_again (w w1 w2 : world) :
  HeaderJsMount.mountHeader w = Normal w1 ->
  HeaderJsMount.mountHeader w1 = Normal w2 ->
  erase_clicks (document w2) = erase_clicks (document w1)
  /\ storage w2 = storage w1
  /\ location_href w2 = location_href w1.
Proof.
  intros Hm1 Hm2.
  destruct (mountHeader_result w w1 Hm1)
    as (host & html & doc0 & Hh & Hs1 & _ & He1 & Hq1).
  rewrite <- Hs1 in Hh.
  destruct (mountHeader_found w1 host html Hq1 Hh) as (doc2 & Hm2' & He2).
  rewrite Hm2' in Hm2. injection Hm2 as <-. cbn.
  split; [|split; reflexivity].
  rewrite He2. now apply (erase_set_innerHTML_again host html doc0).
Qed.

(** Once [mountHeader] has completed, it completes again. *)
Lemma mountHeader_completes_again (w w1 : world) :
  HeaderJsMount.mountHeader w = Normal w1 ->
  exists w2, HeaderJsMount.mountHeader w1 = Normal w2.
Proof.
  intros Hm1.
  destruct (mountHeader_result w w1 Hm1)
    as (host & html & doc0 & Hh & Hs1 & _ & _ & Hq1).
  rewrite <- Hs1 in Hh.
  destruct (mountHeader_found w1 host html Hq1 Hh) as (doc2 & Hm2 & _).
  eauto.
Qed.

End HeaderAgain.

(** X10.  [mountHeader] of the script file is idempotent by replacement:
    a second call right after the first leaves the same tags, attributes,
    text and nesting in the whole document, the same store and the same
    [location.href] — also when the first call had to create the
    header. *)
Theorem mountHeader_twice_is_once `{Platform} (w w1 w2 : world) :
  HeaderJsMount.mountHeader w = Normal w1 ->
  HeaderJsMount.mountHeader w1 = Normal w2 ->
  erase_clicks (document w2) = erase_clicks (document w1)
  /\ storage w2 = storage w1
  /\ location_href w2 = location_href w1.
Proof. apply mountHeader_again. Qed.

Lemma mountHeader_twice_is_once_witness :
  erase_clicks
    (Sample.after (@HeaderJsMount.mountHeader Ref.platform)
       (Sample.load Sample.signed_in
          (Sample.after (@HeaderJsMount.mountHeader Ref.platform)
             (Sample.load Sample.signed_in Sample.bare_page))))
  = erase_clicks
      (Sample.after (@HeaderJsMount.mountHeader Ref.platform)
         (Sample.load Sample.signed_in Sample.bare_page)).
Proof.
  apply (@mountHeader_twice_is_once Ref.platform
           (Sample.load Sample.signed_in Sample.bare_page)
           (Sample.load Sample.signed_in
              (Sample.after (@HeaderJsMount.mountHeader Ref.platform)
                 (Sample.load Sample.signed_in Sample.bare_page)))
           (Sample.load Sample.signed_in
              (Sample.after (@HeaderJsMount.mountHeader Ref.platform)
                 (Sample.load Sample.signed_in
                    (Sample.after (@HeaderJsMount.mountHeader Ref.platform)
                       (Sample.load Sample.signed_in Sample.bare_page)))))).
  - vm_compute. reflexivity.
  - vm_compute. reflexivity.
Defined.

Section InlineHeader.
Context `{Platform}.

Lemma inline_mountHeader_found (w : world) (host : path) (html : string) :
  querySelector sel_header (document w) = Some host ->
  HeaderInline.headerHTML (storage w) = Normal html ->
  exists doc',
    HeaderInlineMount.mountHeader w = Normal (with_document doc' w)
    /\ erase_clicks doc' = erase_clicks (set_innerHTML host html (document w)).
Proof.
  intros Hq Hh. unfold HeaderInlineMount.mountHeader. rewrite Hq. cbn.
  rewrite Hh. cbn.
  eexists. split; [reflexivity | apply erase_wire_logout].
Qed.

Lemma inline_mountHeader_throws (w : world) (host : path) (e : exn) :
  querySelector sel_header (document w) = Some host ->
  HeaderInline.headerHTML (storage w) = Throw e ->
  HeaderInlineMount.mountHeader w = Throw e.
Proof.
  intros Hq Hh. unfold HeaderInlineMount.mountHeader. rewrite Hq. cbn.
  now rewrite Hh.
Qed.

End InlineHeader.

(** X11.  The inline version of [mountHeader] on a page without
    [header.header]: the first call completes, on every store, after
    inserting an empty header as the first child of the body, without
    navigation and without listener.  Only a second call finds that header:
    it renders the navigation into it when [headerHTML] returns, and throws
    what [headerHTML] throws. *)
Theorem inline_mountHeader_renders_on_second_call `{Platform} (w : world)
    (b : path) :
  querySelector sel_header (document w) = None ->
  document_body (document w) = Some b ->
  exists w1,
    HeaderInlineMount.mountHeader w = Normal w1
    /\ node_at (b ++ [0%nat]) (document w1) = Some new_header
    /\ (forall html,
          HeaderInline.headerHTML (storage w) = Normal html ->
          exists w2 e2,
            HeaderInlineMount.mountHeader w1 = Normal w2
            /\ node_at (b ++ [0%nat]) (document w2) = Some e2
            /\ shape_of e2 = shape_of new_header
            /\ List.map erase_clicks (children_of e2)
               = List.map erase_clicks
                   (parse_fragment (shape_of new_header) html))
    /\ (forall e,
          HeaderInline.headerHTML (storage w) = Throw e ->
          HeaderInlineMount.mountHeader w1 = Throw e).
Proof.
  intros Hq Hb.
  pose proof (node_at_prepended b new_header _ (document_body_found _ _ Hb))
    as Hnew.
  exists (with_document (prepend b new_header (document w)) w).
  split; [now apply inline_mountHeader_created|]. split; [exact Hnew|].
  pose proof (querySelector_created_header b "" _ Hq Hb) as Hq1.
  split.
  - intros html Hh.
    destruct (inline_mountHeader_found
                (with_document (prepend b new_header (document w)) w)
                (b ++ [0%nat]) html Hq1 Hh) as (doc2 & Hm2 & He2).
    pose proof (set_innerHTML_node (b ++ [0%nat]) html _ _ Hnew) as Hn1.
    cbn [document with_document] in He2.
    destruct (node_at_same_erasure _ _ doc2 _ He2 Hn1) as (e2 & Hn2 & He').
    exists (with_document doc2
              (with_document (prepend b new_header (document w)) w)), e2.
    split; [exact Hm2|]. split; [exact Hn2|]. split.
    + now rewrite (same_erasure_shape _ _ He').
    + now rewrite (same_erasure_children _ _ He').
  - intros e Hh.
    now apply (inline_mountHeader_throws
                 (with_document (prepend b new_header (document w)) w)
                 (b ++ [0%nat]) e Hq1).
Qed.

Lemma inline_mountHeader_renders_on_second_call_witness :
  exists w1,
    @HeaderInlineMount.mountHeader Ref.platform
      (Sample.load Sample.signed_in Sample.bare_page) = Normal w1
    /\ node_at [1; 0]%nat (document w1) = Some new_header.
Proof.
  destruct (@inline_mountHeader_renders_on_second_call Ref.platform
              (Sample.load Sample.signed_in Sample.bare_page) [1]%nat)
    as (w1 & Hm & Hn & _).
  - vm_compute. reflexivity.
  - vm_compute. reflexivity.
  - exists w1. split; [exact Hm | exact Hn].
Defined.

(* ===================================================================== *)
(** * Further properties: script loading *)
(* ===================================================================== *)

Section Scheduling.
Context `{Platform}.

Lemma expose_and_schedule_deferred (own : auth_object) (c : callback)
    (mount : world -> world * completion unit) (p : page) (w : world) :
  ready_state p = Loading ->
  expose_and_schedule own c mount p w
  = ({| ready_state := Loading; PW_AUTH := Some own;
        on_DOMContentLoaded := on_DOMContentLoaded p ++ [c]; view := w |},
     Normal tt).
Proof. intros Hr. unfold expose_and_schedule. now rewrite Hr. Qed.


Lemma DOMContentLoaded_view (p : page) :
  ready_state p = Loading ->
  view (DOMContentLoaded p)
  = fold_left (dispatch (PW_AUTH p)) (on_DOMContentLoaded p) (view p).
Proof. intros Hr. unfold DOMContentLoaded. now rewrite Hr. Qed.

Lemma dispatch_call (global : option auth_object) (w : world) (c : callback) :
  dispatch global w c = fst (call c global w).
Proof. reflexivity. Qed.

(** The script-file [mountHeader] as effects and as a completion. *)
Lemma mountHeader_steps_returned (w w1 : world) :
  HeaderJsMount.mountHeader w = Normal w1
  <-> HeaderJsMount.mountHeader_steps w = (w1, Normal tt).
Proof.
  unfold HeaderJsMount.mountHeader.
  destruct (HeaderJsMount.mountHeader_steps w) as [w' [[]|e]]; split;
    congruence.
Qed.

(** A call that throws leaves a world in which the next call throws and
    changes nothing. *)
Lemma mountHeader_steps_thrown (w w1 : world) (e : exn) :
  HeaderJsMount.mountHeader_steps w = (w1, Throw e) ->
  HeaderJsMount.mountHeader_steps w1 = (w1, Throw e).
Proof.
  unfold HeaderJsMount.mountHeader_steps, HeaderJsMount.ensure_host.
  destruct (querySelector sel_header (document w)) as [host|] eqn:Hq.
  - destruct (HeaderJs.headerHTML (storage w)) as [html|e'] eqn:Hh;
      [discriminate|].
    intros [= <- <-]. cbn [document storage with_document].
    now rewrite Hq, Hh.
  - destruct (document_body (document w)) as [b|] eqn:Hb.
    + destruct (HeaderJs.headerHTML (storage w)) as [html|e'] eqn:Hh;
        [discriminate|].
      intros [= <- <-]. cbn [document storage with_document].
      rewrite (querySelector_created_header b "" _ Hq Hb), Hh.
      reflexivity.
    + intros [= <- <-]. now rewrite Hq, Hb.
Qed.

(** Two calls in a row leave the document that one call leaves, up to
    listeners, however the calls end. *)
Lemma mountHeader_steps_twice (w : world) :
  erase_clicks
    (document (fst (HeaderJsMount.mountHeader_steps
                      (fst (HeaderJsMount.mountHeader_steps w)))))
  = erase_clicks (document (fst (HeaderJsMount.mountHeader_steps w))).
Proof.
  destruct (HeaderJsMount.mountHeader_steps w) as [w1 [[]|e]] eqn:Hm1.
  - apply mountHeader_steps_returned in Hm1.
    destruct (mountHeader_completes_again w w1 Hm1) as [w2 Hm2].
    pose proof (mountHeader_again w w1 w2 Hm1 Hm2) as (He & _).
    apply mountHeader_steps_returned in Hm2.
    cbn [fst]. now rewrite Hm2.
  - cbn [fst]. now rewrite (mountHeader_steps_thrown w w1 e Hm1).
Qed.

End Scheduling.



(** X13.  [window.PW_AUTH] is shared.  The inline script's listener calls
    whatever [PW_AUTH] is when [DOMContentLoaded] fires.  On a page with a
    head: when [auth.js] is loaded after the inline script, that object has
    no [mountHeader], the listener throws, and the page ends up as if the
    inline script had not been there; when the script file is loaded after
    the inline script, its [mountHeader] runs twice, which leaves the same
    document as once, up to listeners. *)
Theorem inline_listener_calls_the_last_PW_AUTH `{Platform} (p : page) :
  ready_state p = Loading ->
  on_DOMContentLoaded p = [] ->
  is_Some (document_head (document (view p))) ->
  view (DOMContentLoaded
          (fst (AuthJsScript.run (fst (HeaderInlineScript.run p)))))
  = view (DOMContentLoaded (fst (AuthJsScript.run p)))
  /\ erase_clicks
       (document
          (view (DOMContentLoaded
                   (fst (HeaderJsScript.run (fst (HeaderInlineScript.run p)))))))
     = erase_clicks
         (document (view (DOMContentLoaded (fst (HeaderJsScript.run p))))).
Proof.
  intros Hr Hl [h Hh]. split.
  - unfold AuthJsScript.run, HeaderInlineScript.run, inject_style.
    cbn [fst view]. rewrite Hh.
    rewrite !expose_and_schedule_deferred by exact Hr. cbn [fst].
    rewrite !DOMContentLoaded_view by reflexivity.
    cbn [PW_AUTH on_DOMContentLoaded view]. rewrite Hl.
    cbn [app fold_left]. rewrite !dispatch_call. reflexivity.
  - unfold HeaderJsScript.run, HeaderInlineScript.run, inject_style.
    cbn [fst view]. rewrite Hh.
    rewrite !expose_and_schedule_deferred by exact Hr. cbn [fst].
    rewrite !DOMContentLoaded_view by reflexivity.
    cbn [PW_AUTH on_DOMContentLoaded view]. rewrite Hl.
    cbn [app fold_left]. rewrite !dispatch_call. cbn [call].
    apply mountHeader_steps_twice.
Qed.

Lemma inline_listener_calls_the_last_PW_AUTH_witness :
  view (@DOMContentLoaded Ref.platform
          (fst (@AuthJsScript.run Ref.platform
                  (fst (HeaderInlineScript.run
                          (SamplePage.loading
                             (Sample.load Sample.signed_in Sample.site_page)))))))
  = view (@DOMContentLoaded Ref.platform
            (fst (@AuthJsScript.run Ref.platform
                    (SamplePage.loading
                       (Sample.load Sample.signed_in Sample.site_page))))).
Proof.
  apply (@inline_listener_calls_the_last_PW_AUTH Ref.platform
           (SamplePage.loading (Sample.load Sample.signed_in Sample.site_page))
           eq_refl eq_refl).
  vm_compute. eauto.
Defined.

Section LoadedTwice.
Context `{Platform}.

Lemma first_some_alter_same {A : Type} (f : A -> option path) (g : A -> A)
    (i k : nat) (l : list A) :
  (forall c, l !! k = Some c -> f (g c) = f c) ->
  first_some f i (alter g k l) = first_some f i l.
Proof.
  revert i k. induction l as [|x l IH]; intros i k Hg; [reflexivity|].
  destruct k as [|k]; cbn.
  - now rewrite (Hg x eq_refl).
  - destruct (f x); [reflexivity|]. apply IH. intros c Hc. now apply Hg.
Qed.

(** Appending nodes that the predicate never matches changes no search. *)
Lemma first_in_node_after_append (P : list shape -> shape -> bool) (h : path)
    (extra : list node) (doc : node) :
  (forall ancs i, first_in_list P ancs i extra = None) ->
  forall ancs,
    first_in_node P ancs
      (update_at h (with_children (fun ch => ch ++ extra)) doc)
    = first_in_node P ancs doc.
Proof.
  intros Hextra. revert doc. induction h as [|i h IH]; intros doc ancs;
    destruct doc as [s|t a l ch]; try reflexivity; cbn;
    destruct (P ancs (t, a)); try reflexivity.
  - rewrite first_some_app. destruct (first_some _ 0 ch); [reflexivity|].
    apply Hextra.
  - apply first_some_alter_same. intros c _. apply IH.
Qed.

Lemma style_is_never_matched (s : selector) (css : string)
    (ancs : list shape) (i : nat) :
  matches_compound (target s) ("style", []) = false ->
  first_in_list (matches s) ancs i [style_element css] = None.
Proof.
  intros Hs. apply count_zero_first_in_list_none.
  unfold count_in_list, style_element. cbn. now rewrite Hs.
Qed.

Lemma querySelector_after_style (s : selector) (h : path) (css : string)
    (doc : node) :
  matches_compound (target s) ("style", []) = false ->
  querySelector s (appendChild h (style_element css) doc) = querySelector s doc.
Proof.
  intros Hs. unfold querySelector, appendChild.
  apply first_in_node_after_append. intros ancs i.
  now apply style_is_never_matched.
Qed.

Lemma find_host_after_style (h : path) (css : string) (doc : node) :
  AuthJsMount.find_host (appendChild h (style_element css) doc)
  = AuthJsMount.find_host doc.
Proof.
  unfold AuthJsMount.find_host.
  now rewrite !querySelector_after_style by reflexivity.
Qed.

Lemma ancestors_at_update_at_diverging (c p q : path) (i j : nat)
    (g : node -> node) (doc : node) (acc : list shape) :
  i <> j ->
  ancestors_at acc (c ++ j :: q) (update_at (c ++ i :: p) g doc)
  = ancestors_at acc (c ++ j :: q) doc.
Proof.
  intros Hij. revert doc acc. induction c as [|k c IH]; intros doc acc;
    destruct doc as [s|t a l ch]; try reflexivity; cbn.
  - now rewrite list_lookup_alter_ne.
  - rewrite list_lookup_alter_eq. destruct (ch !! k); cbn; [apply IH | reflexivity].
Qed.

Lemma element_querySelector_diverging (s : selector) (c p q : path) (i j : nat)
    (g : node -> node) (doc : node) :
  i <> j ->
  element_querySelector s (c ++ j :: q) (update_at (c ++ i :: p) g doc)
  = element_querySelector s (c ++ j :: q) doc.
Proof.
  intros Hij. unfold element_querySelector.
  now rewrite node_at_update_at_diverging, ancestors_at_update_at_diverging.
Qed.

(** ** The head stays where it is *)

Lemma index_where_alter_same (Q : node -> bool) (f : node -> node) (i k : nat)
    (l : list node) :
  (forall c, Q (f c) = Q c) ->
  index_where Q k (alter f i l) = index_where Q k l.
Proof.
  intros HQ. revert i k. induction l as [|x l IH]; intros i k; [reflexivity|].
  destruct i as [|i]; cbn.
  - now rewrite HQ.
  - destruct (Q x); [reflexivity | apply IH].
Qed.

Lemma index_where_map_same (Q : node -> bool) (f : node -> node) (k : nat)
    (l : list node) :
  (forall c, Q (f c) = Q c) ->
  index_where Q k (List.map f l) = index_where Q k l.
Proof.
  intros HQ. revert k. induction l as [|x l IH]; intros k; [reflexivity|].
  cbn. rewrite HQ. destruct (Q x); [reflexivity | apply IH].
Qed.

Lemma is_head_update_at (r : path) (g : node -> node) (c : node) :
  keeps_shape g -> is_head (update_at r g c) = is_head c.
Proof.
  intros Hg. destruct r as [|i r]; destruct c as [s|t a l ch]; try reflexivity.
  - cbn. now rewrite (Hg (Text s)).
  - cbn. destruct (Hg (Elem t a l ch)) as (l' & ch' & ->). reflexivity.
Qed.

Lemma document_head_update_below (i : nat) (r : path) (g : node -> node)
    (doc : node) :
  keeps_shape g ->
  document_head (update_at (i :: r) g doc) = document_head doc.
Proof.
  intros Hg. destruct doc as [s|t a l ch]; [reflexivity|]. cbn.
  destruct (String.eqb t "html"); [|reflexivity].
  rewrite index_where_alter_same; [reflexivity|].
  intros c. now apply is_head_update_at.
Qed.

Lemma document_head_erase (doc : node) :
  document_head (erase_clicks doc) = document_head doc.
Proof.
  destruct doc as [s|t a l ch]; [reflexivity|]. cbn.
  destruct (String.eqb t "html"); [|reflexivity].
  rewrite index_where_map_same; [reflexivity|]. now intros [s|t' a' l' ch'].
Qed.

Lemma document_head_path (doc : node) (h : path) :
  document_head doc = Some h -> exists k, h = [k].
Proof.
  destruct doc as [s|t a l ch]; [discriminate|]. cbn.
  destruct (String.eqb t "html"); [|discriminate].
  destruct (index_where is_head 0 ch) as [k|]; [|discriminate].
  intros [= <-]. eauto.
Qed.

Lemma document_head_after_style (k : nat) (css : string) (doc : node) :
  document_head (appendChild [k] (style_element css) doc) = document_head doc.
Proof.
  unfold appendChild. apply document_head_update_below.
  apply (keeps_shape_with_children (fun _ ch => ch ++ [style_element css])).
Qed.

(** ** What [mountNav] leaves behind *)

Lemma mountNav_outcome (w w1 : world) :
  AuthJsMount.mountNav w = Normal w1 ->
  w1 = w
  \/ exists host html doc1,
       AuthJsMount.find_host (document w) = Some host
       /\ element_querySelector (by_id "pw-nav") host (document w) = None
       /\ AuthJs.navHTML (storage w) = Normal html
       /\ w1 = with_document doc1 w
       /\ erase_clicks doc1
          = erase_clicks (insertAdjacentHTML_beforeend host html (document w)).
Proof.
  intros Hm.
  destruct (AuthJsMount.find_host (document w)) as [host|] eqn:Hf.
  2:{ rewrite (mountNav_no_host w Hf) in Hm. left. congruence. }
  destruct (element_querySelector (by_id "pw-nav") host (document w))
    as [q|] eqn:Hq.
  { rewrite (mountNav_guard w host Hf) in Hm by (rewrite Hq; eauto).
    left. congruence. }
  destruct (mountNav_rendered w w1 host Hf Hq Hm) as [html Hh].
  destruct (mountNav_inject w host html Hf Hq Hh) as (doc1 & Hm' & He).
  rewrite Hm' in Hm. injection Hm as <-. right.
  exists host, html, doc1. auto.
Qed.

(** After [mountNav], under the assumption on the parsed markup, the host
    lookup gives what it gave and the guard of the next call holds. *)
Lemma mountNav_leaves_guarded (w w1 : world) :
  single_marker_fragment w ->
  AuthJsMount.mountNav w = Normal w1 ->
  AuthJsMount.find_host (document w1) = AuthJsMount.find_host (document w)
  /\ forall host,
       AuthJsMount.find_host (document w1) = Some host ->
       is_Some (element_querySelector (by_id "pw-nav") host (document w1)).
Proof.
  intros Hfrag Hm.
  destruct (mountNav_outcome w w1 Hm)
    as [-> | (host & html & doc1 & Hf & Hq & Hh & -> & He)].
  - split; [reflexivity|]. intros host Hf.
    destruct (element_querySelector (by_id "pw-nav") host (document w))
      as [q|] eqn:Hq; [eauto|].
    destruct (mountNav_rendered w w host Hf Hq Hm) as [html Hh].
    destruct (mountNav_inject w host html Hf Hq Hh) as (doc1 & Hm' & He).
    destruct (find_host_found _ _ Hf) as (t & a & l & ch & Hn).
    destruct (Hfrag host _ html Hf Hn Hh) as [Hone Hnone].
    rewrite Hm' in Hm. injection Hm as Hw.
    apply (f_equal document) in Hw. cbn in Hw. rewrite <- Hw in Hq.
    rewrite <- element_querySelector_erase, He, element_querySelector_erase in Hq.
    unfold insertAdjacentHTML_beforeend in Hq.
    destruct (element_query_after_append (by_id "pw-nav") host
                (fun x => parse_fragment (shape_of x) html) _ _ eq_refl Hn)
      as [q' Hq']; [eauto | change (target (by_id "pw-nav")) with marker; lia |].
    congruence.
  - destruct (find_host_found _ _ Hf) as (t & a & l & ch & Hn).
    destruct (Hfrag host _ html Hf Hn Hh) as [Hone Hnone].
    unfold insertAdjacentHTML_beforeend in He.
    assert (Hf1 : AuthJsMount.find_host doc1 = Some host).
    { rewrite (find_host_same_erasure _ _ He).
      now apply (find_host_after_append host
                   (fun x => parse_fragment (shape_of x) html) _ _ Hf Hn). }
    cbn [document with_document]. split; [congruence|].
    intros host' Hf'. rewrite Hf1 in Hf'. injection Hf' as <-.
    rewrite <- element_querySelector_erase, He, element_querySelector_erase.
    apply (element_query_after_append (by_id "pw-nav") host
             (fun x => parse_fragment (shape_of x) html) _ _ eq_refl Hn).
    + eauto.
    + change (target (by_id "pw-nav")) with marker. lia.
Qed.

Lemma document_head_after_mountNav (w w1 : world) (k : nat) :
  host_outside_head (document w) ->
  document_head (document w) = Some [k] ->
  AuthJsMount.mountNav w = Normal w1 ->
  document_head (document w1) = Some [k].
Proof.
  intros Hout Hh Hm.
  destruct (mountNav_outcome w w1 Hm)
    as [-> | (host & html & doc1 & Hf & _ & _ & -> & He)]; [exact Hh|].
  destruct (Hout host k Hf Hh) as (i & r & -> & _).
  cbn [document with_document].
  rewrite <- document_head_erase, He, document_head_erase.
  unfold insertAdjacentHTML_beforeend.
  rewrite document_head_update_below; [exact Hh|].
  apply (keeps_shape_with_children
           (fun e ch => ch ++ parse_fragment (shape_of e) html)).
Qed.

End LoadedTwice.

(** X14.  Loading [auth.js] a second time on a loaded page adds a second
    copy of the style element to the head and nothing else: the script has
    no guard of its own, the guard is the one in [mountNav].  Stated for a
    first run whose [mountNav] completes, when the host is not inside the
    head and the rendered markup parses to one marked element and no
    [.header-inner]. *)
Theorem auth_js_loaded_twice `{Platform} (p : page) (w0 w1 : world) :
  ready_state p <> Loading ->
  inject_style AuthJsScript.CSS (view p) = Some w0 ->
  AuthJsMount.mountNav w0 = Normal w1 ->
  host_outside_head (document w0) ->
  single_marker_fragment w0 ->
  let p1 := {| ready_state := ready_state p; PW_AUTH := Some AuthOfAuthJs;
               on_DOMContentLoaded := on_DOMContentLoaded p; view := w1 |} in
  exists w2,
    AuthJsScript.run p = (p1, Normal tt)
    /\ inject_style AuthJsScript.CSS w1 = Some w2
    /\ AuthJsScript.run p1
       = ({| ready_state := ready_state p; PW_AUTH := Some AuthOfAuthJs;
             on_DOMContentLoaded := on_DOMContentLoaded p; view := w2 |},
          Normal tt).
Proof.
  intros Hr Hs Hm Hout Hfrag p1.
  assert (Hk : exists k, document_head (document w0) = Some [k]).
  { unfold inject_style in Hs.
    destruct (document_head (document (view p))) as [h|] eqn:Hh; [|discriminate].
    destruct (document_head_path _ _ Hh) as [k ->]. exists k.
    injection Hs as <-. cbn [document with_document].
    now rewrite document_head_after_style. }
  destruct Hk as [k Hh0].
  pose proof (document_head_after_mountNav w0 w1 k Hout Hh0 Hm) as Hh1.
  destruct (mountNav_leaves_guarded w0 w1 Hfrag Hm) as [Hsame Hguard].
  set (w2 := with_document
               (appendChild [k] (style_element AuthJsScript.CSS) (document w1))
               w1).
  assert (Hs1 : inject_style AuthJsScript.CSS w1 = Some w2).
  { unfold inject_style. now rewrite Hh1. }
  assert (Hm2 : AuthJsMount.mountNav w2 = Normal w2).
  { destruct (AuthJsMount.find_host (document w1)) as [host|] eqn:Hf1.
    - apply (mountNav_guard w2 host).
      + subst w2. cbn [document with_document].
        now rewrite find_host_after_style.
      + destruct (Hout host k) as (i & r & -> & Hik); [congruence | exact Hh0 |].
        subst w2. cbn [document with_document]. unfold appendChild.
        rewrite (element_querySelector_diverging _ [] [] r k i) by congruence.
        now apply Hguard.
    - apply mountNav_no_host. subst w2. cbn [document with_document].
      now rewrite find_host_after_style. }
  exists w2. split; [|split; [exact Hs1|]].
  - unfold AuthJsScript.run. rewrite Hs. unfold expose_and_schedule, steps_of.
    rewrite Hm. subst p1. destruct (ready_state p); [congruence | |]; reflexivity.
  - unfold AuthJsScript.run. subst p1. cbn [view]. rewrite Hs1.
    unfold expose_and_schedule, steps_of. cbn [ready_state on_DOMContentLoaded].
    rewrite Hm2. destruct (ready_state p); [congruence | |]; reflexivity.
Qed.

Lemma single_marker_fragment_styled :
  @single_marker_fragment Ref.platform SamplePage.styled.
Proof.
  intros host e html Hf Hn Hh.
  vm_compute in Hf. injection Hf as <-.
  vm_compute in Hn. injection Hn as <-.
  vm_compute in Hh. injection Hh as <-.
  vm_compute. split; reflexivity.
Qed.

Lemma host_outside_head_styled :
  @host_outside_head Ref.platform (document SamplePage.styled).
Proof.
  intros host k Hf Hh.
  vm_compute in Hf. injection Hf as <-.
  vm_compute in Hh. injection Hh as <-.
  exists 1%nat, [0%nat]. split; [reflexivity | discriminate].
Qed.

Lemma auth_js_loaded_twice_witness :
  exists w1 w2,
    @AuthJsMount.mountNav Ref.platform SamplePage.styled = Normal w1
    /\ inject_style AuthJsScript.CSS w1 = Some w2
    /\ @AuthJsScript.run Ref.platform
         {| ready_state := Complete; PW_AUTH := Some AuthOfAuthJs;
            on_DOMContentLoaded := []; view := w1 |}
       = ({| ready_state := Complete; PW_AUTH := Some AuthOfAuthJs;
             on_DOMContentLoaded := []; view := w2 |},
          Normal tt).
Proof.
  destruct (@mountNav_completes Ref.platform SamplePage.styled) as [w1 Hm];
    [vm_compute; eauto|].
  destruct (@auth_js_loaded_twice Ref.platform
              (SamplePage.loaded
                 (Sample.load Sample.signed_in Sample.plain_header_page))
              SamplePage.styled w1) as (w2 & _ & Hs1 & Hrun).
  - discriminate.
  - reflexivity.
  - exact Hm.
  - exact host_outside_head_styled.
  - exact single_marker_fragment_styled.
  - exists w1, w2. split; [exact Hm|]. split; [exact Hs1 | exact Hrun].
Defined.

(* ===================================================================== *)
(** * Further properties: risk form *)
(* ===================================================================== *)

Section BadgeAgain.
Context `{Platform}.
Import RiskForm.

(** The class list after the badge block, however it ends. *)
Lemma classList_after_show_badge (j : value) (b : badge) :
  classList (fst (show_badge j b))
  = classList_remove band_classes (classList b)
    ++ match score_of j with
       | Normal n => [snd (band n)]
       | Throw _ => []
       end.
Proof.
  destruct (score_of j) as [n|e] eqn:Hs.
  - now rewrite (show_badge_scored j n b Hs).
  - rewrite (show_badge_throws j e b Hs). cbn. now rewrite app_nil_r.
Qed.

Lemma classList_remove_after_show_badge (j : value) (b : badge) :
  classList_remove band_classes (classList (fst (show_badge j b)))
  = classList_remove band_classes (classList b).
Proof.
  rewrite classList_after_show_badge, classList_remove_app,
    classList_remove_again.
  destruct (score_of j) as [n|e].
  - now rewrite classList_remove_band, app_nil_r.
  - cbn. now rewrite app_nil_r.
Qed.

Lemma no_band_class_after_remove (l : list string) :
  List.filter is_band_class (classList_remove band_classes l) = [].
Proof.
  induction l as [|c l IH]; [reflexivity|].
  unfold classList_remove in *. cbn [List.filter].
  fold (is_band_class c).
  destruct (is_band_class c) eqn:Hc; cbn [negb List.filter]; [exact IH|].
  now rewrite Hc.
Qed.

Lemma other_classes_after_remove (l : list string) :
  List.filter (fun c => negb (is_band_class c))
    (classList_remove band_classes l)
  = List.filter (fun c => negb (is_band_class c)) l.
Proof. apply (classList_remove_again band_classes). Qed.

End BadgeAgain.

(** X15.  The badge keeps nothing of an earlier result.  Showing a
    response whose score converts gives the same badge whether or not
    another response was shown before, and however showing that one ended;
    and the class list never depends on an earlier response. *)
Theorem show_badge_forgets_earlier_result `{Platform} (j1 j2 : value)
    (b : RiskForm.badge) :
  (forall n2,
     RiskForm.score_of j2 = Normal n2 ->
     RiskForm.show_badge j2 (fst (RiskForm.show_badge j1 b))
     = RiskForm.show_badge j2 b)
  /\ RiskForm.classList
       (fst (RiskForm.show_badge j2 (fst (RiskForm.show_badge j1 b))))
     = RiskForm.classList (fst (RiskForm.show_badge j2 b)).
Proof.
  split.
  - intros n2 Hs.
    rewrite (show_badge_scored j2 n2 (fst (RiskForm.show_badge j1 b)) Hs).
    rewrite (show_badge_scored j2 n2 b Hs).
    now rewrite classList_remove_after_show_badge.
  - rewrite (classList_after_show_badge j2 (fst (RiskForm.show_badge j1 b))).
    rewrite (classList_after_show_badge j2 b).
    now rewrite classList_remove_after_show_badge.
Qed.

Lemma show_badge_forgets_earlier_result_witness :
  @RiskForm.show_badge Ref.platform (scored (num 3))
    (fst (@RiskForm.show_badge Ref.platform
            (VObj [("risk_score", VObj [("toString", VNum (num 1))])])
            {| RiskForm.classList := ["badge"; "high"];
               RiskForm.textContent := "" |}))
  = @RiskForm.show_badge Ref.platform (scored (num 3))
      {| RiskForm.classList := ["badge"; "high"];
         RiskForm.textContent := "" |}.
Proof.
  apply (proj1 (@show_badge_forgets_earlier_result Ref.platform
                  (VObj [("risk_score", VObj [("toString", VNum (num 1))])])
                  (scored (num 3))
                  {| RiskForm.classList := ["badge"; "high"];
                     RiskForm.textContent := "" |}) (num 3)).
  vm_compute. reflexivity.
Defined.

(** X16.  After the badge block the badge carries at most one of the
    classes [low], [moderate] and [high]: the one of the band of the score,
    as its last class, when the score converts, and none when the
    conversion throws (the text is then what it was).  Its other classes
    are those it had, in their order, and no class is duplicated. *)
Theorem badge_carries_one_band_class `{Platform} (j : value)
    (b : RiskForm.badge) :
  List.filter (fun c => negb (is_band_class c))
    (RiskForm.classList (fst (RiskForm.show_badge j b)))
  = List.filter (fun c => negb (is_band_class c)) (RiskForm.classList b)
  /\ (NoDup (RiskForm.classList b) ->
      NoDup (RiskForm.classList (fst (RiskForm.show_badge j b))))
  /\ (forall n,
        RiskForm.score_of j = Normal n ->
        List.filter is_band_class
          (RiskForm.classList (fst (RiskForm.show_badge j b)))
        = [snd (RiskForm.band n)]
        /\ exists others,
             RiskForm.classList (fst (RiskForm.show_badge j b))
             = others ++ [snd (RiskForm.band n)])
  /\ (forall e,
        RiskForm.score_of j = Throw e ->
        List.filter is_band_class
          (RiskForm.classList (fst (RiskForm.show_badge j b))) = []
        /\ RiskForm.textContent (fst (RiskForm.show_badge j b))
           = RiskForm.textContent b).
Proof.
  rewrite classList_after_show_badge.
  split; [|split; [|split]].
  - rewrite List.filter_app, other_classes_after_remove.
    destruct (RiskForm.score_of j) as [n|e]; cbn [List.filter].
    + rewrite band_class_is_band. cbn [negb]. apply app_nil_r.
    + apply app_nil_r.
  - intros Hnd. apply NoDup_app. split; [|split].
    + apply NoDup_ListNoDup, List.NoDup_filter, NoDup_ListNoDup, Hnd.
    + intros c Hc Hin. apply list_elem_of_In in Hc, Hin.
      apply classList_remove_spec in Hc. destruct Hc as [_ Hc].
      destruct (RiskForm.score_of j) as [n|e]; [|destruct Hin].
      destruct Hin as [<-|[]].
      pose proof (band_class_is_band n) as Hb.
      unfold is_band_class in Hb. congruence.
    + destruct (RiskForm.score_of j); [apply NoDup_singleton | apply NoDup_nil_2].
  - intros n Hs. rewrite Hs. split; [|eauto].
    rewrite List.filter_app, no_band_class_after_remove.
    cbn [List.filter app]. now rewrite band_class_is_band.
  - intros e Hs. rewrite Hs, app_nil_r. split.
    + apply no_band_class_after_remove.
    + now rewrite (show_badge_throws j e b Hs).
Qed.

Lemma badge_carries_one_band_class_witness :
  NoDup (RiskForm.classList
           (fst (@RiskForm.show_badge Ref.platform (scored (num 7))
                   {| RiskForm.classList := ["badge"; "high"; "pill"];
                      RiskForm.textContent := "" |})))
  /\ List.filter is_band_class
       (RiskForm.classList
          (fst (@RiskForm.show_badge Ref.platform
                  (VObj [("risk_score", VObj [("toString", VNum (num 1))])])
                  {| RiskForm.classList := ["badge"; "high"; "pill"];
                     RiskForm.textContent := "" |}))) = [].
Proof.
  split.
  - apply (@badge_carries_one_band_class Ref.platform).
    apply (bool_decide_unpack _). vm_compute. reflexivity.
  - destruct (@badge_carries_one_band_class Ref.platform
                (VObj [("risk_score", VObj [("toString", VNum (num 1))])])
                {| RiskForm.classList := ["badge"; "high"; "pill"];
                   RiskForm.textContent := "" |}) as (_ & _ & _ & Hthrow).
    apply (Hthrow TypeError). vm_compute. reflexivity.
Defined.

Section Payload.
Context `{Platform}.
Variable JSON_pretty : value -> string.
Variable error_text : exn -> string.
Import RiskSubmit.

Lemma ToNumber_fd_get (fd : form_data) (name : string) :
  ToNumber (fd_get fd name)
  = Normal match attr name fd with
           | Some s => StringToNumber s
           | None => num 0
           end.
Proof. unfold fd_get. now destruct (attr name fd). Qed.

Lemma ToString_fd_get (fd : form_data) (name : string) :
  ToString (fd_get fd name)
  = Normal match attr name fd with
           | Some s => s
           | None => "null"
           end.
Proof. unfold fd_get. now destruct (attr name fd). Qed.

(** The conversions of form entries never throw: the payload is always
    built. *)
Lemma payload_value (fd : form_data) :
  let number name := VNum match attr name fd with
                          | Some s => StringToNumber s
                          | None => num 0
                          end in
  let text name := match attr name fd with
                   | Some s => s
                   | None => "null"
                   end in
  payload fd
  = Normal
      (VObj [("age", number "age");
             ("sex", VStr (text "sex"));
             ("heart_rate", number "heart_rate");
             ("blood_pressure_sys", number "blood_pressure_sys");
             ("respiration_rate", number "respiration_rate");
             ("oxygen_saturation", number "oxygen_saturation");
             ("gait_speed", number "gait_speed");
             ("step_variability", number "step_variability");
             ("hrv", number "hrv");
             ("sleep_hours", number "sleep_hours");
             ("recent_fall", VBool (String.eqb (text "recent_fall") "true"));
             ("mobility_aid", VStr (text "mobility_aid"));
             ("cognitive_score", number "cognitive_score");
             ("balance_test", number "balance_test");
             ("medication_count", number "medication_count")]).
Proof.
  intros number text. unfold payload.
  rewrite !ToNumber_fd_get, !ToString_fd_get. reflexivity.
Qed.

Lemma set_riskOut_present (s : string) (ui : risk_ui) :
  is_Some (riskOut ui) ->
  set_riskOut s ui = Normal {| riskOut := Some s; riskBadge := riskBadge ui |}.
Proof. intros [s0 Hs]. unfold set_riskOut. now rewrite Hs. Qed.

Lemma on_error_present (e_text : string) (ui : risk_ui) :
  is_Some (riskOut ui) ->
  on_error e_text ui
  = ({| riskOut := Some ("Error: " +:+ e_text); riskBadge := riskBadge ui |},
     Normal tt).
Proof. intros Hs. unfold on_error. now rewrite set_riskOut_present. Qed.

Lemma on_response_scored (j : value) (n : number) (ui : risk_ui) :
  is_Some (riskOut ui) ->
  RiskForm.score_of j = Normal n ->
  on_response JSON_pretty error_text (Resolved j) ui
  = ({| riskOut := Some (JSON_pretty j);
        riskBadge := (fun b => fst (RiskForm.show_badge j b))
                       <$> riskBadge ui |},
     Normal tt).
Proof.
  intros Hout Hs. unfold on_response. rewrite set_riskOut_present by exact Hout.
  cbn [riskBadge riskOut]. destruct (riskBadge ui) as [b|]; [|reflexivity].
  change ((fun b0 => fst (RiskForm.show_badge j b0)) <$> Some b)
    with (Some (fst (RiskForm.show_badge j b))).
  now rewrite (show_badge_scored j n b Hs).
Qed.

Lemma on_response_unconvertible (j : value) (e : exn) (ui : risk_ui)
    (b : RiskForm.badge) :
  is_Some (riskOut ui) ->
  RiskForm.score_of j = Throw e ->
  riskBadge ui = Some b ->
  on_response JSON_pretty error_text (Resolved j) ui
  = ({| riskOut := Some ("Error: " +:+ error_text e);
        riskBadge :=
          Some {| RiskForm.classList :=
                    RiskForm.classList_remove band_classes
                      (RiskForm.classList b);
                  RiskForm.textContent := RiskForm.textContent b |} |},
     Normal tt).
Proof.
  intros Hout Hs Hb. unfold on_response.
  rewrite set_riskOut_present by exact Hout.
  cbn [riskBadge riskOut]. rewrite Hb, (show_badge_throws j e b Hs).
  now rewrite on_error_present by (cbn; eauto).
Qed.

Lemma on_response_without_badge (j : value) (ui : risk_ui) :
  is_Some (riskOut ui) ->
  riskBadge ui = None ->
  on_response JSON_pretty error_text (Resolved j) ui
  = ({| riskOut := Some (JSON_pretty j); riskBadge := None |}, Normal tt).
Proof.
  intros Hout Hb. unfold on_response.
  rewrite set_riskOut_present by exact Hout.
  cbn [riskBadge riskOut]. now rewrite Hb.
Qed.

Lemma on_response_rejected (reason : string) (ui : risk_ui) :
  is_Some (riskOut ui) ->
  on_response JSON_pretty error_text (Rejected reason) ui
  = ({| riskOut := Some ("Error: " +:+ reason); riskBadge := riskBadge ui |},
     Normal tt).
Proof. intros Hs. unfold on_response. now apply on_error_present. Qed.

End Payload.

(** X17.  The payload is always built, and a field that the form does not
    have is still sent: a numeric one as 0, a text one as the text [null],
    and [recent_fall] as [false]. *)
Theorem payload_of_missing_field `{Platform} (fd : RiskSubmit.form_data)
    (name : string) :
  attr name fd = None ->
  exists p,
    RiskSubmit.payload fd = Normal p
    /\ (In name numeric_fields -> get_prop_opt p name = VNum (num 0))
    /\ (In name text_fields -> get_prop_opt p name = VStr "null")
    /\ (name = "recent_fall" -> get_prop_opt p name = VBool false).
Proof.
  intros Hn. eexists. split; [apply payload_value|].
  split; [|split]; intros Hin; cbn in Hin;
    repeat (destruct Hin as [<-|Hin]); try contradiction; try subst name;
    cbn; rewrite Hn; reflexivity.
Qed.

Lemma payload_of_missing_field_witness :
  exists p,
    @RiskSubmit.payload Ref.platform [("age", "70")] = Normal p
    /\ get_prop_opt p "hrv" = VNum (num 0).
Proof.
  destruct (@payload_of_missing_field Ref.platform [("age", "70")] "hrv")
    as (p & Hp & Hnum & _).
  - reflexivity.
  - exists p. split; [exact Hp|]. apply Hnum. vm_compute. tauto.
Defined.

(** X18.  [recent_fall] is sent as [true] exactly when the form gives the
    text [true] for it; any other text, and a missing field, give
    [false]. *)
Theorem recent_fall_only_for_true `{Platform} (fd : RiskSubmit.form_data) :
  exists p,
    RiskSubmit.payload fd = Normal p
    /\ get_prop_opt p "recent_fall"
       = VBool (bool_decide (attr "recent_fall" fd = Some "true")).
Proof.
  eexists. split; [apply payload_value|]. cbn. f_equal.
  destruct (attr "recent_fall" fd) as [s|]; cbn.
  - destruct (String.eqb s "true") eqn:Hs.
    + apply String.eqb_eq in Hs. subst. reflexivity.
    + apply String.eqb_neq in Hs. symmetry. apply bool_decide_eq_false.
      congruence.
  - reflexivity.
Qed.

(** X19.  A request that fails after one that succeeded (with a score that
    converts) leaves the badge of the earlier result in place under the
    error text: neither the start of a submission nor the error branch
    touches the badge. *)
Theorem failed_request_keeps_earlier_badge `{Platform}
    (JSON_pretty : value -> string) (error_text : exn -> string)
    (j : value) (n : number) (reason : string) (ui : RiskSubmit.risk_ui) :
  is_Some (RiskSubmit.riskOut ui) ->
  RiskForm.score_of j = Normal n ->
  exists ui1 ui2 ui3 ui4,
    RiskSubmit.begin_submit ui = Normal ui1
    /\ RiskSubmit.on_response JSON_pretty error_text (RiskSubmit.Resolved j) ui1
       = (ui2, Normal tt)
    /\ RiskSubmit.begin_submit ui2 = Normal ui3
    /\ RiskSubmit.on_response JSON_pretty error_text
         (RiskSubmit.Rejected reason) ui3 = (ui4, Normal tt)
    /\ RiskSubmit.riskBadge ui1 = RiskSubmit.riskBadge ui
    /\ RiskSubmit.riskBadge ui3 = RiskSubmit.riskBadge ui2
    /\ RiskSubmit.riskOut ui4 = Some ("Error: " +:+ reason)
    /\ RiskSubmit.riskBadge ui4
       = (fun b => fst (RiskForm.show_badge j b)) <$> RiskSubmit.riskBadge ui.
Proof.
  intros Hout Hs. unfold RiskSubmit.begin_submit.
  do 4 eexists.
  split; [apply set_riskOut_present; exact Hout|].
  split; [apply (on_response_scored _ _ j n); [cbn; eauto | exact Hs]|].
  split; [apply set_riskOut_present; cbn; eauto|].
  split; [apply on_response_rejected; cbn; eauto|].
  cbn. auto.
Qed.

Lemma failed_request_keeps_earlier_badge_witness :
  exists ui2 ui4,
    @RiskSubmit.on_response Ref.platform sample_pretty sample_error_text
      (RiskSubmit.Resolved (scored (num 7)))
      {| RiskSubmit.riskOut := Some "Computing…";
         RiskSubmit.riskBadge := RiskSubmit.riskBadge sample_risk_ui |}
    = (ui2, Normal tt)
    /\ @RiskSubmit.on_response Ref.platform sample_pretty sample_error_text
         (RiskSubmit.Rejected "TypeError: Failed to fetch")
         {| RiskSubmit.riskOut := Some "Computing…";
            RiskSubmit.riskBadge := RiskSubmit.riskBadge ui2 |}
       = (ui4, Normal tt)
    /\ RiskSubmit.riskBadge ui4
       = (fun b => fst (@RiskForm.show_badge Ref.platform (scored (num 7)) b))
           <$> RiskSubmit.riskBadge sample_risk_ui.
Proof.
  destruct (@failed_request_keeps_earlier_badge Ref.platform sample_pretty
              sample_error_text (scored (num 7)) (num 7)
              "TypeError: Failed to fetch" sample_risk_ui)
    as (ui1 & ui2 & ui3 & ui4 & H1 & H2 & H3 & H4 & _ & _ & _ & Hb).
  - vm_compute. eauto.
  - reflexivity.
  - vm_compute in H1. injection H1 as <-.
    pose proof H2 as H2'. vm_compute in H2'. injection H2' as <-.
    vm_compute in H3. injection H3 as <-.
    eexists _, ui4. split; [exact H2 | split; [exact H4 | exact Hb]].
Defined.

(** X20.  A response whose score does not convert ends in the [catch]
    branch after the badge has been half cleared: the output shows the
    error text, the badge has lost its band class and kept its text, and
    the handler still completes.  On a page without badge element the score
    is never converted, and the same response is shown without error. *)
Theorem unconvertible_score_half_clears_the_badge `{Platform}
    (JSON_pretty : value -> string) (error_text : exn -> string)
    (j : value) (e : exn) (ui : RiskSubmit.risk_ui) :
  is_Some (RiskSubmit.riskOut ui) ->
  RiskForm.score_of j = Throw e ->
  (forall b,
     RiskSubmit.riskBadge ui = Some b ->
     RiskSubmit.on_response JSON_pretty error_text (RiskSubmit.Resolved j) ui
     = ({| RiskSubmit.riskOut := Some ("Error: " +:+ error_text e);
           RiskSubmit.riskBadge :=
             Some {| RiskForm.classList :=
                       RiskForm.classList_remove band_classes
                         (RiskForm.classList b);
                     RiskForm.textContent := RiskForm.textContent b |} |},
        Normal tt))
  /\ (RiskSubmit.riskBadge ui = None ->
      RiskSubmit.on_response JSON_pretty error_text (RiskSubmit.Resolved j) ui
      = ({| RiskSubmit.riskOut := Some (JSON_pretty j);
            RiskSubmit.riskBadge := None |},
         Normal tt)).
Proof.
  intros Hout Hs. split.
  - intros b Hb. now apply on_response_unconvertible.
  - intros Hb. now apply on_response_without_badge.
Qed.

Lemma unconvertible_score_half_clears_the_badge_witness :
  @RiskSubmit.on_response Ref.platform sample_pretty sample_error_text
    (RiskSubmit.Resolved
       (VObj [("risk_score", VObj [("toString", VNum (num 1))])]))
    sample_risk_ui
  = ({| RiskSubmit.riskOut := Some "Error: TypeError";
        RiskSubmit.riskBadge :=
          Some {| RiskForm.classList := ["badge"; "pill"];
                  RiskForm.textContent := "" |} |},
     Normal tt).
Proof.
  destruct (@unconvertible_score_half_clears_the_badge Ref.platform
              sample_pretty sample_error_text
              (VObj [("risk_score", VObj [("toString", VNum (num 1))])])
              TypeError sample_risk_ui) as (Hbadge & _).
  - vm_compute. eauto.
  - vm_compute. reflexivity.
  - rewrite (Hbadge _ eq_refl). vm_compute. reflexivity.
Defined.
